(** * ml-document-system: the document processing pipeline

    A shallow embedding of the Python sources
    - [src/utils.py], [src/config.py] (the standalone script),
    - [src/processor/utils.py], [src/processor/config.py],
      [src/processor/pipeline.py], [src/processor/views.py] (the Django app)
    together with the properties the specification states about them.

    Python [str] values are modelled as lists of characters whose code
    points lie below 256; the character classes ([str.isspace], the regular
    expression classes [\s] and [\w], [str.lower], [str.isdigit]) are
    Python's own tables restricted to that range.  External collaborators
    (the OCR engine, the NER model, the [re] engine, the sentence embedder,
    the chromadb collection, the clock and the file system) are fields of
    a record of services; the pipeline threads an explicit world through a
    state-and-exception monad. *)

From Stdlib Require Import Ascii String List Bool Arith ZArith Lia Floats Permutation.
Import ListNotations.
Open Scope list_scope.
Open Scope bool_scope.
Set Warnings "-inexact-float".

(* ===================================================================== *)
(** * Python values used by the sources *)
(* ===================================================================== *)

Module Py.

(** A Python [str]. *)
Definition str := list ascii.

(** A literal of the source. *)
Definition lit (s : string) : str := list_ascii_of_string s.

Definition str_eqb (a b : str) : bool :=
  if list_eq_dec ascii_dec a b then true else false.

Definition code (c : ascii) : nat := nat_of_ascii c.

Definition between (lo hi n : nat) : bool := (lo <=? n) && (n <=? hi).

(** [str.isspace] on one character, which is also the class [\s] of
    [re] and the set removed by [str.strip()]. *)
Definition isspace (c : ascii) : bool :=
  let n := code c in
  between 9 13 n || between 28 32 n || (n =? 133) || (n =? 160).

(** The class [\w] of [re] on a [str] pattern: alphanumerics and [_]. *)
Definition isword (c : ascii) : bool :=
  let n := code c in
  between 48 57 n || between 65 90 n || (n =? 95) || between 97 122 n
  || (n =? 170) || between 178 179 n || (n =? 181) || between 185 186 n
  || between 188 190 n || between 192 214 n || between 216 246 n
  || between 248 255 n.

(** [str.isdigit] on one character. *)
Definition isdigit (c : ascii) : bool :=
  let n := code c in
  between 48 57 n || between 178 179 n || (n =? 185).

(** [str.lower] on one character. *)
Definition lower_char (c : ascii) : ascii :=
  let n := code c in
  if between 65 90 n || between 192 214 n || between 216 222 n
  then ascii_of_nat (n + 32) else c.

Definition lower (s : str) : str := map lower_char s.

(** [str.upper] on one character.  Python sends code points 181, 223
    and 255 outside the modelled range (223 becomes the two characters
    SS); they are left in place here, which changes no comparison with
    the upper-case ASCII tags the sources compare against. *)
Definition upper_char (c : ascii) : ascii :=
  let n := code c in
  if between 97 122 n || between 224 246 n || between 248 254 n
  then ascii_of_nat (n - 32) else c.

Definition upper (s : str) : str := map upper_char s.

Fixpoint dropwhile {A} (p : A -> bool) (l : list A) : list A :=
  match l with
  | [] => []
  | x :: l' => if p x then dropwhile p l' else l
  end.

Definition lstrip (s : str) : str := dropwhile isspace s.
Definition rstrip (s : str) : str := rev (dropwhile isspace (rev s)).

(** [s.strip()] *)
Definition strip (s : str) : str := rstrip (lstrip s).

(** [s.split(sep)] for a one-character separator. *)
Fixpoint split_on (sep : ascii) (s : str) : list str :=
  match s with
  | [] => [[]]
  | c :: s' =>
      if Ascii.eqb c sep then [] :: split_on sep s'
      else match split_on sep s' with
           | [] => [[c]]
           | w :: ws => (c :: w) :: ws
           end
  end.

(** [s.split()]: the maximal runs of non-whitespace characters. *)
Fixpoint split_ws_acc (cur : str) (s : str) : list str :=
  match s with
  | [] => match cur with [] => [] | _ => [rev cur] end
  | c :: s' =>
      if isspace c
      then match cur with
           | [] => split_ws_acc [] s'
           | _ => rev cur :: split_ws_acc [] s'
           end
      else split_ws_acc (c :: cur) s'
  end.

Definition split_ws (s : str) : list str := split_ws_acc [] s.

(** [sep.join(parts)] *)
Fixpoint join (sep : str) (parts : list str) : str :=
  match parts with
  | [] => []
  | [p] => p
  | p :: ps => p ++ sep ++ join sep ps
  end.

(** [needle in hay] on strings: substring search. *)
Fixpoint prefixb (p s : str) : bool :=
  match p, s with
  | [], _ => true
  | _ :: _, [] => false
  | a :: p', b :: s' => Ascii.eqb a b && prefixb p' s'
  end.

Fixpoint contains (hay needle : str) : bool :=
  prefixb needle hay ||
  match hay with
  | [] => false
  | _ :: hay' => contains hay' needle
  end.

(** [x in xs] on a list of strings. *)
Definition mem (x : str) (xs : list str) : bool := existsb (str_eqb x) xs.

(** [re.sub(r'\s+', ' ', text)]: every maximal run of whitespace
    becomes one space.  [in_run] records that the previous character
    belonged to the run being replaced. *)
Fixpoint sub_spaces_from (in_run : bool) (s : str) : str :=
  match s with
  | [] => []
  | c :: s' =>
      if isspace c
      then if in_run then sub_spaces_from true s'
           else " "%char :: sub_spaces_from true s'
      else c :: sub_spaces_from false s'
  end.

Definition sub_spaces (s : str) : str := sub_spaces_from false s.

(** Exceptions are told apart by their class only. *)
Inductive exn :=
| ImportError
| TimeoutError
| RuntimeError
| KeyError
| OSError
| ReError
| AttributeError
| ValueError.

(** The outcome of a call: a value or a raised exception. *)
Inductive result (A : Type) :=
| Ok (a : A)
| Raise (e : exn).
Arguments Ok {A} a.
Arguments Raise {A} e.

(** The values [re.findall] returns and the entity lists hold: a
    string, or a tuple of strings when the pattern has several groups. *)
Inductive pyval :=
| VStr (s : str)
| VTuple (t : list str).

Definition pyval_eq_dec (a b : pyval) : {a = b} + {a <> b}.
Proof.
  decide equality; apply (list_eq_dec (list_eq_dec ascii_dec)) ||
                   apply (list_eq_dec ascii_dec).
Defined.

Definition pyval_eqb (a b : pyval) : bool :=
  if pyval_eq_dec a b then true else false.

(** [text[:n]] for a non-negative literal [n]. *)
Definition prefix (n : nat) (s : str) : str := firstn n s.

(** [xs[:limit]] for an [int] limit, negative limits counting from
    the end. *)
Definition slice_to {A} (xs : list A) (limit : Z) : list A :=
  if (0 <=? limit)%Z then firstn (Z.to_nat limit) xs
  else firstn (length xs - Z.to_nat (- limit)) xs.

(** [s.endswith(suffix)] *)
Definition endswith (s suffix : str) : bool := prefixb (rev suffix) (rev s).

(** A [dict] with [str] keys, in insertion order. *)
Definition dict (V : Type) := list (string * V).

Fixpoint dict_get {V} (k : string) (d : dict V) : option V :=
  match d with
  | [] => None
  | (k', v) :: d' => if String.eqb k k' then Some v else dict_get k d'
  end.

(** [d[k] = v]: replaces in place, or appends a new key. *)
Fixpoint dict_set {V} (k : string) (v : V) (d : dict V) : dict V :=
  match d with
  | [] => [(k, v)]
  | (k', v') :: d' =>
      if String.eqb k k' then (k, v) :: d' else (k', v') :: dict_set k v d'
  end.

Definition keys {V} (d : dict V) : list string := map fst d.

(** [list(dict.fromkeys(xs))] for a list of hashable values with
    decidable equality: the keys of the dict built by inserting the
    elements from left to right. *)
Section FromKeys.
Context {A : Type} (eqb : A -> A -> bool).

Fixpoint keys_add (x : A) (ks : list A) : list A :=
  match ks with
  | [] => [x]
  | k :: ks' => if eqb x k then ks else k :: keys_add x ks'
  end.

Definition fromkeys (xs : list A) : list A :=
  fold_left (fun ks x => keys_add x ks) xs [].
End FromKeys.

End Py.

Import Py.

(* ===================================================================== *)
(** * src/config.py and src/processor/config.py *)
(* ===================================================================== *)

Module Config.

(** [ENTITY_PATTERNS] of src/config.py: one pattern per kind. *)
Definition ENTITY_PATTERNS : dict string :=
  [ ("email", "\b[A-Za-z0-9._%+-]+@[A-Za-z0-9.-]+\.[A-Z|a-z]{2,}\b");
    ("phone", "\b\d{3}[-.]?\d{3}[-.]?\d{4}\b");
    ("date", "\d{1,2}[/-]\d{1,2}[/-]\d{2,4}");
    ("amount", "\$\s*\d+\.?\d*") ]%string.

End Config.

Module ProcessorConfig.

Definition DOCUMENT_CATEGORIES : list str :=
  map lit
    [ "advertisement"; "budget"; "email"; "file_folder"; "form";
      "handwritten"; "invoice"; "letter"; "memo"; "news_article";
      "presentation"; "questionnaire"; "resume";
      "scientific_publication"; "scientific_report"; "specification"
    ]%string.

(** [ENTITY_PATTERNS] of src/processor/config.py: six kinds, a list
    of patterns each. *)
Definition ENTITY_PATTERNS : dict (list string) :=
  [ ("email",
      [ "\b[A-Za-z0-9._%+-]+@[A-Za-z0-9.-]+\.[A-Z|a-z]{2,}\b" ]);
    ("phone",
      [ "\b\d{3}[-.]?\d{3}[-.]?\d{4}\b";
        "\(\d{3}\)\s*\d{3}[-.]?\d{4}\b" ]);
    ("date",
      [ "\b\d{1,2}[/-]\d{1,2}[/-]\d{2,4}\b";
        "\b\d{4}[-/]\d{1,2}[-/]\d{1,2}\b";
        "\b(?:Jan|Feb|Mar|Apr|May|Jun|Jul|Aug|Sep|Oct|Nov|Dec)[a-z]*\s+\d{1,2},?\s+\d{4}\b" ]);
    ("amount",
      [ "\$\d{1,3}(?:,\d{3})*(?:\.\d{2})?";
        "\b\d{1,3}(?:,\d{3})*(?:\.\d{2})?\s*(?:USD|dollars?)\b" ]);
    ("invoice_number",
      [ "(?:Invoice|INV)[\s#-]*(\d+)";
        "(?:Bill|Receipt)[\s#-]*(\d+)" ]);
    ("ssn",
      [ "\b\d{3}-\d{2}-\d{4}\b" ]) ]%string.

End ProcessorConfig.

(* ===================================================================== *)
(** * Exceptions and effects *)
(* ===================================================================== *)

Module Eff.

Class Monad (m : Type -> Type) := {
  ret : forall {A}, A -> m A;
  bind : forall {A B}, m A -> (A -> m B) -> m B
}.

#[global] Instance result_monad : Monad result := {
  ret := fun A a => Ok a;
  bind := fun A B m k =>
    match m with
    | Ok a => k a
    | Raise e => Raise e
    end
}.

(** [try: body / except Exception: handler] on a pure computation. *)
Definition try_result {A} (body : result A) (handler : exn -> result A)
  : result A :=
  match body with
  | Ok a => Ok a
  | Raise e => handler e
  end.

(** A [for] loop threading an accumulator through a fallible body. *)
Fixpoint for_each {m} `{Monad m} {A B} (xs : list A) (acc : B)
    (body : B -> A -> m B) : m B :=
  match xs with
  | [] => ret acc
  | x :: xs' => bind (body acc x) (fun acc' => for_each xs' acc' body)
  end.

End Eff.

Import Eff.

Declare Scope monad_scope.
Notation "x <- m ;; k" := (bind m (fun x => k))
  (at level 61, m at next level, right associativity) : monad_scope.
Notation "m ;;; k" := (bind m (fun _ => k))
  (at level 61, right associativity) : monad_scope.
Open Scope monad_scope.

(* ===================================================================== *)
(** * Records exchanged with the collaborators *)
(* ===================================================================== *)

(** One aggregated span of the token-classification model:
    [entity['entity_group']], [entity['word']], [entity['score']]. *)
Record ner_entity := {
  entity_group : str;
  word : str;
  score : float
}.

(** The document record built by [process_single_document]. *)
Record doc := {
  doc_id : str;
  doc_filename : str;
  doc_file_path : str;
  doc_category : str;
  doc_text : str;
  doc_entities : dict (list pyval);
  doc_word_count : nat;
  doc_timestamp : str
}.

(** The per-document metadata handed to the collection. *)
Record metadata := {
  md_category : str;
  md_filename : str;
  md_word_count : nat;
  md_entities : str
}.

(** The arguments of one [collection.add] call. *)
Record add_request := {
  add_ids : list str;
  add_documents : list str;
  add_embeddings : list (list float);
  add_metadatas : list metadata
}.

(** One row of summary.csv. *)
Record csv_row := {
  row_filename : str;
  row_category : str;
  row_word_count : nat;
  row_entity_count : nat;
  row_timestamp : str
}.

(** The calls made on the collaborators that hold state. *)
Inductive event :=
| EvEncode (texts : list str)
| EvAdd (req : add_request)
| EvWriteJson (documents : list doc)
| EvWriteCsv (rows : list csv_row).

(** The external collaborators of one pipeline instance. *)
Record services := {
  (** the chromadb collection behind [self.collection] *)
  coll : Type;
  collection_add : coll -> add_request -> result coll;
  (** cv2 and pytesseract on one path: [None] when [cv2.imread] yields
      no image, otherwise the OCR text or the exception raised *)
  ocr_engine : str -> option (result str);
  (** [os.walk]: each directory with its file names *)
  os_walk : str -> list (str * list str);
  (** [self.ner_pipeline]: [None] when loading failed in [__init__] *)
  ner_pipeline : option (str -> result (list ner_entity));
  (** [re.findall(pattern, text, flags)], the flag being IGNORECASE *)
  re_findall : string -> bool -> str -> result (list pyval);
  (** [list(set(xs))]: some duplicate-free enumeration of the elements *)
  set_list : list pyval -> list pyval;
  set_list_NoDup : forall xs, NoDup (set_list xs);
  set_list_In : forall xs x, In x (set_list xs) <-> In x xs;
  (** [self.embedder.encode(texts).tolist()] *)
  embedder_encode : list str -> result (list (list float));
  json_dumps : dict (list pyval) -> str;
  (** [datetime.now().isoformat()] at the n-th reading of the clock *)
  datetime_now : nat -> str;
  (** writing results.json and summary.csv *)
  write_json : list doc -> result unit;
  write_csv : list csv_row -> result unit
}.

(* ===================================================================== *)
(** * src/utils.py: the standalone script's helpers *)
(* ===================================================================== *)

Module Utils.

(** [clean_text] of src/utils.py *)
Definition clean_text (text : str) : str :=
  match text with
  | [] => []
  | _ => strip (sub_spaces text)
  end.

Section WithServices.
Context (sv : services).

(** [extract_entities] of src/utils.py *)
Definition extract_entities (text : str) : result (dict (list pyval)) :=
  for_each Config.ENTITY_PATTERNS ([] : dict (list pyval))
    (fun entities '(entity_type, pattern) =>
       matches <- re_findall sv pattern true text ;;
       match matches with
       | [] => ret entities
       | _ => ret (dict_set entity_type (set_list sv matches) entities)
       end).

End WithServices.

End Utils.

(* ===================================================================== *)
(** * src/processor/utils.py *)
(* ===================================================================== *)

Module ProcessorUtils.

(** The characters kept by
    [re.sub(r'[^\w\s.,!?;:()\-$@]', '', text)]. *)
Definition kept (c : ascii) : bool :=
  isword c || isspace c || existsb (Ascii.eqb c) (lit ".,!?;:()-$@").

Definition sub_special (s : str) : str := filter kept s.

Definition newline : ascii := ascii_of_nat 10.

(** [clean_text] of src/processor/utils.py *)
Definition clean_text (text : str) : str :=
  match text with
  | [] => []
  | _ =>
      let text := sub_spaces text in
      let text := sub_special text in
      let lines := split_on newline text in
      let lines :=
        map strip (filter (fun line => 2 <? length (strip line)) lines) in
      strip (join (lit " ") lines)
  end.

(** The names bound at the top level of src/processor/utils.py: its
    imports and its five functions. *)
Definition module_names : list string :=
  [ "os"; "re"; "cv2"; "pytesseract"; "Image"; "np"; "List"; "Dict";
    "Any"; "extract_text_from_image"; "clean_text"; "extract_entities";
    "get_document_files"; "validate_file" ]%string.

(** [sorted] on strings: insertion by code points. *)
Fixpoint str_leb (a b : str) : bool :=
  match a, b with
  | [], _ => true
  | _ :: _, [] => false
  | x :: a', y :: b' =>
      (code x <? code y) || ((code x =? code y) && str_leb a' b')
  end.

Fixpoint insert_sorted (x : str) (xs : list str) : list str :=
  match xs with
  | [] => [x]
  | y :: ys => if str_leb x y then x :: xs else y :: insert_sorted x ys
  end.

Definition sorted (xs : list str) : list str :=
  fold_right insert_sorted [] xs.

(** [os.path.join(root, filename)] on POSIX. *)
Definition path_join (a b : str) : str :=
  if prefixb (lit "/") b then b
  else if match a with [] => true | _ => endswith a (lit "/") end
       then a ++ b
       else a ++ lit "/" ++ b.

Section WithServices.
Context (sv : services).

(** [extract_text_from_image]: any failure degrades to the empty
    string. *)
Definition extract_text_from_image (image_path : str) : str :=
  match ocr_engine sv image_path with
  | None => []
  | Some (Ok text) => strip text
  | Some (Raise _) => []
  end.

(** The inner loop of [extract_entities]: [matches] after every
    pattern of the list was run. *)
Definition find_matches (text : str) (pattern_list : list string)
  : result (list pyval) :=
  for_each pattern_list ([] : list pyval)
    (fun matches pattern =>
       found <- re_findall sv pattern true text ;;
       ret (matches ++ found)).

(** [extract_entities] of src/processor/utils.py *)
Definition extract_entities (text : str) (patterns : dict (list string))
  : result (dict (list pyval)) :=
  for_each patterns ([] : dict (list pyval))
    (fun entities '(entity_type, pattern_list) =>
       matches <- find_matches text pattern_list ;;
       match matches with
       | [] => ret entities
       | _ => ret (dict_set entity_type (fromkeys pyval_eqb matches)
                            entities)
       end).

(** [get_document_files] with its default extensions. *)
Definition get_document_files (data_path : str) : list str :=
  let extensions := [lit ".jpg"; lit ".jpeg"] in
  sorted
    (flat_map
       (fun '(root, filenames) =>
          map (path_join root)
            (filter
               (fun filename =>
                  existsb (endswith (lower filename)) extensions)
               filenames))
       (os_walk sv data_path)).

End WithServices.

End ProcessorUtils.


(* ===================================================================== *)
(** * src/processor/pipeline.py *)
(* ===================================================================== *)

Module Pipeline.

(** [os.sep] and [os.path.basename] on POSIX. *)
Definition os_sep : ascii := "/"%char.

Definition basename (p : str) : str := last (split_on os_sep p) [].

(** [any(word in text_lower for word in words)] *)
Definition any_in (text_lower : str) (words : list string) : bool :=
  existsb (fun word => contains text_lower (lit word)) words.

Definition _classify_document (file_path text : str) : str :=
  let path_parts := split_on os_sep file_path in
  match find (fun part => mem part ProcessorConfig.DOCUMENT_CATEGORIES)
             path_parts with
  | Some part => part
  | None =>
      let text_lower := lower text in
      if any_in text_lower ["invoice"; "bill"; "payment"; "amount"; "$"]%string
      then lit "invoice"
      else if any_in text_lower ["form"; "application"; "request"]%string
      then lit "form"
      else if any_in text_lower ["resume"; "cv"; "experience"; "education"]%string
      then lit "resume"
      else if any_in text_lower ["letter"; "dear"; "sincerely"]%string
      then lit "letter"
      else if any_in text_lower ["memo"; "memorandum"; "subject:"]%string
      then lit "memo"
      else lit "unknown"
  end.

(** The dict [_extract_entities_with_llm] starts from. *)
Definition empty_entities : dict (list pyval) :=
  [ ("persons", []); ("organizations", []); ("locations", []);
    ("dates", []); ("amounts", []); ("emails", []); ("phones", []);
    ("addresses", []) ]%string.

(** [entities[k].append(x)] and [entities[k].extend(xs)] *)
Definition extend_to (k : string) (xs : list pyval)
    (entities : dict (list pyval)) : result (dict (list pyval)) :=
  match dict_get k entities with
  | Some l => Ok (dict_set k (l ++ xs) entities)
  | None => Raise KeyError
  end.

Definition append_to (k : string) (x : pyval)
    (entities : dict (list pyval)) : result (dict (list pyval)) :=
  extend_to k [x] entities.

(** The body of [for entity in ner_results]. *)
Definition route (entities : dict (list pyval)) (entity : ner_entity)
  : result (dict (list pyval)) :=
  let entity_type := upper (entity_group entity) in
  let entity_text := strip (word entity) in
  let confidence := score entity in
  if PrimFloat.ltb 0.8%float confidence then
    if mem entity_type [lit "PER"; lit "PERSON"]
    then append_to "persons" (VStr entity_text) entities
    else if mem entity_type [lit "ORG"; lit "ORGANIZATION"]
    then append_to "organizations" (VStr entity_text) entities
    else if mem entity_type [lit "LOC"; lit "LOCATION"]
    then append_to "locations" (VStr entity_text) entities
    else if mem entity_type [lit "MISC"]
    then if any_in (lower entity_text) ["@"; "email"]%string
         then append_to "emails" (VStr entity_text) entities
         else if existsb isdigit entity_text
         then append_to "dates" (VStr entity_text) entities
         else Ok entities
    else Ok entities
  else Ok entities.

Definition email_pattern : string :=
  "\b[A-Za-z0-9._%+-]+@[A-Za-z0-9.-]+\.[A-Z|a-z]{2,}\b".
Definition phone_pattern : string :=
  "\b(?:\+?1[-.\s]?)?\(?([0-9]{3})\)?[-.\s]?([0-9]{3})[-.\s]?([0-9]{4})\b".
Definition money_pattern : string :=
  "\$\s*\d+(?:,\d{3})*(?:\.\d{2})?".

(** ['-'.join(phone)]: a tuple joins its groups, a string its
    characters. *)
Definition join_value (sep : str) (v : pyval) : str :=
  match v with
  | VTuple groups => join sep groups
  | VStr s => join sep (map (fun c => [c]) s)
  end.

(** [len(item.strip()) > 1]; a tuple has no [strip]. *)
Definition keep_item (item : pyval) : result bool :=
  match item with
  | VStr s => Ok (1 <? length (strip s))
  | VTuple _ => Raise AttributeError
  end.

(** [[item for item in items if len(item.strip()) > 1]] *)
Definition clean_items (items : list pyval) : result (list pyval) :=
  for_each items ([] : list pyval)
    (fun kept item =>
       b <- keep_item item ;;
       ret (if b : bool then kept ++ [item] else kept)).

(** [from module import name, ...] against the names a module binds. *)
Fixpoint import_from (module_names wanted : list string) : result unit :=
  match wanted with
  | [] => Ok tt
  | name :: rest =>
      if existsb (String.eqb name) module_names
      then import_from module_names rest
      else Raise ImportError
  end.

Section WithServices.
Context (sv : services).

(** The body of [for key in entities]. *)
Definition dedupe (entities : dict (list pyval)) (key : string)
  : result (dict (list pyval)) :=
  match dict_get key entities with
  | None => Raise KeyError
  | Some items =>
      kept <- clean_items (set_list sv items) ;;
      ret (dict_set key kept entities)
  end.

(** The [try] block of [_extract_entities_with_llm]. *)
Definition llm_body (ner : str -> result (list ner_entity))
    (text : str) (entities : dict (list pyval))
  : result (dict (list pyval)) :=
  ner_results <- ner (prefix 512 text) ;;
  entities <- for_each ner_results entities route ;;
  emails <- re_findall sv email_pattern false text ;;
  entities <- extend_to "emails" emails entities ;;
  phones <- re_findall sv phone_pattern false text ;;
  entities <- extend_to "phones"
                (map (fun phone => VStr (join_value (lit "-") phone)) phones)
                entities ;;
  amounts <- re_findall sv money_pattern false text ;;
  entities <- extend_to "amounts" amounts entities ;;
  for_each (keys entities) entities dedupe.

(** The [except Exception] handler: the import statement, then the
    call it was meant to enable. *)
Definition llm_fallback (text : str) : result (dict (list pyval)) :=
  import_from ProcessorUtils.module_names
              ["extract_entities"; "ENTITY_PATTERNS"]%string ;;;
  ProcessorUtils.extract_entities sv text ProcessorConfig.ENTITY_PATTERNS.

Definition _extract_entities_with_llm (text document_type : str)
  : result (dict (list pyval)) :=
  let entities := empty_entities in
  match ner_pipeline sv with
  | None => Ok entities
  | Some ner =>
      match strip text with
      | [] => Ok entities
      | _ => try_result (llm_body ner text entities)
                        (fun _ => llm_fallback text)
      end
  end.

(** ** The world the pipeline acts on *)

Record world := {
  collection : coll sv;
  trace : list event;
  clock : nat
}.

Definition io (A : Type) : Type := world -> result A * world.

#[global] Instance io_monad : Monad io := {
  ret := fun A a w => (Ok a, w);
  bind := fun A B m k w =>
    match m w with
    | (Ok a, w') => k a w'
    | (Raise e, w') => (Raise e, w')
    end
}.

Definition lift {A} (r : result A) : io A := fun w => (r, w).

Definition emit (e : event) : io unit := fun w =>
  (Ok tt, {| collection := collection w;
             trace := trace w ++ [e];
             clock := clock w |}).

Definition now : io str := fun w =>
  (Ok (datetime_now sv (clock w)),
   {| collection := collection w;
      trace := trace w;
      clock := S (clock w) |}).

Definition collection_add_io (req : add_request) : io unit := fun w =>
  match collection_add sv (collection w) req with
  | Ok c => (Ok tt, {| collection := c;
                       trace := trace w;
                       clock := clock w |})
  | Raise e => (Raise e, w)
  end.

(** [try: body / except Exception: handler] *)
Definition try_except {A} (body : io A) (handler : exn -> io A) : io A :=
  fun w =>
    match body w with
    | (Raise e, w') => handler e w'
    | r => r
    end.

Definition _store_documents (documents : list doc) : io unit :=
  match documents with
  | [] => ret tt
  | _ =>
      let ids := map doc_id documents in
      let texts := map doc_text documents in
      let metadatas :=
        map (fun d => {| md_category := doc_category d;
                         md_filename := doc_filename d;
                         md_word_count := doc_word_count d;
                         md_entities := json_dumps sv (doc_entities d) |})
            documents in
      emit (EvEncode texts) ;;;
      embeddings <- lift (embedder_encode sv texts) ;;
      let req := {| add_ids := ids;
                    add_documents := texts;
                    add_embeddings := embeddings;
                    add_metadatas := metadatas |} in
      emit (EvAdd req) ;;;
      collection_add_io req
  end.

Definition _save_results (documents : list doc) : io unit :=
  emit (EvWriteJson documents) ;;;
  lift (write_json sv documents) ;;;
  let summary_data :=
    map (fun d => {| row_filename := doc_filename d;
                     row_category := doc_category d;
                     row_word_count := doc_word_count d;
                     row_entity_count := length (doc_entities d);
                     row_timestamp := doc_timestamp d |})
        documents in
  emit (EvWriteCsv summary_data) ;;;
  lift (write_csv sv summary_data).

Definition process_single_document (file_path : str) : io (option doc) :=
  try_except
    (let text := ProcessorUtils.extract_text_from_image sv file_path in
     if match text with [] => true | _ => false end
        || (length (strip text) <? 10)
     then ret None
     else
       let cleaned_text := ProcessorUtils.clean_text text in
       let category := _classify_document file_path cleaned_text in
       entities <- lift (_extract_entities_with_llm cleaned_text category) ;;
       timestamp <- now ;;
       let doc_data :=
         {| doc_id := category ++ lit "_" ++ basename file_path;
            doc_filename := basename file_path;
            doc_file_path := file_path;
            doc_category := category;
            doc_text := cleaned_text;
            doc_entities := entities;
            doc_word_count := length (split_ws cleaned_text);
            doc_timestamp := timestamp |} in
       _store_documents [doc_data] ;;;
       ret (Some doc_data))
    (fun _ => ret None).

(** The body and the loop of [for file_path in files] in
    [process_documents]. *)
Definition collect_step (processed_docs : list doc) (file_path : str)
  : io (list doc) :=
  doc_data <- process_single_document file_path ;;
  match doc_data with
  | Some d => ret (processed_docs ++ [d])
  | None => ret processed_docs
  end.

Definition collect (files : list str) : io (list doc) :=
  for_each files ([] : list doc) collect_step.

Definition process_documents (data_path : str) (limit : Z)
  : io (list doc) :=
  let files :=
    slice_to (ProcessorUtils.get_document_files sv data_path) limit in
  processed_docs <- collect files ;;
  match processed_docs with
  | [] => ret []
  | _ =>
      _store_documents processed_docs ;;;
      _save_results processed_docs ;;;
      ret processed_docs
  end.

End WithServices.

End Pipeline.

Arguments Pipeline.collection {sv} _.
Arguments Pipeline.trace {sv} _.
Arguments Pipeline.clock {sv} _.

(* ===================================================================== *)
(** * src/processor/views.py *)
(* ===================================================================== *)

Module Views.

(** [_calculate_confidence] of [DocumentUploadView], on binary64
    floats as in Python. *)
Definition _calculate_confidence (doc_data : doc) : float :=
  let confidence := 0.5%float in
  let text_length := length (doc_text doc_data) in
  let confidence :=
    if 100 <? text_length then (confidence + 0.2)%float else confidence in
  let confidence :=
    if 500 <? text_length then (confidence + 0.1)%float else confidence in
  let entities := doc_entities doc_data in
  let total_entities :=
    list_sum
      (map (fun key => length (match dict_get key entities with
                               | Some l => l
                               | None => []
                               end))
           (keys entities)) in
  let confidence :=
    if 0 <? total_entities then (confidence + 0.1)%float else confidence in
  let confidence :=
    if 3 <? total_entities then (confidence + 0.1)%float else confidence in
  let confidence :=
    if negb (str_eqb (doc_category doc_data) (lit "unknown"))
    then (confidence + 0.1)%float else confidence in
  if PrimFloat.ltb 0.95%float confidence then 0.95%float else confidence.

End Views.


(* ===================================================================== *)
(** * Concrete collaborators for the scenarios *)
(* ===================================================================== *)

Module Scenario.

(** A collection that keeps the requests it accepted, or refuses all;
    [sets] enumerates a set. *)
Definition stub_with_sets (ocr : str -> option (result str))
    (walk : str -> list (str * list str))
    (ner : option (str -> result (list ner_entity)))
    (findall : string -> bool -> str -> result (list pyval))
    (add_ok : bool)
    (sets : list pyval -> list pyval)
    (sets_NoDup : forall xs, NoDup (sets xs))
    (sets_In : forall xs x, In x (sets xs) <-> In x xs) : services :=
  {| coll := list add_request;
     collection_add := fun c req =>
       if add_ok then Ok (c ++ [req]) else Raise RuntimeError;
     ocr_engine := ocr;
     os_walk := walk;
     ner_pipeline := ner;
     re_findall := findall;
     set_list := sets;
     set_list_NoDup := sets_NoDup;
     set_list_In := sets_In;
     embedder_encode := fun texts => Ok (map (fun _ => []) texts);
     json_dumps := fun _ => [];
     datetime_now := fun _ => lit "2024-01-01T00:00:00";
     write_json := fun _ => Ok tt;
     write_csv := fun _ => Ok tt |}.

(** Sets enumerated in first-seen order. *)
Definition stub ocr walk ner findall add_ok : services :=
  stub_with_sets ocr walk ner findall add_ok
    (nodup pyval_eq_dec)
    (NoDup_nodup pyval_eq_dec)
    (fun xs x => nodup_In pyval_eq_dec xs x).

Definition start (sv : services) (c : coll sv) : Pipeline.world sv :=
  {| Pipeline.collection := c; Pipeline.trace := []; Pipeline.clock := 0 |}.

(** One readable invoice image under data/invoice. *)
Definition invoice_text : str := lit "Invoice number 12345 total due".

Definition one_file : str -> list (str * list str) :=
  fun _ => [(lit "data/invoice", [lit "a.jpg"])].

(** The NER model times out on every call. *)
Definition ner_down : services :=
  stub (fun _ => Some (Ok invoice_text)) one_file
       (Some (fun _ => Raise TimeoutError)) (fun _ _ _ => Ok []) true.

(** No NER model; the collection refuses every request. *)
Definition store_down : services :=
  stub (fun _ => Some (Ok invoice_text)) one_file None
       (fun _ _ _ => Ok []) false.

(** No NER model; everything else works. *)
Definition all_up : services :=
  stub (fun _ => Some (Ok invoice_text)) one_file None
       (fun _ _ _ => Ok []) true.




(** A loaded NER model and a regex engine with fixed answers for the
    three patterns of the model-assisted extractor. *)
Definition contact_text : str :=
  lit "Contact me at jane@example.com or 555-123-4567, invoice #4521 for $1,250.00".

Definition sample_spans : list ner_entity :=
  [ {| entity_group := lit "PER"; word := lit " Jane Doe ";
       score := 0.99%float |};
    {| entity_group := lit "ORG"; word := lit "ACME"; score := 0.5%float |};
    {| entity_group := lit "LOC"; word := lit "X"; score := 0.97%float |};
    {| entity_group := lit "MISC"; word := lit "4521";
       score := 0.9%float |} ].

Definition sample_findall : string -> bool -> str -> result (list pyval) :=
  fun pattern _ _ =>
    if String.eqb pattern Pipeline.email_pattern
    then Ok [VStr (lit "jane@example.com"); VStr (lit "jane@example.com")]
    else if String.eqb pattern Pipeline.phone_pattern
    then Ok [VTuple [lit "555"; lit "123"; lit "4567"]]
    else if String.eqb pattern Pipeline.money_pattern
    then Ok [VStr (lit "$1,250.00")]
    else Ok [].

Definition model_up : services :=
  stub (fun _ => Some (Ok contact_text)) one_file
       (Some (fun _ => Ok sample_spans)) sample_findall true.


(** Two readable invoices under data/invoice, and an embedder that
    answers for one text at a time but raises on a longer list. *)
Definition two_files : str -> list (str * list str) :=
  fun _ => [(lit "data/invoice", [lit "a.jpg"; lit "b.jpg"])].

Definition batch_encoder_down : services :=
  {| coll := list add_request;
     collection_add := fun c req => Ok (c ++ [req]);
     ocr_engine := fun _ => Some (Ok invoice_text);
     os_walk := two_files;
     ner_pipeline := None;
     re_findall := fun _ _ _ => Ok [];
     set_list := nodup pyval_eq_dec;
     set_list_NoDup := NoDup_nodup pyval_eq_dec;
     set_list_In := fun xs x => nodup_In pyval_eq_dec xs x;
     embedder_encode := fun texts =>
       match texts with
       | [_] => Ok [[]]
       | _ => Raise RuntimeError
       end;
     json_dumps := fun _ => [];
     datetime_now := fun _ => lit "2024-01-01T00:00:00";
     write_json := fun _ => Ok tt;
     write_csv := fun _ => Ok tt |}.

End Scenario.


(* ===================================================================== *)
(** * The specification's vocabulary *)
(* ===================================================================== *)

Module Spec.

(** Deduplication that keeps each value at its first occurrence. *)
Fixpoint first_seen (xs : list pyval) : list pyval :=
  match xs with
  | [] => []
  | x :: xs' =>
      x :: filter (fun y => negb (pyval_eqb x y)) (first_seen xs')
  end.

(** Every whitespace character of [s] is the plain space and no two
    spaces are adjacent; [after_space] tells that a space precedes [s]. *)
Fixpoint single_spaced (after_space : bool) (s : str) : bool :=
  match s with
  | [] => true
  | c :: s' =>
      if isspace c
      then Ascii.eqb c " " && negb after_space && single_spaced true s'
      else single_spaced false s'
  end.

(** [s] does not begin with whitespace. *)
Definition starts_clean (s : str) : Prop :=
  match s with
  | [] => True
  | c :: _ => isspace c = false
  end.

(** The keyword sets of the classifier in their priority order. *)
Definition keyword_sets : list (string * list string) :=
  [ ("invoice", ["invoice"; "bill"; "payment"; "amount"; "$"]);
    ("form", ["form"; "application"; "request"]);
    ("resume", ["resume"; "cv"; "experience"; "education"]);
    ("letter", ["letter"; "dear"; "sincerely"]);
    ("memo", ["memo"; "memorandum"; "subject:"]) ]%string.

(** First keyword set with a keyword occurring in the lower-cased text. *)
Definition classify_by_keywords (text : str) : str :=
  match find (fun entry => Pipeline.any_in (lower text) (snd entry))
             keyword_sets with
  | Some entry => lit (fst entry)
  | None => lit "unknown"
  end.

(** The eight kinds of the model-assisted extractor. *)
Definition kinds : list string :=
  [ "persons"; "organizations"; "locations"; "dates"; "amounts";
    "emails"; "phones"; "addresses" ]%string.

(** The kind a model span is routed to, if any. *)
Definition kind_of (entity : ner_entity) : option string :=
  let tag := upper (entity_group entity) in
  let text := strip (word entity) in
  if mem tag [lit "PER"; lit "PERSON"] then Some "persons"%string
  else if mem tag [lit "ORG"; lit "ORGANIZATION"] then Some "organizations"%string
  else if mem tag [lit "LOC"; lit "LOCATION"] then Some "locations"%string
  else if mem tag [lit "MISC"] then
    if Pipeline.any_in (lower text) ["@"; "email"]%string then Some "emails"%string
    else if existsb isdigit text then Some "dates"%string
    else None
  else None.

(** The values the model contributes to one kind: the trimmed words of
    the spans routed there whose score is above 0.8. *)
Definition model_values (kind : string) (spans : list ner_entity)
  : list pyval :=
  flat_map
    (fun entity =>
       if PrimFloat.ltb 0.8%float (score entity) then
         match kind_of entity with
         | Some k => if String.eqb k kind
                     then [VStr (strip (word entity))] else []
         | None => []
         end
       else [])
    spans.

(** The values the three regex passes contribute to one kind. *)
Definition regex_values (kind : string) (emails phones amounts : list pyval)
  : list pyval :=
  if String.eqb kind "emails" then emails
  else if String.eqb kind "phones"
  then map (fun phone => VStr (Pipeline.join_value (lit "-") phone)) phones
  else if String.eqb kind "amounts" then amounts
  else [].

Definition is_str (v : pyval) : bool :=
  match v with VStr _ => true | VTuple _ => false end.

(** An entry survives the final clean-up when its trimmed length
    exceeds one character. *)
Definition long_enough (v : pyval) : bool :=
  match v with
  | VStr s => 1 <? length (strip s)
  | VTuple _ => false
  end.

Section WithServices.
Context (sv : services).

(** The OCR text of a file passes the gate of
    [process_single_document]. *)
Definition readable (file_path : str) : bool :=
  let text := ProcessorUtils.extract_text_from_image sv file_path in
  negb (match text with [] => true | _ => false end
        || (length (strip text) <? 10)).

(** The request [_store_documents] hands to [collection.add] once the
    texts are embedded. *)
Definition store_request (documents : list doc)
    (embeddings : list (list float)) : add_request :=
  {| add_ids := map doc_id documents;
     add_documents := map doc_text documents;
     add_embeddings := embeddings;
     add_metadatas :=
       map (fun d => {| md_category := doc_category d;
                        md_filename := doc_filename d;
                        md_word_count := doc_word_count d;
                        md_entities := json_dumps sv (doc_entities d) |})
           documents |}.

End WithServices.

(** The ids handed to [collection.add], call by call. *)
Definition add_calls (events : list event) : list (list str) :=
  flat_map (fun ev => match ev with
                      | EvAdd req => [add_ids req]
                      | _ => []
                      end) events.

(** The events of one [process_single_document] call: an encoding of
    one text and a request with one id. *)
Definition per_document_event (ev : event) : bool :=
  match ev with
  | EvEncode [_] => true
  | EvAdd req => length (add_ids req) =? 1
  | _ => false
  end.

Definition is_sink_event (ev : event) : bool :=
  match ev with
  | EvWriteJson _ | EvWriteCsv _ => true
  | _ => false
  end.

(** [needle] occurs in [hay] as a substring. *)
Definition occurs_in (needle hay : str) : Prop :=
  exists before after, hay = before ++ needle ++ after.

(** One of the words occurs in the lower-cased text. *)
Definition mentions (text : str) (words : list string) : Prop :=
  exists word, In word words /\ occurs_in (lit word) (lower text).

(** The number of extracted entities of a record: the lengths of its
    value lists added up. *)
Definition entity_total (entities : dict (list pyval)) : nat :=
  list_sum (map (fun entry => length (snd entry)) entities).

(** An increment that is added when its condition holds. *)
Definition increment (applies : bool) (amount : float) : float :=
  if applies then amount else 0%float.

(** [min(a, b)] on floats. *)
Definition float_min (a b : float) : float :=
  if PrimFloat.ltb b a then b else a.

(** The score in the words of the specification: 0.5, plus 0.2 for more
    than 100 characters of text and 0.1 more for more than 500, plus 0.1
    for at least one entity and 0.1 more for more than three, plus 0.1 for
    a category other than unknown, capped at 0.95. *)
Definition confidence_of (text_length total : nat) (known : bool) : float :=
  float_min
    (0.5 + increment (100 <? text_length)%nat 0.2
         + increment (500 <? text_length)%nat 0.1
         + increment (0 <? total)%nat 0.1
         + increment (3 <? total)%nat 0.1
         + increment known 0.1)%float
    0.95%float.

(** The requests handed to [collection.add], call by call. *)
Definition add_requests (events : list event) : list add_request :=
  flat_map (fun ev => match ev with
                      | EvAdd req => [req]
                      | _ => []
                      end) events.

Section Replay.
Context (sv : services).

(** The collection after the requests of a list were made on it in turn,
    a refused request leaving it as it was. *)
Fixpoint replay (c : coll sv) (reqs : list add_request) : coll sv :=
  match reqs with
  | [] => c
  | req :: rest =>
      match collection_add sv c req with
      | Ok c' => replay c' rest
      | Raise _ => replay c rest
      end
  end.

(** The requests of the list the collection accepted on the way. *)
Fixpoint accepted (c : coll sv) (reqs : list add_request)
  : list add_request :=
  match reqs with
  | [] => []
  | req :: rest =>
      match collection_add sv c req with
      | Ok c' => req :: accepted c' rest
      | Raise _ => accepted c rest
      end
  end.

End Replay.

End Spec.

(* ===================================================================== *)
(** * Further vocabulary *)
(* ===================================================================== *)

From Stdlib Require Import Sorted.

(* ===================================================================== *)
(** * src/processor/pipeline.py: [search] and [get_stats] *)
(* ===================================================================== *)

Module Queries.

(** What the body of a [try] can raise here: an exception of a
    collaborator, or the interpreter's own for a subscript out of range
    ([IndexError]) and for a subscript of [None] ([TypeError]). *)
Inductive raised :=
| Known (e : exn)
| IndexError
| TypeError.

Definition outcome (A : Type) : Type := (raised + A)%type.

#[global] Instance outcome_monad : Monad outcome := {
  ret := fun A a => inr a;
  bind := fun A B m k =>
    match m with
    | inr a => k a
    | inl e => inl e
    end
}.

Definition called {A} (r : result A) : outcome A :=
  match r with
  | Ok a => inr a
  | Raise e => inl (Known e)
  end.

(** [xs[i]] for a list and for a value that may be [None] *)
Definition subscript {A} (xs : list A) (i : nat) : outcome A :=
  match nth_error xs i with
  | Some x => inr x
  | None => inl IndexError
  end.

Definition subscript_opt {A} (xs : option (list A)) (i : nat) : outcome A :=
  match xs with
  | Some l => subscript l i
  | None => inl TypeError
  end.

(** A metadata value: the strings and integers this pipeline stores. *)
Inductive scalar :=
| SStr (s : str)
| SInt (n : Z).

Definition scalar_eq_dec (a b : scalar) : {a = b} + {a <> b}.
Proof.
  decide equality; [apply (list_eq_dec ascii_dec)|apply Z.eq_dec].
Defined.

Definition scalar_eqb (a b : scalar) : bool :=
  if scalar_eq_dec a b then true else false.

(** The dict [collection.query] returns: one inner list per query
    text; chromadb types all of them but [ids] as optional, and each
    metadata as optional. *)
Record query_result := {
  qr_ids : list (list str);
  qr_documents : option (list (list str));
  qr_distances : option (list (list float));
  qr_metadatas : option (list (list (option (dict scalar))))
}.

(** One entry of the list [search] returns. *)
Record hit := {
  hit_id : str;
  hit_text : str;
  hit_similarity : float;
  hit_metadata : option (dict scalar)
}.

(** A value of the dict [get_stats] returns. *)
Inductive stat :=
| Total (n : Z)
| Categories (h : list (scalar * nat))
| Error (e : raised).

(** The dict [categories]: [get(k, 0)] and [categories[k] = n]. *)
Fixpoint hist_get (k : scalar) (h : list (scalar * nat)) : nat :=
  match h with
  | [] => 0
  | (k', n) :: h' => if scalar_eqb k k' then n else hist_get k h'
  end.

Fixpoint hist_set (k : scalar) (n : nat) (h : list (scalar * nat))
  : list (scalar * nat) :=
  match h with
  | [] => [(k, n)]
  | (k', n') :: h' =>
      if scalar_eqb k k' then (k', n) :: h' else (k', n') :: hist_set k n h'
  end.

(** The reading side of the chromadb collection. *)
Record queries (sv : services) := {
  (** [collection.query(query_texts=..., n_results=...)] *)
  collection_query : coll sv -> list str -> Z -> result query_result;
  (** [collection.count()] *)
  collection_count : coll sv -> result Z
}.

Arguments collection_query {sv} _ _ _ _.
Arguments collection_count {sv} _ _.

Section WithCollection.

Context {sv : services} (q : queries sv).

(** [doc[:200] + "..." if len(doc) > 200 else doc] *)
Definition preview (doc : str) : str :=
  if 200 <? length doc then prefix 200 doc ++ lit "..." else doc.

(** The body of the loop over [enumerate(results['documents'][0])]. *)
Definition search_step (results : query_result) (search_results : list hit)
    (i_doc : nat * str) : outcome (list hit) :=
  let i := fst i_doc in
  let doc := snd i_doc in
  ids <- subscript (qr_ids results) 0 ;;
  id <- subscript ids i ;;
  distances <- subscript_opt (qr_distances results) 0 ;;
  distance <- subscript distances i ;;
  metadatas <- subscript_opt (qr_metadatas results) 0 ;;
  metadata <- subscript metadatas i ;;
  ret (search_results
       ++ [{| hit_id := id;
              hit_text := preview doc;
              hit_similarity := (1 - distance)%float;
              hit_metadata := metadata |}]).

(** [enumerate(xs)], counting from [start] *)
Definition enumerate_from {A} (start : nat) (xs : list A) : list (nat * A) :=
  combine (seq start (length xs)) xs.

(** The [try] block of [search]. *)
Definition search_body (c : coll sv) (query : str) (n_results : Z)
  : outcome (list hit) :=
  results <- called (collection_query q c [query] n_results) ;;
  match qr_documents results with
  | Some (first :: _) =>
      for_each (enumerate_from 0 first) ([] : list hit) (search_step results)
  | _ => ret []
  end.

Definition search (c : coll sv) (query : str) (n_results : Z) : list hit :=
  match search_body c query n_results with
  | inr search_results => search_results
  | inl _ => []
  end.

(** [metadata.get('category', 'unknown')]; [None] has no [get]. *)
Definition category_of (metadata : option (dict scalar)) : outcome scalar :=
  match metadata with
  | None => inl (Known AttributeError)
  | Some m =>
      ret (match dict_get "category" m with
           | Some v => v
           | None => SStr (lit "unknown")
           end)
  end.

(** The body of the loop over [sample_results['metadatas'][0]]. *)
Definition count_step (categories : list (scalar * nat))
    (metadata : option (dict scalar)) : outcome (list (scalar * nat)) :=
  category <- category_of metadata ;;
  ret (hist_set category (hist_get category categories + 1) categories).

(** The [try] block of [get_stats]. *)
Definition get_stats_body (c : coll sv) : outcome (dict stat) :=
  count <- called (collection_count q c) ;;
  if (0 <? count)%Z then
    sample_results <-
      called (collection_query q c [lit "sample"] (Z.min count 100)) ;;
    categories <-
      match qr_metadatas sample_results with
      | Some (first :: _) =>
          for_each first ([] : list (scalar * nat)) count_step
      | _ => ret []
      end ;;
    ret [("total_documents"%string, Total count);
         ("categories"%string, Categories categories)]
  else
    ret [("total_documents"%string, Total 0);
         ("categories"%string, Categories [])].

Definition get_stats (c : coll sv) : dict stat :=
  match get_stats_body c with
  | inr stats => stats
  | inl e =>
      [("total_documents"%string, Total 0);
       ("categories"%string, Categories []);
       ("error"%string, Error e)]
  end.

End WithCollection.

End Queries.


(* ===================================================================== *)
(** * src/processor/management/commands/process_documents.py *)
(* ===================================================================== *)

Module Command.

(** One entry of the list [_get_documents] returns. *)
Record doc_info := {
  info_path : str;
  info_name : str;
  info_category : str
}.

(** [processed_count] and [error_count] of [handle]. *)
Record counters := {
  processed_count : nat;
  error_count : nat
}.

(** The parameters a caller of [DocumentPipeline.search(self, query,
    n_results=5)] can name. *)
Definition search_parameters : list string := ["query"; "n_results"]%string.

(** The keywords of a call that name no parameter of the callee; Python
    raises [TypeError] when there is one, before the body runs. *)
Definition unexpected_keywords (parameters keywords : list string)
  : list string :=
  filter (fun k => negb (existsb (String.eqb k) parameters)) keywords.

(** The loop of [_document_exists] over the search results;
    [None] stands for the [AttributeError] of [None.get]. *)
Fixpoint filename_among (filename : str) (results : list Queries.hit)
  : option bool :=
  match results with
  | [] => Some false
  | result :: rest =>
      match Queries.hit_metadata result with
      | None => None
      | Some metadata =>
          match dict_get "filename" metadata with
          | Some (Queries.SStr s) =>
              if str_eqb s filename then Some true
              else filename_among filename rest
          | _ => filename_among filename rest
          end
      end
  end.

Section WithPipeline.

Context {sv : services} (q : Queries.queries sv).

(** [_document_exists]: the call [pipeline.search(filename, limit=1)]
    and the loop, inside [try / except Exception: return False]. *)
Definition _document_exists (c : coll sv) (file_path : str) : bool :=
  let filename := Pipeline.basename file_path in
  match unexpected_keywords search_parameters ["limit"%string] with
  | _ :: _ => false
  | [] =>
      let results := Queries.search q c filename 5 in
      match filename_among filename results with
      | Some found => found
      | None => false
      end
  end.

(** [skip_existing and self._document_exists(pipeline, path)], which
    reads the collection of the pipeline. *)
Definition to_skip (skip_existing : bool) (file_path : str)
  : Pipeline.io sv bool :=
  fun w =>
    (Ok (skip_existing
         && _document_exists (Pipeline.collection w) file_path), w).

(** The body of the loop of [handle] over the documents. *)
Definition handle_step (skip_existing : bool) (counts : counters)
    (info : doc_info) : Pipeline.io sv counters :=
  Pipeline.try_except sv
    (existing <- to_skip skip_existing (info_path info) ;;
     if existing : bool then ret counts
     else
       result <- Pipeline.process_single_document sv (info_path info) ;;
       match result with
       | Some _ =>
           ret {| processed_count := processed_count counts + 1;
                  error_count := error_count counts |}
       | None =>
           ret {| processed_count := processed_count counts;
                  error_count := error_count counts + 1 |}
       end)
    (fun _ =>
       ret {| processed_count := processed_count counts;
              error_count := error_count counts + 1 |}).

Definition handle_loop (skip_existing : bool) (documents : list doc_info)
  : Pipeline.io sv counters :=
  for_each documents {| processed_count := 0; error_count := 0 |}
           (handle_step skip_existing).

(** What [handle] prints of the statistics:
    [stats.get("total_documents", 0)] and
    [stats.get("document_types", {})]. *)
Definition shown_stats (c : coll sv) : Queries.stat * Queries.stat :=
  let stats := Queries.get_stats q c in
  (match dict_get "total_documents" stats with
   | Some v => v
   | None => Queries.Total 0
   end,
   match dict_get "document_types" stats with
   | Some v => v
   | None => Queries.Categories []
   end).

End WithPipeline.

End Command.

(* ===================================================================== *)
(** * src/processor/views.py: the checks of the endpoints *)
(* ===================================================================== *)

Module UploadView.

(** What [_validate_file] reads of an uploaded file. *)
Record uploaded_file := {
  name : str;
  size : Z
}.

Definition not_dot (c : ascii) : bool := negb (Ascii.eqb c "."%char).

(** The text before the last dot of [s] and the text from that dot on,
    when [s] has a dot. *)
Fixpoint split_last_dot (s : str) : option (str * str) :=
  match s with
  | [] => None
  | c :: s' =>
      match split_last_dot s' with
      | Some (stem, ext) => Some (c :: stem, ext)
      | None => if Ascii.eqb c "."%char then Some ([], s) else None
      end
  end.

(** [os.path.splitext(p)[1]] of posixpath: the extension starts at the
    last dot of the last path component, unless only dots precede it
    there. *)
Definition splitext_ext (p : str) : str :=
  match split_last_dot (Pipeline.basename p) with
  | Some (stem, ext) => if existsb not_dot stem then ext else []
  | None => []
  end.

Definition _validate_file (uploaded : uploaded_file) : bool :=
  if (10 * 1024 * 1024 <? size uploaded)%Z then false
  else
    let allowed_extensions := [lit ".jpg"; lit ".jpeg"] in
    let file_ext := lower (splitext_ext (name uploaded)) in
    if negb (mem file_ext allowed_extensions) then false
    else true.

End UploadView.

Module SearchView.

(** The responses of [DocumentSearchView.get]: the status code and
    what the body carries. *)
Inductive response :=
| Found (query : str) (results : list Queries.hit) (count : nat)
| Missing_query
| Search_failed.

Definition status (r : response) : nat :=
  match r with
  | Found _ _ _ => 200
  | Missing_query => 400
  | Search_failed => 500
  end.

Section WithPipeline.

Context {sv : services} (q : Queries.queries sv).

(** [int(s)] on a string: the integer, or [None] for [ValueError]. *)
Context (int_of_str : str -> option Z).

(** The [try] block of [get], on the query parameters [request.GET]. *)
Definition get_body (GET : dict str) (c : coll sv) : result response :=
  let query := match dict_get "q" GET with
               | Some v => v
               | None => []
               end in
  limit <- match dict_get "limit" GET with
           | None => Ok 5%Z
           | Some v =>
               match int_of_str v with
               | Some n => Ok n
               | None => Raise ValueError
               end
           end ;;
  match query with
  | [] => ret Missing_query
  | _ =>
      let results := Queries.search q c query limit in
      ret (Found query results (length results))
  end.

Definition get (GET : dict str) (c : coll sv) : response :=
  match get_body GET c with
  | Ok r => r
  | Raise _ => Search_failed
  end.

End WithPipeline.

End SearchView.

(* ===================================================================== *)
(** * src/utils.py: the files of the standalone script *)
(* ===================================================================== *)

Module Standalone.

(** A [Path] as the loops use it: the path and its [name]. *)
Record path_obj := {
  path_str : str;
  path_name : str
}.

(** One entry of [Path(data_dir).iterdir()]: its name, whether it is a
    directory, and what [glob] finds in it for the two patterns. *)
Record dir_entry := {
  entry_name : str;
  entry_is_dir : bool;
  glob_jpg : list path_obj;
  glob_png : list path_obj
}.

(** One element of the list [get_document_files] returns. *)
Record file_info := {
  path : path_obj;
  category : str;
  filename : str
}.

(** [limit and len(files) >= limit] *)
Definition reached (limit : option Z) (files : list file_info) : bool :=
  match limit with
  | None => false
  | Some n => negb (n =? 0)%Z && (n <=? Z.of_nat (length files))%Z
  end.

(** The inner loop over [image_files]; [inl] is the list the function
    returned with from inside the loop. *)
Fixpoint add_files (limit : option Z) (category : str)
    (image_files : list path_obj) (files : list file_info)
  : list file_info + list file_info :=
  match image_files with
  | [] => inr files
  | file_path :: rest =>
      let files :=
        files ++ [{| path := file_path;
                     category := category;
                     filename := path_name file_path |}] in
      if reached limit files then inl files
      else add_files limit category rest files
  end.

(** The outer loop over the entries of the data directory. *)
Fixpoint scan (limit : option Z) (entries : list dir_entry)
    (files : list file_info) : list file_info :=
  match entries with
  | [] => files
  | category_dir :: rest =>
      if negb (entry_is_dir category_dir) then scan limit rest files
      else
        let category := entry_name category_dir in
        let image_files := glob_jpg category_dir ++ glob_png category_dir in
        match add_files limit category image_files files with
        | inl returned => returned
        | inr files => scan limit rest files
        end
  end.

Section WithFiles.

(** [Path(data_dir).iterdir()] *)
Context (iterdir : str -> list dir_entry).

Definition get_document_files (data_dir : str) (limit : option Z)
  : list file_info :=
  scan limit (iterdir data_dir) [].

End WithFiles.

End Standalone.

Module Shape.

(** [s] does not end with whitespace. *)
Definition ends_clean (s : str) : Prop := Spec.starts_clean (rev s).

(** The labels a record can carry: the known categories and
    ['unknown']. *)
Definition labels : list str :=
  ProcessorConfig.DOCUMENT_CATEGORIES ++ [lit "unknown"].

(** The extensions [get_document_files] looks for. *)
Definition jpeg_extensions : list str := [lit ".jpg"; lit ".jpeg"].

Definition str_le (a b : str) : Prop := ProcessorUtils.str_leb a b = true.

(** [xs[0]] of a value of a query result, when there is one. *)
Definition first_list {A} (xs : option (list (list A))) : option (list A) :=
  match xs with
  | Some (l :: _) => Some l
  | _ => None
  end.

Section WithServices.
Context (sv : services).

(** The record [process_single_document] builds for a path, given the
    entities and the time stamp it obtained. *)
Definition record_of (file_path : str) (entities : dict (list pyval))
    (timestamp : str) : doc :=
  let cleaned_text :=
    ProcessorUtils.clean_text
      (ProcessorUtils.extract_text_from_image sv file_path) in
  let category := Pipeline._classify_document file_path cleaned_text in
  {| doc_id := category ++ lit "_" ++ Pipeline.basename file_path;
     doc_filename := Pipeline.basename file_path;
     doc_file_path := file_path;
     doc_category := category;
     doc_text := cleaned_text;
     doc_entities := entities;
     doc_word_count := length (split_ws cleaned_text);
     doc_timestamp := timestamp |}.

(** The world after the clock was read and the given events happened. *)
Definition after (w : Pipeline.world sv) (c : coll sv) (events : list event)
  : Pipeline.world sv :=
  {| Pipeline.collection := c;
     Pipeline.trace := Pipeline.trace w ++ events;
     Pipeline.clock := S (Pipeline.clock w) |}.

End WithServices.

(** The same readable invoice under the same path, seen by two
    pipelines that differ in everything but the OCR engine. *)
Definition busy_elsewhere : services :=
  Scenario.stub_with_sets (fun _ => Some (Ok Scenario.invoice_text))
    Scenario.one_file (Some (fun _ => Ok Scenario.sample_spans))
    Scenario.sample_findall true
    (fun xs => rev (nodup pyval_eq_dec xs))
    (fun xs => NoDup_rev (NoDup_nodup pyval_eq_dec xs))
    (fun xs x =>
       iff_trans (iff_sym (in_rev (nodup pyval_eq_dec xs) x))
                 (nodup_In pyval_eq_dec xs x)).

(** The query string carries a [limit] that [int] refuses. *)
Definition unreadable_limit (int_of_str : str -> option Z) (GET : dict str)
  : Prop :=
  exists v, dict_get "limit" GET = Some v /\ int_of_str v = None.

(** The image files under the directories of a listing, in the order
    the standalone [get_document_files] meets them. *)
Definition images_of (entries : list Standalone.dir_entry)
  : list Standalone.file_info :=
  flat_map
    (fun e =>
       if Standalone.entry_is_dir e
       then map (fun p => {| Standalone.path := p;
                             Standalone.category := Standalone.entry_name e;
                             Standalone.filename := Standalone.path_name p |})
                (Standalone.glob_jpg e ++ Standalone.glob_png e)
       else [])
    entries.

(** A collection of two stored invoices that answers every query with
    both of them, and one that refuses to return more than 100 results. *)
Definition two_hits : Queries.query_result :=
  {| Queries.qr_ids := [[lit "invoice_a.jpg"; lit "invoice_b.jpg"]];
     Queries.qr_documents :=
       Some [[lit "Invoice number 12345 total due"; repeat "x"%char 250]];
     Queries.qr_distances := Some [[0.25%float; 0.5%float]];
     Queries.qr_metadatas :=
       Some [[Some [("category"%string, Queries.SStr (lit "invoice"));
                    ("filename"%string, Queries.SStr (lit "a.jpg"))];
              Some [("filename"%string, Queries.SStr (lit "b.jpg"))]]] |}.

Definition generous : Queries.queries Scenario.all_up :=
  {| Queries.collection_query := fun _ _ _ => Ok two_hits;
     Queries.collection_count := fun _ => Ok 2%Z |}.

Definition capped : Queries.queries Scenario.all_up :=
  {| Queries.collection_query := fun _ _ n =>
       if (n <=? 100)%Z then Ok two_hits else Raise ValueError;
     Queries.collection_count := fun _ => Ok 2%Z |}.

End Shape.

Import Queries.
Import Shape.

Import Spec.

(* ===================================================================== *)
(** * Whitespace: [strip] and the collapsing substitution *)
(* ===================================================================== *)

Lemma dropwhile_split {A} (p : A -> bool) (l : list A) :
  exists ws, l = ws ++ dropwhile p l /\ forallb p ws = true.
Proof.
  induction l as [|x l IH]; simpl.
  - exists []. auto.
  - destruct (p x) eqn:Hx.
    + destruct IH as [ws [E F]]. exists (x :: ws). simpl.
      rewrite Hx, F. split; [congruence | reflexivity].
    + exists []. auto.
Qed.

Lemma dropwhile_idem {A} (p : A -> bool) (l : list A) :
  dropwhile p (dropwhile p l) = dropwhile p l.
Proof.
  induction l as [|x l IH]; simpl; auto.
  destruct (p x) eqn:Hx; auto. simpl. now rewrite Hx.
Qed.

Lemma lstrip_starts_clean s : starts_clean (lstrip s).
Proof.
  unfold lstrip. induction s as [|c s IH]; simpl; auto.
  destruct (isspace c) eqn:Hc; simpl; auto.
Qed.

Lemma lstrip_fixed s : starts_clean s -> lstrip s = s.
Proof.
  unfold lstrip. destruct s as [|c s]; simpl; auto.
  intros ->. reflexivity.
Qed.

Lemma rstrip_prefix s : exists ws, s = rstrip s ++ ws.
Proof.
  unfold rstrip.
  destruct (dropwhile_split isspace (rev s)) as [ws [E _]].
  exists (rev ws).
  rewrite <- rev_app_distr, <- E. symmetry. apply rev_involutive.
Qed.

Lemma rstrip_idem s : rstrip (rstrip s) = rstrip s.
Proof.
  unfold rstrip. now rewrite rev_involutive, dropwhile_idem.
Qed.

Lemma rstrip_starts_clean s : starts_clean s -> starts_clean (rstrip s).
Proof.
  intros H. destruct (rstrip_prefix s) as [ws E].
  destruct (rstrip s) as [|c r]; simpl; auto.
  rewrite E in H. exact H.
Qed.

Lemma strip_idem s : strip (strip s) = strip s.
Proof.
  unfold strip.
  rewrite (lstrip_fixed (rstrip (lstrip s))).
  - apply rstrip_idem.
  - apply rstrip_starts_clean, lstrip_starts_clean.
Qed.

Lemma strip_incl s c : In c (strip s) -> In c s.
Proof.
  unfold strip. intros H.
  destruct (rstrip_prefix (lstrip s)) as [ws E].
  assert (In c (lstrip s)) as H1 by (rewrite E; apply in_or_app; auto).
  unfold lstrip in H1.
  destruct (dropwhile_split isspace s) as [ws' [E' _]].
  rewrite E'. apply in_or_app; auto.
Qed.

Lemma single_spaced_relax b s :
  single_spaced b s = true -> single_spaced false s = true.
Proof.
  destruct s as [|c s]; simpl; auto.
  destruct (isspace c); auto.
  destruct b; simpl; auto.
  rewrite andb_false_r. discriminate.
Qed.

Lemma single_spaced_app_l s1 s2 b :
  single_spaced b (s1 ++ s2) = true -> single_spaced b s1 = true.
Proof.
  revert b. induction s1 as [|c s1 IH]; simpl; intros b H; auto.
  destruct (isspace c).
  - apply andb_true_iff in H as [H1 H2]. rewrite H1. simpl. eauto.
  - eauto.
Qed.

Lemma single_spaced_lstrip b s :
  single_spaced b s = true -> single_spaced false (lstrip s) = true.
Proof.
  unfold lstrip. revert b.
  induction s as [|c s IH]; simpl; intros b H; auto.
  destruct (isspace c) eqn:Hc.
  - apply andb_true_iff in H as [_ H]. eauto.
  - simpl. now rewrite Hc.
Qed.

Lemma single_spaced_strip b s :
  single_spaced b s = true -> single_spaced false (strip s) = true.
Proof.
  intros H. apply single_spaced_lstrip in H. unfold strip.
  destruct (rstrip_prefix (lstrip s)) as [ws E].
  rewrite E in H. eapply single_spaced_app_l; eauto.
Qed.

Lemma sub_spaces_single_spaced s b :
  single_spaced b (sub_spaces_from b s) = true.
Proof.
  revert b. induction s as [|c s IH]; simpl; intros b; auto.
  destruct (isspace c) eqn:Hc.
  - destruct b; [apply IH|]. simpl. apply IH.
  - simpl. rewrite Hc. apply IH.
Qed.

Lemma sub_spaces_fixed s b :
  single_spaced b s = true -> sub_spaces_from b s = s.
Proof.
  revert b. induction s as [|c s IH]; simpl; intros b H; auto.
  destruct (isspace c) eqn:Hc.
  - apply andb_true_iff in H as [H1 H2].
    apply andb_true_iff in H1 as [H0 H1].
    apply Ascii.eqb_eq in H0. subst c.
    destruct b; [discriminate|]. f_equal. auto.
  - f_equal. auto.
Qed.

Lemma single_spaced_space b s c :
  single_spaced b s = true -> In c s -> isspace c = true -> c = " "%char.
Proof.
  revert b. induction s as [|x s IH]; simpl; intros b H Hin Hc; [tauto|].
  destruct Hin as [->|Hin].
  - rewrite Hc in H. apply andb_true_iff in H as [H _].
    apply andb_true_iff in H as [H _]. now apply Ascii.eqb_eq.
  - destruct (isspace x).
    + apply andb_true_iff in H as [_ H]. eauto.
    + eauto.
Qed.

Lemma split_on_absent sep s :
  (forall c, In c s -> Ascii.eqb c sep = false) -> split_on sep s = [s].
Proof.
  induction s as [|c s IH]; simpl; intros H; auto.
  rewrite (H c) by auto. rewrite IH; auto.
Qed.

(* ===================================================================== *)
(** * [clean_text] *)
(* ===================================================================== *)

Lemma sub_spaces_no_newline t c :
  In c (ProcessorUtils.sub_special (sub_spaces t)) ->
  Ascii.eqb c ProcessorUtils.newline = false.
Proof.
  unfold ProcessorUtils.sub_special. intros H.
  apply filter_In in H as [H _].
  destruct (Ascii.eqb c ProcessorUtils.newline) eqn:E; auto.
  apply Ascii.eqb_eq in E. subst c.
  pose proof (single_spaced_space false (sub_spaces t) ProcessorUtils.newline
                (sub_spaces_single_spaced t false) H eq_refl) as F.
  discriminate F.
Qed.

(** The Django [clean_text] in closed form: after the two substitutions
    there is a single line left. *)
Lemma clean_text_closed_form t :
  ProcessorUtils.clean_text t =
  let v := strip (ProcessorUtils.sub_special (sub_spaces t)) in
  if 2 <? length v then v else [].
Proof.
  destruct t as [|c t]; [reflexivity|].
  unfold ProcessorUtils.clean_text.
  rewrite split_on_absent by apply sub_spaces_no_newline.
  cbv zeta. simpl filter.
  destruct (2 <? length (strip _)); simpl; auto.
  now rewrite !strip_idem.
Qed.

Lemma sub_special_fixed s :
  forallb ProcessorUtils.kept s = true -> ProcessorUtils.sub_special s = s.
Proof.
  unfold ProcessorUtils.sub_special.
  induction s as [|c s IH]; simpl; auto.
  intros H. apply andb_true_iff in H as [H1 H2].
  rewrite H1. f_equal. auto.
Qed.

Lemma kept_sub_spaces s b :
  forallb ProcessorUtils.kept s = true ->
  forallb ProcessorUtils.kept (sub_spaces_from b s) = true.
Proof.
  revert b. induction s as [|c s IH]; simpl; intros b H; auto.
  apply andb_true_iff in H as [H1 H2].
  destruct (isspace c); [destruct b|].
  - auto.
  - change (forallb ProcessorUtils.kept (" "%char :: sub_spaces_from true s))
      with (true && forallb ProcessorUtils.kept (sub_spaces_from true s)).
    simpl. auto.
  - change (forallb ProcessorUtils.kept (c :: sub_spaces_from false s))
      with (ProcessorUtils.kept c
            && forallb ProcessorUtils.kept (sub_spaces_from false s)).
    rewrite H1. simpl. auto.
Qed.

Lemma kept_strip s :
  forallb ProcessorUtils.kept s = true ->
  forallb ProcessorUtils.kept (strip s) = true.
Proof.
  rewrite !forallb_forall. intros H c Hc. apply H, strip_incl, Hc.
Qed.

Lemma kept_clean_text t :
  forallb ProcessorUtils.kept (ProcessorUtils.clean_text t) = true.
Proof.
  rewrite clean_text_closed_form. cbv zeta.
  destruct (2 <? length _); [|reflexivity].
  apply kept_strip. apply forallb_forall. intros c Hc.
  unfold ProcessorUtils.sub_special in Hc. now apply filter_In in Hc.
Qed.

Lemma clean_text_idempotent_on_kept t :
  forallb ProcessorUtils.kept t = true ->
  ProcessorUtils.clean_text (ProcessorUtils.clean_text t)
  = ProcessorUtils.clean_text t.
Proof.
  intros K.
  rewrite (clean_text_closed_form t). cbv zeta.
  rewrite (sub_special_fixed (sub_spaces t)) by now apply kept_sub_spaces.
  destruct (2 <? length (strip (sub_spaces t))) eqn:L; [|reflexivity].
  rewrite clean_text_closed_form. cbv zeta.
  assert (single_spaced false (strip (sub_spaces t)) = true) as T
      by (apply (single_spaced_strip false), sub_spaces_single_spaced).
  rewrite (sub_spaces_fixed _ false T : sub_spaces _ = _).
  rewrite sub_special_fixed
    by (apply kept_strip; now apply kept_sub_spaces).
  rewrite strip_idem, L. reflexivity.
Qed.

Lemma utils_clean_text_closed_form t :
  Utils.clean_text t = strip (sub_spaces t).
Proof. destruct t; reflexivity. Qed.

Lemma utils_clean_text_idempotent t :
  Utils.clean_text (Utils.clean_text t) = Utils.clean_text t.
Proof.
  rewrite !utils_clean_text_closed_form.
  rewrite (sub_spaces_fixed (strip (sub_spaces t)) false
             (single_spaced_strip false _ (sub_spaces_single_spaced t false))
           : sub_spaces _ = _).
  apply strip_idem.
Qed.

(** C4, as stated, fails on the Django [clean_text]: deleting the [#]
    of ["a # b"] leaves two adjacent spaces, which only a second pass
    collapses. *)
Lemma clean_text_not_idempotent :
  ProcessorUtils.clean_text (ProcessorUtils.clean_text (lit "a # b"))
  <> ProcessorUtils.clean_text (lit "a # b").
Proof. vm_compute. discriminate. Qed.

(** C4 (amended): on every string [t] the standalone [clean_text] is
    idempotent; the Django [clean_text] is idempotent on every [t] made
    of characters of its allow-list only, and on every [t] the result of
    two passes is a fixed point of a third; both are total and send the
    empty string to itself. *)
Theorem clean_text_idempotence :
  forall t : str,
    Utils.clean_text (Utils.clean_text t) = Utils.clean_text t
    /\ (forallb ProcessorUtils.kept t = true ->
        ProcessorUtils.clean_text (ProcessorUtils.clean_text t)
        = ProcessorUtils.clean_text t)
    /\ ProcessorUtils.clean_text
         (ProcessorUtils.clean_text (ProcessorUtils.clean_text t))
       = ProcessorUtils.clean_text (ProcessorUtils.clean_text t)
    /\ Utils.clean_text [] = []
    /\ ProcessorUtils.clean_text [] = [].
Proof.
  intros t. repeat split.
  - apply utils_clean_text_idempotent.
  - apply clean_text_idempotent_on_kept.
  - apply clean_text_idempotent_on_kept, kept_clean_text.
Qed.

Lemma clean_text_idempotence_witness :
  forallb ProcessorUtils.kept (lit "Total:  $12.50 (paid)") = true
  /\ ProcessorUtils.clean_text
       (ProcessorUtils.clean_text (lit "Total:  $12.50 (paid)"))
     = ProcessorUtils.clean_text (lit "Total:  $12.50 (paid)").
Proof.
  split; [reflexivity|].
  apply (proj1 (proj2 (clean_text_idempotence (lit "Total:  $12.50 (paid)")))).
  reflexivity.
Defined.

(* ===================================================================== *)
(** * The confidence score of the upload endpoint *)
(* ===================================================================== *)

Lemma dict_get_entry {V} (d : dict V) k (v : V) :
  NoDup (keys d) -> In (k, v) d -> dict_get k d = Some v.
Proof.
  unfold keys. induction d as [|[k0 v0] d IH]; simpl; [tauto|].
  intros N I. inversion N as [|? ? N0 N1]; subst.
  destruct I as [[= -> ->]|I].
  - now rewrite String.eqb_refl.
  - destruct (String.eqb k k0) eqn:E; [|auto].
    apply String.eqb_eq in E. subst k0. exfalso. apply N0.
    apply in_map_iff. exists (k, v). auto.
Qed.

(** On a dict, whose keys are distinct, the sum the code takes over the
    keys is the sum of the lengths of the value lists. *)
Lemma entity_total_of_keys (entities : dict (list pyval)) :
  NoDup (keys entities) ->
  list_sum
    (map (fun key => length (match dict_get key entities with
                             | Some l => l
                             | None => []
                             end))
         (keys entities))
  = entity_total entities.
Proof.
  intros N. unfold keys, entity_total. rewrite map_map. f_equal.
  apply map_ext_in. intros [k v] Hin. cbn [fst snd].
  now rewrite (dict_get_entry entities k v N Hin).
Qed.

Lemma calculate_confidence_formula (doc_data : doc) :
  NoDup (keys (doc_entities doc_data)) ->
  Views._calculate_confidence doc_data
  = confidence_of (length (doc_text doc_data))
      (entity_total (doc_entities doc_data))
      (negb (str_eqb (doc_category doc_data) (lit "unknown"))).
Proof.
  intros N. unfold Views._calculate_confidence. cbv zeta.
  rewrite (entity_total_of_keys _ N).
  unfold confidence_of, increment, float_min.
  destruct (100 <? length (doc_text doc_data));
    destruct (500 <? length (doc_text doc_data));
    destruct (0 <? entity_total (doc_entities doc_data));
    destruct (3 <? entity_total (doc_entities doc_data));
    destruct (negb _);
    vm_compute; reflexivity.
Qed.

(** The score is the base exactly when no increment applies. *)
Lemma confidence_of_base text_length total known :
  confidence_of text_length total known = 0.5%float
  <-> text_length <= 100 /\ total = 0 /\ known = false.
Proof.
  split.
  - intros H.
    apply (f_equal (fun x => PrimFloat.eqb x 0.5%float)) in H.
    unfold confidence_of, increment, float_min in H.
    destruct (100 <? text_length) eqn:A;
      destruct (500 <? text_length) eqn:B;
      destruct (0 <? total) eqn:C;
      destruct (3 <? total) eqn:D;
      destruct known;
      vm_compute in H; try discriminate H.
    apply Nat.ltb_ge in A, C. repeat split; lia.
  - intros [A [-> ->]].
    unfold confidence_of, increment, float_min.
    assert ((100 <? text_length) = false) as -> by (apply Nat.ltb_ge; lia).
    assert ((500 <? text_length) = false) as -> by (apply Nat.ltb_ge; lia).
    vm_compute. reflexivity.
Qed.

(** C9: for every document record the score of [_calculate_confidence]
    lies in the closed interval from 0.5 to 0.95 (both bounds compared as
    binary64 floats, as Python does).  It is 0.5, plus 0.2 for a text of
    more than 100 characters and 0.1 more for one of more than 500, plus
    0.1 for at least one extracted entity and 0.1 more for more than
    three, plus 0.1 for a category other than unknown, the sum being
    capped at 0.95; so it is 0.5 exactly for a record with at most 100
    characters of text, no entity and the category unknown. *)
Theorem calculate_confidence_bounds :
  forall doc_data : doc,
    PrimFloat.leb 0.5%float (Views._calculate_confidence doc_data) = true
    /\ PrimFloat.leb (Views._calculate_confidence doc_data) 0.95%float = true
    /\ (NoDup (keys (doc_entities doc_data)) ->
        Views._calculate_confidence doc_data
        = confidence_of (length (doc_text doc_data))
            (entity_total (doc_entities doc_data))
            (negb (str_eqb (doc_category doc_data) (lit "unknown")))
        /\ (Views._calculate_confidence doc_data = 0.5%float
            <-> length (doc_text doc_data) <= 100
                /\ entity_total (doc_entities doc_data) = 0
                /\ doc_category doc_data = lit "unknown")).
Proof.
  intros d.
  assert (PrimFloat.leb 0.5%float (Views._calculate_confidence d) = true
          /\ PrimFloat.leb (Views._calculate_confidence d) 0.95%float = true)
    as [Lo Hi].
  { unfold Views._calculate_confidence. cbv zeta.
    destruct (100 <? length (doc_text d));
      destruct (500 <? length (doc_text d));
      destruct (0 <? list_sum _);
      destruct (3 <? list_sum _);
      destruct (negb _);
      split; vm_compute; reflexivity. }
  split; [exact Lo|]. split; [exact Hi|].
  intros N. rewrite (calculate_confidence_formula d N).
  split; [reflexivity|].
  rewrite confidence_of_base.
  assert (negb (str_eqb (doc_category d) (lit "unknown")) = false
          <-> doc_category d = lit "unknown") as K.
  { unfold str_eqb.
    destruct (list_eq_dec ascii_dec (doc_category d) (lit "unknown"));
      cbn [negb]; split; congruence. }
  rewrite K. reflexivity.
Qed.

Lemma calculate_confidence_bounds_witness :
  Views._calculate_confidence
    {| doc_id := lit "invoice_a.jpg"; doc_filename := lit "a.jpg";
       doc_file_path := lit "data/invoice/a.jpg";
       doc_category := lit "invoice";
       doc_text := repeat "x"%char 120;
       doc_entities :=
         [("emails"%string,
           [VStr (lit "amy@example.com"); VStr (lit "zoe@example.com")]);
          ("phones"%string, [])];
       doc_word_count := 1; doc_timestamp := [] |}
  = confidence_of 120 2 true.
Proof.
  apply (proj1 (proj2 (proj2 (calculate_confidence_bounds
    {| doc_id := lit "invoice_a.jpg"; doc_filename := lit "a.jpg";
       doc_file_path := lit "data/invoice/a.jpg";
       doc_category := lit "invoice";
       doc_text := repeat "x"%char 120;
       doc_entities :=
         [("emails"%string,
           [VStr (lit "amy@example.com"); VStr (lit "zoe@example.com")]);
          ("phones"%string, [])];
       doc_word_count := 1; doc_timestamp := [] |}))
    ltac:(repeat constructor; simpl; intuition discriminate))).
Defined.

(** Both ends of the interval are reached. *)
Example calculate_confidence_lowest :
  Views._calculate_confidence
    {| doc_id := lit "unknown_a.jpg"; doc_filename := lit "a.jpg";
       doc_file_path := lit "a.jpg"; doc_category := lit "unknown";
       doc_text := lit "0123456789"; doc_entities := Pipeline.empty_entities;
       doc_word_count := 1; doc_timestamp := [] |} = 0.5%float.
Proof. vm_compute. reflexivity. Qed.

Example calculate_confidence_capped :
  Views._calculate_confidence
    {| doc_id := lit "invoice_a.jpg"; doc_filename := lit "a.jpg";
       doc_file_path := lit "a.jpg"; doc_category := lit "invoice";
       doc_text := repeat "x"%char 501;
       doc_entities := [("emails"%string, repeat (VStr (lit "a@b.co")) 4)];
       doc_word_count := 1; doc_timestamp := [] |} = 0.95%float.
Proof. vm_compute. reflexivity. Qed.

(* ===================================================================== *)
(** * The fallback of the model-assisted extractor *)
(* ===================================================================== *)

(** [ENTITY_PATTERNS] is not a name of src/processor/utils.py, so the
    import statement of the handler raises before the regex extractor is
    called. *)
Lemma llm_fallback_raises sv text :
  Pipeline.llm_fallback sv text = Raise ImportError.
Proof. reflexivity. Qed.

Lemma extract_entities_with_llm_model_failure sv ner text document_type e :
  ner_pipeline sv = Some ner ->
  strip text <> [] ->
  ner (prefix 512 text) = Raise e ->
  Pipeline._extract_entities_with_llm sv text document_type
  = Raise ImportError.
Proof.
  intros Hner Hs He. unfold Pipeline._extract_entities_with_llm.
  rewrite Hner. destruct (strip text) eqn:E; [congruence|].
  unfold Pipeline.llm_body. rewrite He. reflexivity.
Qed.

(** C1 (the code departs from it): with a NER model that times out,
    [_extract_entities_with_llm] on a readable invoice text raises
    ImportError, whereas the regex-only extractor on the same text and
    the six-kind table returns a mapping. *)
Theorem extract_entities_with_llm_fallback_raises :
  Pipeline._extract_entities_with_llm
    Scenario.ner_down Scenario.invoice_text (lit "invoice")
  = Raise ImportError
  /\ ProcessorUtils.extract_entities
       Scenario.ner_down Scenario.invoice_text ProcessorConfig.ENTITY_PATTERNS
     = Ok [].
Proof. split; reflexivity. Qed.

(** The caller swallows the ImportError and drops the document. *)
Example process_single_document_model_failure :
  fst (Pipeline.process_single_document Scenario.ner_down
         (lit "data/invoice/a.jpg")
         (Scenario.start Scenario.ner_down []))
  = Ok None.
Proof. reflexivity. Qed.

(* ===================================================================== *)
(** * The classifier *)
(* ===================================================================== *)

Lemma str_eqb_eq a b : str_eqb a b = true <-> a = b.
Proof.
  unfold str_eqb. destruct (list_eq_dec ascii_dec a b); split;
    intros; congruence.
Qed.

Lemma mem_In x xs : mem x xs = true <-> In x xs.
Proof.
  unfold mem. rewrite existsb_exists. split.
  - intros [y [Hy E]]. apply str_eqb_eq in E. now subst.
  - intros H. exists x. split; auto. now apply str_eqb_eq.
Qed.

Lemma find_first {A} (f : A -> bool) (l : list A) (x : A) :
  find f l = Some x ->
  exists before after,
    l = before ++ x :: after /\ f x = true
    /\ forall y, In y before -> f y = false.
Proof.
  induction l as [|a l IH]; simpl; [discriminate|].
  destruct (f a) eqn:Fa.
  - intros [= ->]. exists [], l. simpl. tauto.
  - intros H. destruct (IH H) as [before [after [E [Fx Hb]]]].
    exists (a :: before), after. subst l. repeat split; auto.
    intros y [->|Hy]; auto.
Qed.

Lemma find_skips {A} (f : A -> bool) (before after : list A) (x : A) :
  (forall y, In y before -> f y = false) ->
  f x = true ->
  find f (before ++ x :: after) = Some x.
Proof.
  induction before as [|a before IH]; simpl; intros Hb Fx.
  - now rewrite Fx.
  - rewrite (Hb a) by auto. apply IH; auto.
Qed.

(** The if-chain of [_classify_document] is the first-match search over
    the keyword sets. *)
Lemma classify_fallback_first_match file_path text :
  find (fun part => mem part ProcessorConfig.DOCUMENT_CATEGORIES)
       (split_on Pipeline.os_sep file_path) = None ->
  Pipeline._classify_document file_path text = classify_by_keywords text.
Proof.
  intros H. unfold Pipeline._classify_document, classify_by_keywords.
  cbv zeta. rewrite H. unfold keyword_sets. cbn [find snd fst].
  repeat match goal with
         | |- context [Pipeline.any_in ?t ?ws] =>
             destruct (Pipeline.any_in t ws); try reflexivity
         end.
Qed.

Lemma contains_prefix hay needle :
  prefixb needle hay = true -> contains hay needle = true.
Proof. intros H. destruct hay; simpl; now rewrite H. Qed.

Lemma prefixb_app p t : prefixb p (p ++ t) = true.
Proof.
  induction p as [|a p IH]; simpl; auto.
  now rewrite Ascii.eqb_refl, IH.
Qed.

Lemma prefixb_split p s : prefixb p s = true -> exists t, s = p ++ t.
Proof.
  revert s. induction p as [|a p IH]; intros s H; simpl in *; [eauto|].
  destruct s as [|b s]; [discriminate|].
  apply andb_true_iff in H as [E H]. apply Ascii.eqb_eq in E. subst b.
  destruct (IH s H) as [t ->]. eauto.
Qed.

(** The substring test of the sources decides [occurs_in]. *)
Lemma contains_occurs hay needle :
  contains hay needle = true <-> occurs_in needle hay.
Proof.
  split.
  - induction hay as [|c hay IH]; simpl; intros H.
    + rewrite orb_false_r in H. apply prefixb_split in H as [t ->].
      exists [], t. reflexivity.
    + apply orb_true_iff in H as [H|H].
      * apply prefixb_split in H as [t ->]. exists [], t. reflexivity.
      * destruct (IH H) as [before [after ->]].
        exists (c :: before), after. reflexivity.
  - intros [before [after ->]].
    induction before as [|c before IH].
    + apply contains_prefix. cbn [app]. apply prefixb_app.
    + cbn [app contains]. rewrite IH. apply orb_true_r.
Qed.

Lemma any_in_mentions text words :
  Pipeline.any_in (lower text) words = true <-> mentions text words.
Proof.
  unfold Pipeline.any_in, mentions. rewrite existsb_exists.
  split; intros [word [Hin H]]; exists word; (split; [exact Hin|]);
    now apply contains_occurs.
Qed.

(** C5, as stated, fails: of two path components that are known
    categories only the first is returned. *)
Lemma classify_not_every_matching_component :
  ~ (forall file_path text part,
        In part (split_on Pipeline.os_sep file_path) ->
        In part ProcessorConfig.DOCUMENT_CATEGORIES ->
        Pipeline._classify_document file_path text = part).
Proof.
  intros H.
  assert (Pipeline._classify_document (lit "letter/invoice/a.jpg") []
          = lit "invoice") as F.
  { apply H.
    - vm_compute. tauto.
    - apply mem_In. vm_compute. reflexivity. }
  vm_compute in F. discriminate F.
Qed.

(** C5 (amended): the first path component that is a known category
    decides the result, whatever the text; without such a component the
    result is the first keyword set, in the order invoice, form, resume,
    letter, memo, one of whose keywords occurs in the lower-cased text;
    without any such set it is unknown. *)
Theorem classify_document_spec :
  forall file_path text : str,
    (forall part,
        In part (split_on Pipeline.os_sep file_path) ->
        In part ProcessorConfig.DOCUMENT_CATEGORIES ->
        exists before c after,
          split_on Pipeline.os_sep file_path = before ++ c :: after
          /\ In c ProcessorConfig.DOCUMENT_CATEGORIES
          /\ (forall p, In p before ->
                        ~ In p ProcessorConfig.DOCUMENT_CATEGORIES)
          /\ forall text', Pipeline._classify_document file_path text' = c)
    /\ ((forall part,
            In part (split_on Pipeline.os_sep file_path) ->
            ~ In part ProcessorConfig.DOCUMENT_CATEGORIES) ->
        (forall before k words after,
            keyword_sets = before ++ (k, words) :: after ->
            (forall e, In e before -> ~ mentions text (snd e)) ->
            mentions text words ->
            Pipeline._classify_document file_path text = lit k)
        /\ ((forall e, In e keyword_sets -> ~ mentions text (snd e)) ->
            Pipeline._classify_document file_path text = lit "unknown")
        /\ (Pipeline._classify_document file_path text = lit "unknown"
            \/ exists k words,
                 In (k, words) keyword_sets
                 /\ mentions text words
                 /\ Pipeline._classify_document file_path text = lit k))
    /\ map fst keyword_sets
       = ["invoice"; "form"; "resume"; "letter"; "memo"]%string.
Proof.
  intros file_path text. split; [|split; [|reflexivity]].
  - intros part Hin Hcat.
    destruct (find (fun part => mem part ProcessorConfig.DOCUMENT_CATEGORIES)
                   (split_on Pipeline.os_sep file_path)) as [c|] eqn:F.
    + destruct (find_first _ _ _ F) as [before [after [E [Fc Hb]]]].
      exists before, c, after. repeat split; auto.
      * now apply mem_In.
      * intros p Hp Hc. apply mem_In in Hc. rewrite (Hb p Hp) in Hc.
        discriminate.
      * intros text'. unfold Pipeline._classify_document. cbv zeta.
        now rewrite F.
    + exfalso. pose proof (find_none _ _ F part Hin) as N. cbv beta in N.
      apply mem_In in Hcat. rewrite Hcat in N. discriminate.
  - intros Hno.
    assert (find (fun part => mem part ProcessorConfig.DOCUMENT_CATEGORIES)
                 (split_on Pipeline.os_sep file_path) = None) as F.
    { destruct (find _ _) as [c|] eqn:F; auto. exfalso.
      apply find_some in F as [Hin Hc]. apply mem_In in Hc.
      exact (Hno c Hin Hc). }
    rewrite (classify_fallback_first_match _ text F).
    split; [|split].
    + intros before k words after E Hb Hk. unfold classify_by_keywords.
      rewrite E.
      rewrite (find_skips
                 (fun entry => Pipeline.any_in (lower text) (snd entry))
                 before after (k, words)); auto.
      * intros e He. cbv beta.
        destruct (Pipeline.any_in (lower text) (snd e)) eqn:A; auto.
        apply any_in_mentions in A. destruct (Hb e He A).
      * now apply any_in_mentions.
    + intros Hall. unfold classify_by_keywords.
      destruct (find _ keyword_sets) as [e|] eqn:Fe; auto.
      apply find_some in Fe as [Hin He]. apply any_in_mentions in He.
      destruct (Hall e Hin He).
    + unfold classify_by_keywords.
      destruct (find _ keyword_sets) as [[k words]|] eqn:Fe; [|now left].
      right. apply find_some in Fe as [Hin He]. cbn [snd] in He.
      exists k, words. split; [exact Hin|].
      split; [now apply any_in_mentions|reflexivity].
Qed.

Lemma classify_document_spec_witness :
  (exists before c after,
      split_on Pipeline.os_sep (lit "data/invoice/img001.jpg")
      = before ++ c :: after
      /\ In c ProcessorConfig.DOCUMENT_CATEGORIES
      /\ (forall p, In p before -> ~ In p ProcessorConfig.DOCUMENT_CATEGORIES)
      /\ forall text',
           Pipeline._classify_document (lit "data/invoice/img001.jpg") text'
           = c)
  /\ Pipeline._classify_document (lit "scans/img001.jpg")
       (lit "Dear Sir, thank you") = lit "letter".
Proof.
  split.
  - apply (proj1 (classify_document_spec (lit "data/invoice/img001.jpg")
                                         (lit "Dear Sir"))
             (lit "invoice")).
    + simpl. tauto.
    + apply mem_In. reflexivity.
  - apply (proj1 (proj1 (proj2 (classify_document_spec
                                  (lit "scans/img001.jpg")
                                  (lit "Dear Sir, thank you")))
                   ltac:(intros part Hin Hc; apply mem_In in Hc;
                         vm_compute in Hin;
                         destruct Hin as [<-|[<-|[]]]; discriminate Hc))
             [("invoice"%string,
               ["invoice"; "bill"; "payment"; "amount"; "$"]%string);
              ("form"%string, ["form"; "application"; "request"]%string);
              ("resume"%string,
               ["resume"; "cv"; "experience"; "education"]%string)]
             "letter"%string ["letter"; "dear"; "sincerely"]%string
             [("memo"%string, ["memo"; "memorandum"; "subject:"]%string)]
             eq_refl).
    + intros e He M. apply any_in_mentions in M.
      destruct He as [<-|[<-|[<-|[]]]]; vm_compute in M; discriminate M.
    + exists "dear"%string. split; [simpl; tauto|].
      exists [], (lit " sir, thank you"). reflexivity.
Defined.

Example classify_invoice_folder :
  Pipeline._classify_document (lit "data/invoice/img001.jpg")
                              (lit "Dear Sir, sincerely yours")
  = lit "invoice".
Proof. reflexivity. Qed.

Example classify_keyword_priority :
  Pipeline._classify_document (lit "tmp/upload.jpg")
                              (lit "Dear Sir, your APPLICATION form")
  = lit "form".
Proof. reflexivity. Qed.

(* ===================================================================== *)
(** * Dicts and order-preserving deduplication *)
(* ===================================================================== *)

Lemma dict_get_set {V} k k' (v : V) d :
  dict_get k (dict_set k' v d)
  = if String.eqb k k' then Some v else dict_get k d.
Proof.
  induction d as [|[k0 v0] d IH]; simpl.
  - destruct (String.eqb k k'); reflexivity.
  - destruct (String.eqb k' k0) eqn:E0; simpl.
    + apply String.eqb_eq in E0. subst k0.
      destruct (String.eqb k k'); reflexivity.
    + destruct (String.eqb k k0) eqn:E1.
      * apply String.eqb_eq in E1. subst k0.
        rewrite String.eqb_sym in E0. now rewrite E0.
      * apply IH.
Qed.

Lemma keys_dict_set {V} k (v v0 : V) d :
  dict_get k d = Some v0 -> keys (dict_set k v d) = keys d.
Proof.
  unfold keys. induction d as [|[k1 v1] d IH]; simpl; [discriminate|].
  rewrite (String.eqb_sym k k1).
  destruct (String.eqb k1 k) eqn:E; simpl.
  - apply String.eqb_eq in E. now subst.
  - intros H. f_equal. auto.
Qed.


Lemma pyval_eqb_eq a b : pyval_eqb a b = true <-> a = b.
Proof.
  unfold pyval_eqb. destruct (pyval_eq_dec a b); split; intros; congruence.
Qed.

Lemma pyval_eqb_sym a b : pyval_eqb a b = pyval_eqb b a.
Proof.
  unfold pyval_eqb.
  destruct (pyval_eq_dec a b), (pyval_eq_dec b a); congruence.
Qed.

Lemma filter_comm {A} (p q : A -> bool) l :
  filter p (filter q l) = filter q (filter p l).
Proof.
  induction l as [|a l IH]; simpl; auto.
  destruct (p a) eqn:P, (q a) eqn:Q; simpl; rewrite ?P, ?Q, IH; reflexivity.
Qed.

Lemma filter_and {A} (p q : A -> bool) l :
  filter p (filter q l) = filter (fun y => p y && q y) l.
Proof.
  induction l as [|a l IH]; simpl; auto.
  destruct (q a) eqn:Q; simpl; rewrite ?andb_true_r, ?andb_false_r.
  - destruct (p a); now rewrite IH.
  - apply IH.
Qed.

Lemma filter_absorb {A} (p q : A -> bool) l :
  (forall y, p y = true -> q y = true) ->
  filter p (filter q l) = filter p l.
Proof.
  intros H. induction l as [|a l IH]; simpl; auto.
  destruct (q a) eqn:Q; simpl.
  - now rewrite IH.
  - destruct (p a) eqn:P; auto. apply H in P. congruence.
Qed.

Lemma first_seen_filter p xs :
  first_seen (filter p xs) = filter p (first_seen xs).
Proof.
  induction xs as [|a xs IH]; simpl; auto.
  destruct (p a) eqn:P; simpl.
  - rewrite IH. f_equal. apply filter_comm.
  - rewrite IH. symmetry. apply filter_absorb.
    intros y Py. destruct (pyval_eqb a y) eqn:E; auto.
    apply pyval_eqb_eq in E. congruence.
Qed.

Lemma keys_add_spec x ks :
  keys_add pyval_eqb x ks
  = if existsb (pyval_eqb x) ks then ks else ks ++ [x].
Proof.
  induction ks as [|k ks IH]; simpl; auto.
  destruct (pyval_eqb x k); simpl; auto.
  rewrite IH. destruct (existsb (pyval_eqb x) ks); reflexivity.
Qed.

Lemma fromkeys_from acc xs :
  fold_left (fun ks x => keys_add pyval_eqb x ks) xs acc
  = acc ++ first_seen
             (filter (fun y => negb (existsb (pyval_eqb y) acc)) xs).
Proof.
  revert acc. induction xs as [|x xs IH]; intros acc; simpl.
  - now rewrite app_nil_r.
  - rewrite IH, keys_add_spec.
    destruct (existsb (pyval_eqb x) acc) eqn:E; simpl; auto.
    rewrite <- app_assoc. simpl. do 2 f_equal.
    rewrite <- first_seen_filter, filter_and. f_equal.
    apply filter_ext. intros y.
    rewrite existsb_app, negb_orb. simpl. rewrite orb_false_r.
    rewrite (pyval_eqb_sym y x). apply andb_comm.
Qed.

(** [list(dict.fromkeys(xs))] keeps every value at its first
    occurrence. *)
Lemma fromkeys_first_seen xs : fromkeys pyval_eqb xs = first_seen xs.
Proof.
  unfold fromkeys. rewrite fromkeys_from. simpl.
  f_equal. clear. induction xs; simpl; congruence.
Qed.



Lemma first_seen_nonempty xs : xs <> [] -> first_seen xs <> [].
Proof. destruct xs; simpl; congruence. Qed.

(* ===================================================================== *)
(** * The regex-only extractor *)
(* ===================================================================== *)


Section DedupLoop.

Context {P : Type}.
Variable find_all : P -> result (list pyval).
Variable dedup : list pyval -> list pyval.

(** The loop shared by both [extract_entities]: a kind is stored when
    and only when it has matches. *)
Let loop (table : dict P) (start : dict (list pyval)) :=
  for_each table start
    (fun entities '(entity_type, p) =>
       matches <- find_all p ;;
       match matches with
       | [] => ret entities
       | _ => ret (dict_set entity_type (dedup matches) entities)
       end).

Lemma dedup_loop_values table start d :
  loop table start = Ok d ->
  forall k v,
    dict_get k d = Some v ->
    dict_get k start = Some v
    \/ exists p ms,
         In (k, p) table /\ find_all p = Ok ms /\ ms <> [] /\ v = dedup ms.
Proof.
  unfold loop. revert start.
  induction table as [|[k0 p0] table IH]; simpl; intros start H k v G.
  - injection H as <-. auto.
  - destruct (find_all p0) as [ms|e] eqn:F; [|discriminate].
    destruct ms as [|m ms].
    + destruct (IH _ H k v G) as [L|[p [ms' [I R]]]]; auto.
      right. exists p, ms'. tauto.
    + destruct (IH _ H k v G) as [L|[p [ms' [I R]]]].
      * rewrite dict_get_set in L.
        destruct (String.eqb k k0) eqn:E; auto.
        apply String.eqb_eq in E. subst k0. injection L as <-.
        right. exists p0, (m :: ms). repeat split; auto. discriminate.
      * right. exists p, ms'. tauto.
Qed.

Lemma dedup_loop_absent table start d k :
  loop table start = Ok d ->
  dict_get k start = None ->
  (forall p, In (k, p) table -> find_all p = Ok []) ->
  dict_get k d = None.
Proof.
  unfold loop. revert start.
  induction table as [|[k0 p0] table IH]; simpl; intros start H S0 Z.
  - injection H as <-. auto.
  - destruct (find_all p0) as [ms|e] eqn:F; [|discriminate].
    destruct ms as [|m ms].
    + eapply IH; eauto.
    + eapply IH; eauto. rewrite dict_get_set.
      destruct (String.eqb k k0) eqn:E; auto.
      apply String.eqb_eq in E. subst k0.
      rewrite (Z p0) in F by auto. discriminate.
Qed.




End DedupLoop.




Lemma extract_entities_values sv text patterns d k v :
  ProcessorUtils.extract_entities sv text patterns = Ok d ->
  dict_get k d = Some v ->
  exists pattern_list ms,
    In (k, pattern_list) patterns
    /\ ProcessorUtils.find_matches sv text pattern_list = Ok ms
    /\ ms <> []
    /\ v = first_seen ms.
Proof.
  intros H G.
  destruct (dedup_loop_values
              (ProcessorUtils.find_matches sv text) (fromkeys pyval_eqb)
              patterns [] d H k v G) as [L|[p [ms [I [F [N E]]]]]].
  - discriminate.
  - exists p, ms. rewrite fromkeys_first_seen in E. auto.
Qed.

(* ===================================================================== *)
(** * The model-assisted extractor *)
(* ===================================================================== *)

Lemma dict_get_keys {V} k (d : dict V) :
  In k (keys d) <-> exists v, dict_get k d = Some v.
Proof.
  unfold keys. induction d as [|[k0 v0] d IH]; simpl.
  - split; [tauto|]. intros [v H]. discriminate.
  - destruct (String.eqb k k0) eqn:E.
    + apply String.eqb_eq in E. subst. split; eauto.
    + apply String.eqb_neq in E. rewrite <- IH. split.
      * intros [H|H]; [congruence|auto].
      * auto.
Qed.

Lemma extend_to_spec k xs entities entities' :
  Pipeline.extend_to k xs entities = Ok entities' ->
  keys entities' = keys entities
  /\ forall k', dict_get k' entities'
                = if String.eqb k' k
                  then option_map (fun l => l ++ xs) (dict_get k' entities)
                  else dict_get k' entities.
Proof.
  unfold Pipeline.extend_to.
  destruct (dict_get k entities) as [l|] eqn:G; [|discriminate].
  intros [= <-]. split.
  - eapply keys_dict_set; eauto.
  - intros k'. rewrite dict_get_set.
    destruct (String.eqb k' k) eqn:E; auto.
    apply String.eqb_eq in E. subst. now rewrite G.
Qed.

Lemma extend_to_total k xs entities :
  In k (keys entities) ->
  exists entities', Pipeline.extend_to k xs entities = Ok entities'.
Proof.
  intros H. apply dict_get_keys in H as [l G].
  unfold Pipeline.extend_to. rewrite G. eauto.
Qed.

Lemma for_each_result_inv {A B} (I : B -> Prop) (f : B -> A -> result B)
    xs acc d :
  (forall acc x acc', I acc -> f acc x = Ok acc' -> I acc') ->
  I acc -> for_each xs acc f = Ok d -> I d.
Proof.
  intros Hf. revert acc. induction xs as [|x xs IH]; simpl; intros acc Ia H.
  - now injection H as <-.
  - destruct (f acc x) as [acc'|e] eqn:F; [|discriminate]. eauto.
Qed.

Lemma route_keys entities entity entities' :
  Pipeline.route entities entity = Ok entities' ->
  keys entities' = keys entities.
Proof.
  unfold Pipeline.route, Pipeline.append_to. cbv zeta.
  repeat match goal with
         | |- context [if ?c then _ else _] => destruct c
         end;
    intros H; try (now injection H as <-);
    now apply extend_to_spec in H.
Qed.

Lemma dedupe_keys sv entities key entities' :
  Pipeline.dedupe sv entities key = Ok entities' ->
  keys entities' = keys entities.
Proof.
  unfold Pipeline.dedupe.
  destruct (dict_get key entities) as [items|] eqn:G; [|discriminate].
  simpl. destruct (Pipeline.clean_items _) as [kept|e]; [|discriminate].
  intros [= <-]. eapply keys_dict_set; eauto.
Qed.

(** Whenever the [try] block completes, its result has the eight kinds
    as keys, in their order. *)
Lemma llm_body_keys sv ner text d :
  Pipeline.llm_body sv ner text Pipeline.empty_entities = Ok d ->
  keys d = kinds.
Proof.
  unfold Pipeline.llm_body. simpl.
  destruct (ner _) as [spans|?]; [|discriminate].
  destruct (for_each spans _ _) as [e1|?] eqn:E1; [|discriminate].
  apply (for_each_result_inv (fun e => keys e = kinds)) in E1;
    [|intros acc x acc' Ia R; apply route_keys in R; congruence|reflexivity].
  destruct (re_findall sv Pipeline.email_pattern _ _) as [emails|?];
    [|discriminate].
  destruct (Pipeline.extend_to "emails" _ _) as [e2|?] eqn:E2; [|discriminate].
  apply extend_to_spec in E2 as [E2 _].
  destruct (re_findall sv Pipeline.phone_pattern _ _) as [phones|?];
    [|discriminate].
  destruct (Pipeline.extend_to "phones" _ _) as [e3|?] eqn:E3; [|discriminate].
  apply extend_to_spec in E3 as [E3 _].
  destruct (re_findall sv Pipeline.money_pattern _ _) as [amounts|?];
    [|discriminate].
  destruct (Pipeline.extend_to "amounts" _ _) as [e4|?] eqn:E4; [|discriminate].
  apply extend_to_spec in E4 as [E4 _].
  intros H.
  apply (for_each_result_inv (fun e => keys e = kinds)) in H; auto.
  - intros acc x acc' Ia R. apply dedupe_keys in R. congruence.
  - congruence.
Qed.

Lemma extract_entities_with_llm_completes sv ner text document_type d :
  ner_pipeline sv = Some ner ->
  strip text <> [] ->
  Pipeline.llm_body sv ner text Pipeline.empty_entities = Ok d ->
  Pipeline._extract_entities_with_llm sv text document_type = Ok d.
Proof.
  intros Hn Hs Hb. unfold Pipeline._extract_entities_with_llm.
  rewrite Hn. destruct (strip text); [congruence|].
  cbv zeta. now rewrite Hb.
Qed.

(** C6: the regex-only extractor never maps a kind to an empty list and
    leaves out every kind without a match; the model-assisted extractor
    returns the eight fixed kinds, each with a possibly empty list,
    whenever the model path completes, and on its early exits (no model,
    blank text) the eight kinds with empty lists. *)
Theorem entity_kinds_asymmetry :
  forall (sv : services) (text document_type : str),
    (forall patterns d,
        ProcessorUtils.extract_entities sv text patterns = Ok d ->
        (forall k v, dict_get k d = Some v -> v <> [])
        /\ (forall k,
               (forall pattern_list,
                   In (k, pattern_list) patterns ->
                   ProcessorUtils.find_matches sv text pattern_list = Ok []) ->
               dict_get k d = None /\ ~ In k (keys d)))
    /\ (forall ner d,
           ner_pipeline sv = Some ner ->
           strip text <> [] ->
           Pipeline.llm_body sv ner text Pipeline.empty_entities = Ok d ->
           Pipeline._extract_entities_with_llm sv text document_type = Ok d
           /\ keys d = kinds)
    /\ (ner_pipeline sv = None \/ strip text = [] ->
        Pipeline._extract_entities_with_llm sv text document_type
        = Ok Pipeline.empty_entities)
    /\ keys Pipeline.empty_entities = kinds
    /\ Forall (fun entry => snd entry = []) Pipeline.empty_entities.
Proof.
  intros sv text document_type. repeat split.
  - intros k v G.
    destruct (extract_entities_values sv text patterns d k v H G)
      as [pl [ms [_ [_ [N ->]]]]].
    now apply first_seen_nonempty.
  - eapply (dedup_loop_absent (ProcessorUtils.find_matches sv text)
              (fromkeys pyval_eqb) patterns []); eauto.
  - intros K. apply dict_get_keys in K as [v G].
    rewrite (dedup_loop_absent (ProcessorUtils.find_matches sv text)
               (fromkeys pyval_eqb) patterns [] d k H eq_refl H0) in G.
    discriminate.
  - eapply extract_entities_with_llm_completes; eauto.
  - eapply llm_body_keys; eauto.
  - intros [Hn|Hs]; unfold Pipeline._extract_entities_with_llm.
    + now rewrite Hn.
    + destruct (ner_pipeline sv); auto. now rewrite Hs.
  - repeat constructor.
Qed.

Lemma append_to_spec k x entities :
  keys entities = kinds ->
  In k kinds ->
  exists entities',
    Pipeline.append_to k x entities = Ok entities'
    /\ keys entities' = kinds
    /\ forall k' l,
         dict_get k' entities = Some l ->
         dict_get k' entities'
         = Some (l ++ if String.eqb k k' then [x] else []).
Proof.
  intros K I. unfold Pipeline.append_to.
  destruct (extend_to_total k [x] entities) as [e' E]; [now rewrite K|].
  exists e'. split; auto.
  apply extend_to_spec in E as [E1 E2]. split; [congruence|].
  intros k' l G. rewrite E2, G, (String.eqb_sym k k').
  destruct (String.eqb k' k); simpl; auto. now rewrite app_nil_r.
Qed.

Lemma route_spec entities entity :
  keys entities = kinds ->
  exists entities',
    Pipeline.route entities entity = Ok entities'
    /\ keys entities' = kinds
    /\ forall k l,
         dict_get k entities = Some l ->
         dict_get k entities' = Some (l ++ model_values k [entity]).
Proof.
  intros K. unfold Pipeline.route, model_values, kind_of. cbv zeta.
  cbn [flat_map].
  repeat match goal with
         | |- context [if ?c then _ else _] =>
             lazymatch c with
             | String.eqb _ _ => fail
             | _ => destruct c
             end
         end;
    lazymatch goal with
    | |- context [Pipeline.append_to ?k ?x entities] =>
        let I := fresh "I" in
        assert (In k kinds) as I by (simpl; tauto);
        destruct (append_to_spec k x entities K I) as [e' [E1 [E2 E3]]];
        exists e'; repeat split; auto;
        intros k' l G; rewrite (E3 k' l G), app_nil_r; reflexivity
    | |- _ =>
        exists entities; repeat split; auto;
        intros k' l G; now rewrite G, app_nil_r
    end.
Qed.

Lemma model_values_cons k entity spans :
  model_values k (entity :: spans)
  = model_values k [entity] ++ model_values k spans.
Proof. unfold model_values. simpl. now rewrite app_nil_r. Qed.

Lemma route_loop spans : forall entities,
  keys entities = kinds ->
  exists entities',
    for_each spans entities Pipeline.route = Ok entities'
    /\ keys entities' = kinds
    /\ forall k l,
         dict_get k entities = Some l ->
         dict_get k entities' = Some (l ++ model_values k spans).
Proof.
  induction spans as [|entity spans IH]; intros entities K.
  - exists entities. repeat split; auto.
    intros k l G. simpl. now rewrite app_nil_r.
  - destruct (route_spec entities entity K) as [e1 [R [K1 G1]]].
    destruct (IH e1 K1) as [e2 [R2 [K2 G2]]].
    exists e2. split; [simpl; now rewrite R|]. split; auto.
    intros k l G. rewrite (G2 k _ (G1 k l G)), (model_values_cons k entity spans).
    now rewrite <- app_assoc.
Qed.

Lemma model_values_str k spans : forallb is_str (model_values k spans) = true.
Proof.
  unfold model_values. apply forallb_forall. intros v H.
  apply in_flat_map in H as [entity [_ H]].
  destruct (PrimFloat.ltb _ _); [|destruct H].
  destruct (kind_of entity); [|destruct H].
  destruct (String.eqb _ _); [|destruct H].
  destruct H as [<-|[]]. reflexivity.
Qed.

Lemma clean_items_from items : forall kept,
  forallb is_str items = true ->
  for_each items kept
    (fun kept item =>
       b <- Pipeline.keep_item item ;;
       ret (if b : bool then kept ++ [item] else kept))
  = Ok (kept ++ filter long_enough items).
Proof.
  induction items as [|item items IH]; simpl; intros kept H.
  - now rewrite app_nil_r.
  - apply andb_true_iff in H as [H1 H2].
    destruct item as [s|t]; [|discriminate]. simpl.
    destruct (1 <? length (strip s)); rewrite IH by auto; auto.
    now rewrite <- app_assoc.
Qed.

Lemma clean_items_spec items :
  forallb is_str items = true ->
  Pipeline.clean_items items = Ok (filter long_enough items).
Proof. intros H. unfold Pipeline.clean_items. now rewrite clean_items_from. Qed.

Lemma set_list_str sv items :
  forallb is_str items = true -> forallb is_str (set_list sv items) = true.
Proof.
  rewrite !forallb_forall. intros H v Hv. apply H.
  now apply set_list_In in Hv.
Qed.

(** The final loop replaces the list of every key by the long enough
    members of its set. *)
Lemma dedupe_loop sv ks : forall entities,
  NoDup ks ->
  (forall k, In k ks ->
             exists l, dict_get k entities = Some l
                       /\ forallb is_str l = true) ->
  exists entities',
    for_each ks entities (Pipeline.dedupe sv) = Ok entities'
    /\ keys entities' = keys entities
    /\ (forall k l, In k ks -> dict_get k entities = Some l ->
                    dict_get k entities'
                    = Some (filter long_enough (set_list sv l)))
    /\ (forall k, ~ In k ks -> dict_get k entities' = dict_get k entities).
Proof.
  induction ks as [|key ks IH]; intros entities N H.
  - exists entities. simpl. repeat split; auto. tauto.
  - inversion N as [|? ? Nk Nks]; subst.
    destruct (H key (or_introl eq_refl)) as [l0 [G0 S0]].
    assert (Pipeline.dedupe sv entities key
            = Ok (dict_set key (filter long_enough (set_list sv l0)) entities))
      as D.
    { unfold Pipeline.dedupe. rewrite G0.
      rewrite clean_items_spec by now apply set_list_str. reflexivity. }
    destruct (IH (dict_set key (filter long_enough (set_list sv l0)) entities)
                 Nks) as [e' [L [K [In1 Out1]]]].
    { intros k Hk. rewrite dict_get_set.
      destruct (String.eqb k key) eqn:E.
      - apply String.eqb_eq in E. subst. tauto.
      - apply H. now right. }
    exists e'. simpl. rewrite D. repeat split; auto.
    + rewrite K. eapply keys_dict_set; eauto.
    + intros k l [<-|Hk] G.
      * rewrite (Out1 key Nk), dict_get_set, String.eqb_refl. congruence.
      * apply In1; auto. rewrite dict_get_set.
        destruct (String.eqb k key) eqn:E; auto.
        apply String.eqb_eq in E. subst. tauto.
    + intros k Hk. rewrite Out1 by tauto. rewrite dict_get_set.
      destruct (String.eqb k key) eqn:E; auto.
      apply String.eqb_eq in E. subst. tauto.
Qed.

Lemma regex_values_str k emails phones amounts :
  forallb is_str (emails ++ amounts) = true ->
  forallb is_str (regex_values k emails phones amounts) = true.
Proof.
  rewrite forallb_app. intros H. apply andb_true_iff in H as [He Ha].
  unfold regex_values.
  destruct (String.eqb k "emails"); auto.
  destruct (String.eqb k "phones").
  - apply forallb_forall. intros v Hv. apply in_map_iff in Hv as [? [<- _]].
    reflexivity.
  - destruct (String.eqb k "amounts"); auto.
Qed.

(** The [try] block in closed form, kind by kind. *)
Lemma llm_body_spec sv ner text spans emails phones amounts :
  ner (prefix 512 text) = Ok spans ->
  re_findall sv Pipeline.email_pattern false text = Ok emails ->
  re_findall sv Pipeline.phone_pattern false text = Ok phones ->
  re_findall sv Pipeline.money_pattern false text = Ok amounts ->
  forallb is_str (emails ++ amounts) = true ->
  exists d,
    Pipeline.llm_body sv ner text Pipeline.empty_entities = Ok d
    /\ keys d = kinds
    /\ forall k,
         In k kinds ->
         dict_get k d
         = Some (filter long_enough
                   (set_list sv (model_values k spans
                                 ++ regex_values k emails phones amounts))).
Proof.
  intros Hn He Hp Hm Hs. unfold Pipeline.llm_body. rewrite Hn. cbn [bind ret result_monad].
  destruct (route_loop spans Pipeline.empty_entities eq_refl)
    as [e1 [R1 [K1 G1]]].
  rewrite R1, He. cbn [bind ret result_monad].
  destruct (extend_to_total "emails" emails e1) as [e2 E2];
    [rewrite K1; simpl; tauto|].
  rewrite E2, Hp. cbn [bind ret result_monad]. apply extend_to_spec in E2 as [K2 G2].
  destruct (extend_to_total "phones"
              (map (fun phone => VStr (Pipeline.join_value (lit "-") phone))
                   phones) e2) as [e3 E3];
    [rewrite K2, K1; simpl; tauto|].
  rewrite E3, Hm. cbn [bind ret result_monad]. apply extend_to_spec in E3 as [K3 G3].
  destruct (extend_to_total "amounts" amounts e3) as [e4 E4];
    [rewrite K3, K2, K1; simpl; tauto|].
  rewrite E4. apply extend_to_spec in E4 as [K4 G4].
  assert (keys e4 = kinds) as K by congruence.
  assert (forall k, In k kinds ->
            dict_get k e4
            = Some (model_values k spans
                    ++ regex_values k emails phones amounts)) as G.
  { intros k Hk. rewrite G4, G3, G2. unfold regex_values.
    simpl in Hk.
    repeat (destruct Hk as [<-|Hk]; [
      match goal with
      | |- context [dict_get ?k e1] => rewrite (G1 k [] eq_refl)
      end;
      cbn [String.eqb Ascii.eqb Bool.eqb option_map app];
      rewrite ?app_nil_r; reflexivity|]).
    destruct Hk. }
  destruct (dedupe_loop sv (keys e4) e4) as [d [L [Kd [In1 _]]]].
  - rewrite K. repeat constructor; simpl; intuition discriminate.
  - intros k Hk. rewrite K in Hk. rewrite (G k Hk). eexists. split; eauto.
    rewrite forallb_app, model_values_str. simpl.
    now apply regex_values_str.
  - exists d. split; [exact L|]. split; [congruence|].
    intros k Hk. apply In1; [now rewrite K|auto].
Qed.

(** C7: with a loaded model and a non-blank text, the model sees
    [text[:512]] and nothing else; the result has, for each of the eight
    kinds, a duplicate-free list whose members are exactly the values
    contributed by the model spans scoring strictly above 0.8 or by the
    e-mail, phone and amount patterns run on the whole text, less those
    whose trimmed length is at most one. *)
Theorem llm_extraction_spec :
  forall (sv : services) (ner : str -> result (list ner_entity))
         (text document_type : str)
         (spans : list ner_entity) (emails phones amounts : list pyval),
    ner_pipeline sv = Some ner ->
    strip text <> [] ->
    ner (prefix 512 text) = Ok spans ->
    re_findall sv Pipeline.email_pattern false text = Ok emails ->
    re_findall sv Pipeline.phone_pattern false text = Ok phones ->
    re_findall sv Pipeline.money_pattern false text = Ok amounts ->
    forallb is_str (emails ++ amounts) = true ->
    exists d,
      Pipeline._extract_entities_with_llm sv text document_type = Ok d
      /\ keys d = kinds
      /\ (forall k,
             In k kinds ->
             exists l,
               dict_get k d = Some l
               /\ NoDup l
               /\ forall v,
                    In v l <->
                    In v (model_values k spans
                          ++ regex_values k emails phones amounts)
                    /\ long_enough v = true)
      /\ (forall ner',
             ner' (prefix 512 text) = ner (prefix 512 text) ->
             Pipeline.llm_body sv ner' text Pipeline.empty_entities
             = Pipeline.llm_body sv ner text Pipeline.empty_entities)
      /\ prefix 512 text = firstn 512 text
      /\ (forall entity k,
             PrimFloat.ltb 0.8%float (score entity) = false ->
             model_values k [entity] = []).
Proof.
  intros sv ner text document_type spans emails phones amounts
         Hn Hs Hspans He Hp Hm Hstr.
  destruct (llm_body_spec sv ner text spans emails phones amounts
              Hspans He Hp Hm Hstr) as [d [B [K G]]].
  exists d. split; [|split; [exact K|split; [|split; [|split]]]].
  - eapply extract_entities_with_llm_completes; eauto.
  - intros k Hk. eexists. split; [apply (G k Hk)|]. split.
    + apply NoDup_filter, set_list_NoDup.
    + intros v. rewrite filter_In, set_list_In. tauto.
  - intros ner' E. unfold Pipeline.llm_body. now rewrite E.
  - reflexivity.
  - intros entity k L. unfold model_values. simpl. now rewrite L.
Qed.

Lemma llm_extraction_spec_witness :
  exists d,
    Pipeline._extract_entities_with_llm
      Scenario.model_up Scenario.contact_text (lit "invoice") = Ok d
    /\ keys d = kinds
    /\ dict_get "persons" d = Some [VStr (lit "Jane Doe")]
    /\ dict_get "organizations" d = Some []
    /\ dict_get "locations" d = Some []
    /\ dict_get "emails" d = Some [VStr (lit "jane@example.com")]
    /\ dict_get "phones" d = Some [VStr (lit "555-123-4567")].
Proof.
  destruct (llm_extraction_spec
              Scenario.model_up (fun _ => Ok Scenario.sample_spans)
              Scenario.contact_text (lit "invoice")
              Scenario.sample_spans
              [VStr (lit "jane@example.com"); VStr (lit "jane@example.com")]
              [VTuple [lit "555"; lit "123"; lit "4567"]]
              [VStr (lit "$1,250.00")]
              eq_refl ltac:(vm_compute; discriminate)
              eq_refl eq_refl eq_refl eq_refl eq_refl)
    as [d [E [K _]]].
  exists d. split; [exact E|]. split; [exact K|].
  vm_compute in E. injection E as <-.
  repeat split; reflexivity.
Defined.

Lemma entity_kinds_asymmetry_witness :
  (exists d,
      Pipeline._extract_entities_with_llm
        Scenario.model_up Scenario.contact_text (lit "invoice") = Ok d
      /\ keys d = kinds)
  /\ (exists d,
        ProcessorUtils.extract_entities
          Scenario.model_up Scenario.contact_text
          ProcessorConfig.ENTITY_PATTERNS = Ok d
        /\ dict_get "ssn" d = None
        /\ ~ In "ssn"%string (keys d)).
Proof.
  pose proof (entity_kinds_asymmetry
                Scenario.model_up Scenario.contact_text (lit "invoice"))
    as [R [M _]].
  split.
  - eexists.
    apply (M (fun _ => Ok Scenario.sample_spans)).
    + reflexivity.
    + vm_compute. discriminate.
    + vm_compute. reflexivity.
  - eexists. split; [vm_compute; reflexivity|].
    apply (R ProcessorConfig.ENTITY_PATTERNS).
    + vm_compute. reflexivity.
    + intros pl H. simpl in H.
      repeat (destruct H as [H|H]; [try discriminate H|]); [|destruct H].
      injection H as <-. reflexivity.
Defined.

(* ===================================================================== *)
(** * Determinism and order of the regex-only results *)
(* ===================================================================== *)





(* ===================================================================== *)
(** * Storing and batch processing *)
(* ===================================================================== *)

(** [_store_documents] on a non-empty list: the texts are encoded, then
    one request is made; the outcome is that of the two collaborators. *)
Lemma store_documents_spec sv d ds w :
  let documents := d :: ds in
  let texts := map doc_text documents in
  exists r w',
    Pipeline._store_documents sv documents w = (r, w')
    /\ Pipeline.clock w' = Pipeline.clock w
    /\ match embedder_encode sv texts with
       | Raise e =>
           r = Raise e
           /\ Pipeline.collection w' = Pipeline.collection w
           /\ Pipeline.trace w' = Pipeline.trace w ++ [EvEncode texts]
       | Ok embeddings =>
           let req := store_request sv documents embeddings in
           Pipeline.trace w' = Pipeline.trace w ++ [EvEncode texts; EvAdd req]
           /\ match collection_add sv (Pipeline.collection w) req with
              | Ok c => r = Ok tt /\ Pipeline.collection w' = c
              | Raise e =>
                  r = Raise e
                  /\ Pipeline.collection w' = Pipeline.collection w
              end
       end.
Proof.
  intros documents texts. unfold Pipeline._store_documents.
  subst documents texts.
  unfold Pipeline.collection_add_io, Pipeline.emit, Pipeline.lift.
  cbn [bind Pipeline.io_monad].
  destruct (embedder_encode sv _) as [embeddings|e] eqn:E.
  - cbn [Pipeline.collection Pipeline.trace Pipeline.clock].
    fold (store_request sv (d :: ds) embeddings).
    destruct (collection_add sv _ _) as [c|e] eqn:A;
      do 2 eexists; (split; [reflexivity|]); (split; [reflexivity|]);
      cbn; rewrite <- app_assoc; auto.
  - do 2 eexists. split; [reflexivity|]. split; [reflexivity|]. auto.
Qed.

(** What one [process_single_document] call does: it never raises;
    it returns a record only for a readable file, after one encoding and
    one request for that record alone; otherwise it leaves the
    collection as it was. *)
Lemma process_single_document_cases sv file_path w :
  exists r w' new,
    Pipeline.process_single_document sv file_path w = (Ok r, w')
    /\ Pipeline.trace w' = Pipeline.trace w ++ new
    /\ length (add_calls new) <= 1
    /\ (readable sv file_path = false -> r = None /\ w' = w)
    /\ match r with
       | None =>
           Pipeline.collection w' = Pipeline.collection w
           /\ Forall (fun ev => per_document_event ev = true) new
       | Some d =>
           readable sv file_path = true
           /\ doc_file_path d = file_path
           /\ exists req,
               new = [EvEncode [doc_text d]; EvAdd req]
               /\ add_ids req = [doc_id d]
               /\ add_documents req = [doc_text d]
       end.
Proof.
  unfold Pipeline.process_single_document, Pipeline.try_except, readable.
  set (text := ProcessorUtils.extract_text_from_image sv file_path).
  destruct (match text with [] => true | _ :: _ => false end
            || (length (strip text) <? 10)) eqn:C.
  - exists None, w, []. cbn. rewrite app_nil_r.
    repeat split; auto.
  - set (cleaned_text := ProcessorUtils.clean_text text).
    set (category := Pipeline._classify_document file_path cleaned_text).
    unfold Pipeline.lift, Pipeline.now. cbn [bind Pipeline.io_monad].
    destruct (Pipeline._extract_entities_with_llm sv cleaned_text category)
      as [entities|e].
    + match goal with
      | |- context [Pipeline._store_documents sv [?d] ?w1] =>
          destruct (store_documents_spec sv d [] w1) as [r [w2 [S [_ O]]]];
          rewrite S; cbv zeta in O;
          destruct (embedder_encode sv (map doc_text [d])) as [embeddings|e];
          [destruct O as [Ht O];
           destruct (collection_add sv _ _) as [c|e]|];
          destruct O as [-> O]
      end.
      * eexists (Some _), w2, _. split; [reflexivity|].
        split; [exact Ht|]. simpl. repeat split; auto; try discriminate.
        eexists. repeat split.
      * exists None, w2. eexists. split; [reflexivity|].
        split; [exact Ht|]. simpl.
        repeat split; auto; try discriminate; repeat constructor.
      * destruct O as [Hc Ht].
        exists None, w2. eexists. split; [reflexivity|].
        split; [exact Ht|]. simpl.
        repeat split; auto; try discriminate; repeat constructor.
    + exists None, w, []. cbn. rewrite app_nil_r.
      repeat split; auto; discriminate.
Qed.

Lemma add_calls_app xs ys : add_calls (xs ++ ys) = add_calls xs ++ add_calls ys.
Proof. unfold add_calls. apply flat_map_app. Qed.

(** The loop over the files: it never raises, appends one record per
    successful file, and each of them has had its own request. *)
Lemma collect_from sv files : forall acc w,
  exists docs w' new,
    for_each files acc (Pipeline.collect_step sv) w = (Ok (acc ++ docs), w')
    /\ Pipeline.trace w' = Pipeline.trace w ++ new
    /\ length docs <= length (filter (readable sv) files)
    /\ length (add_calls new) <= length files
    /\ Forall (fun d => In (doc_file_path d) files
                        /\ readable sv (doc_file_path d) = true) docs
    /\ (forall d, In d docs ->
          exists req,
            In (EvAdd req) new
            /\ add_ids req = [doc_id d]
            /\ add_documents req = [doc_text d])
    /\ (docs = [] ->
        Pipeline.collection w' = Pipeline.collection w
        /\ Forall (fun ev => per_document_event ev = true) new)
    /\ ((forall f, In f files -> readable sv f = false) ->
        docs = [] /\ w' = w).
Proof.
  induction files as [|f files IH]; intros acc w.
  - exists [], w, []. cbn. rewrite !app_nil_r.
    repeat split; auto. intros d [].
  - destruct (process_single_document_cases sv f w)
      as [r [w1 [new1 [P [T1 [L1 [U1 C1]]]]]]].
    cbn [for_each bind Pipeline.io_monad]. unfold Pipeline.collect_step at 1.
    cbn [bind Pipeline.io_monad]. rewrite P.
    destruct r as [d|].
    + destruct C1 as [R1 [F1 [req [N1 [I1 D1]]]]].
      destruct (IH (acc ++ [d]) w1)
        as [docs [w2 [new2 [E [T2 [L2 [A2 [Fa [Rq [_ _]]]]]]]]]].
      exists (d :: docs), w2, (new1 ++ new2).
      cbn [ret Pipeline.io_monad]. rewrite E, <- app_assoc. cbn [app].
      split; [reflexivity|]. split; [now rewrite T2, T1, app_assoc|].
      split; [simpl; rewrite R1; simpl; lia|].
      split; [rewrite add_calls_app, length_app; simpl; lia|].
      split.
      { constructor.
        - rewrite F1. split; [now left|auto].
        - eapply Forall_impl; [|exact Fa]. intros x [Hx Hr].
          split; [now right|auto]. }
      split.
      { intros x [<-|Hx].
        - exists req. split; [|auto]. apply in_or_app. left.
          rewrite N1. simpl. auto.
        - destruct (Rq x Hx) as [rq [Hin Hrq]]. exists rq.
          split; [apply in_or_app; auto|auto]. }
      split; [discriminate|].
      intros Hall. rewrite (Hall f) in R1 by now left. discriminate.
    + destruct C1 as [Cc Fp].
      destruct (IH acc w1)
        as [docs [w2 [new2 [E [T2 [L2 [A2 [Fa [Rq [Em Un]]]]]]]]]].
      exists docs, w2, (new1 ++ new2).
      cbn [ret Pipeline.io_monad]. rewrite E.
      split; [reflexivity|]. split; [now rewrite T2, T1, app_assoc|].
      split; [simpl; destruct (readable sv f); simpl; lia|].
      split; [rewrite add_calls_app, length_app; simpl; lia|].
      split.
      { eapply Forall_impl; [|exact Fa]. intros x [Hx Hr].
        split; [now right|auto]. }
      split.
      { intros x Hx. destruct (Rq x Hx) as [rq [Hin Hrq]]. exists rq.
        split; [apply in_or_app; auto|auto]. }
      split.
      { intros Hd. destruct (Em Hd) as [Hc Hf]. split; [congruence|].
        apply Forall_app; auto. }
      intros Hall. destruct (U1 (Hall f (or_introl eq_refl))) as [_ ->].
      apply Un. intros g Hg. apply Hall. now right.
Qed.

(** [process_documents] is the loop followed, when a record was
    collected, by the encoding of all texts, one request for all records
    and the two sink writes; only these last steps can raise. *)
Lemma process_documents_cases sv data_path limit w :
  let files :=
    slice_to (ProcessorUtils.get_document_files sv data_path) limit in
  exists docs wm r w' batch,
    Pipeline.collect sv files w = (Ok docs, wm)
    /\ Pipeline.process_documents sv data_path limit w = (r, w')
    /\ Pipeline.trace w' = Pipeline.trace wm ++ batch
    /\ (docs = [] -> r = Ok [] /\ w' = wm /\ batch = [])
    /\ (docs <> [] ->
        r <> Ok []
        /\ (forall docs', r = Ok docs' -> docs' = docs)
        /\ match embedder_encode sv (map doc_text docs) with
           | Raise e => r = Raise e /\ batch = [EvEncode (map doc_text docs)]
           | Ok embeddings =>
               exists rest,
                 batch = EvEncode (map doc_text docs)
                         :: EvAdd (store_request sv docs embeddings) :: rest
                 /\ Forall (fun ev => is_sink_event ev = true) rest
                 /\ (forall docs', r = Ok docs' -> length rest = 2)
           end).
Proof.
  intros files. unfold Pipeline.process_documents. fold files.
  destruct (collect_from sv files [] w) as [docs [wm [new [E _]]]].
  fold (Pipeline.collect sv files) in E. cbn [app] in E.
  exists docs, wm. cbn [bind Pipeline.io_monad]. rewrite E.
  destruct docs as [|d ds].
  - exists (Ok []), wm, []. cbn. rewrite app_nil_r.
    repeat split; auto; congruence.
  - destruct (store_documents_spec sv d ds wm) as [r1 [w1 [S [_ O]]]].
    cbv zeta in S, O. rewrite S.
    destruct (embedder_encode sv (map doc_text (d :: ds)))
      as [embeddings|e].
    + destruct O as [Ht O].
      destruct (collection_add sv _ _) as [c|e]; destruct O as [-> O].
      * unfold Pipeline._save_results, Pipeline.emit, Pipeline.lift.
        cbn [bind ret Pipeline.io_monad
             Pipeline.collection Pipeline.trace Pipeline.clock].
        destruct (write_json sv (d :: ds)) as [[]|e];
          [destruct (write_csv sv _) as [[]|e]|];
          (do 3 eexists; split; [reflexivity|]; split; [reflexivity|];
           split; [cbn; rewrite Ht, <- !app_assoc; reflexivity|];
           split; [discriminate|]; intros _; split; [discriminate|];
           split; [intros docs' [= <-]; reflexivity || discriminate
                  |eexists; split; [reflexivity|];
                   split; [repeat constructor
                          |intros docs'; reflexivity || discriminate]]).
      * do 3 eexists. split; [reflexivity|]. split; [reflexivity|].
        split; [exact Ht|]. split; [discriminate|]. intros _.
        split; [discriminate|]. split; [discriminate|].
        exists []. repeat split; auto. discriminate.
    + destruct O as [-> [_ Ht]].
      do 3 eexists. split; [reflexivity|]. split; [reflexivity|].
      split; [exact Ht|]. split; [discriminate|]. intros _.
      split; [discriminate|]. split; [discriminate|]. auto.
Qed.

Lemma slice_to_length {A} (xs : list A) limit :
  length (slice_to xs limit) <= length xs.
Proof.
  unfold slice_to. destruct (0 <=? limit)%Z;
    rewrite length_firstn; apply Nat.le_min_r.
Qed.

Lemma per_document_not_sink ev :
  per_document_event ev = true -> is_sink_event ev = false.
Proof. destruct ev; simpl; auto; discriminate. Qed.

(** C3, as stated, fails: a file whose record the collection refuses
    does not succeed, so the batch returns the empty list, yet the
    collection was called for it. *)
Lemma empty_batch_reaches_the_store :
  ~ (forall (sv : services) data_path limit (w w' : Pipeline.world sv),
        Pipeline.process_documents sv data_path limit w = (Ok [], w') ->
        add_calls (Pipeline.trace w') = add_calls (Pipeline.trace w)).
Proof.
  intros H.
  pose proof (H Scenario.store_down (lit "data") 50%Z
                (Scenario.start Scenario.store_down [])
                (snd (Pipeline.process_documents
                        Scenario.store_down (lit "data") 50%Z
                        (Scenario.start Scenario.store_down [])))
                eq_refl) as F.
  vm_compute in F. discriminate F.
Qed.

(** C3 (amended): [process_documents] returns at most one record per
    input file and none for a file whose OCR text is empty, blank or
    shorter than ten characters; when no file succeeds it returns the
    empty list without raising, without the batch-level store pass and
    without the sink, the only calls on the collection being the refused
    per-document requests of [process_single_document]; when no file is
    readable it touches nothing at all. *)
Theorem process_documents_batch :
  forall (sv : services) (data_path : str) (limit : Z)
         (w : Pipeline.world sv),
    let all_files := ProcessorUtils.get_document_files sv data_path in
    let files := slice_to all_files limit in
    exists r w' new,
      Pipeline.process_documents sv data_path limit w = (r, w')
      /\ Pipeline.trace w' = Pipeline.trace w ++ new
      /\ length files <= length all_files
      /\ (forall docs,
             r = Ok docs ->
             length docs <= length (filter (readable sv) files)
             /\ length docs <= length files
             /\ forall d, In d docs ->
                          In (doc_file_path d) files
                          /\ readable sv (doc_file_path d) = true)
      /\ (fst (Pipeline.collect sv files w) = Ok [] <-> r = Ok [])
      /\ (r = Ok [] ->
          Pipeline.collection w' = Pipeline.collection w
          /\ Forall (fun ev => per_document_event ev = true) new
          /\ Forall (fun ev => is_sink_event ev = false) new)
      /\ ((forall f, In f files -> readable sv f = false) ->
          r = Ok [] /\ w' = w).
Proof.
  intros sv data_path limit w all_files files.
  destruct (process_documents_cases sv data_path limit w)
    as [docs [wm [r [w' [batch [C [P [T [He Hn]]]]]]]]].
  fold all_files in C, P. fold files in C, P.
  destruct (collect_from sv files [] w)
    as [docs0 [wm0 [new0 [C0 [T0 [L0 [_ [F0 [_ [E0 U0]]]]]]]]]].
  fold (Pipeline.collect sv files) in C0. cbn [app] in C0.
  rewrite C in C0. injection C0 as <- <-.
  exists r, w', (new0 ++ batch).
  split; [exact P|]. split; [now rewrite T, T0, app_assoc|].
  split; [apply slice_to_length|].
  assert (forall docs', r = Ok docs' -> docs' = docs) as Same.
  { intros docs' R. destruct docs as [|d ds].
    - destruct (He eq_refl) as [R' _]. congruence.
    - destruct (Hn ltac:(discriminate)) as [_ [Hs _]]. now apply Hs. }
  split.
  { intros docs' R. rewrite (Same docs' R). split; [exact L0|].
    split.
    - etransitivity; [exact L0|]. apply filter_length_le.
    - intros d Hd. rewrite Forall_forall in F0. now apply F0. }
  split.
  { rewrite C. cbn [fst]. split.
    - intros [= ->]. now destruct (He eq_refl).
    - intros R. f_equal. symmetry. now apply Same. }
  split.
  { intros R. pose proof (Same [] R) as D. symmetry in D.
    destruct (He D) as [_ [-> ->]]. rewrite app_nil_r.
    destruct (E0 D) as [Hc Hf]. repeat split; auto.
    eapply Forall_impl; [|exact Hf]. apply per_document_not_sink. }
  intros Hall. destruct (U0 Hall) as [D ->].
  destruct (He D) as [R [-> _]]. auto.
Qed.

Lemma process_documents_batch_witness :
  fst (Pipeline.collect Scenario.store_down
         (slice_to (ProcessorUtils.get_document_files
                      Scenario.store_down (lit "data")) 50%Z)
         (Scenario.start Scenario.store_down [])) = Ok []
  /\ fst (Pipeline.process_documents Scenario.store_down (lit "data") 50%Z
            (Scenario.start Scenario.store_down [])) = Ok [].
Proof.
  destruct (process_documents_batch Scenario.store_down (lit "data") 50%Z
              (Scenario.start Scenario.store_down []))
    as [r [w' [new [P [_ [_ [_ [[I _] _]]]]]]]].
  assert (fst (Pipeline.collect Scenario.store_down
                 (slice_to (ProcessorUtils.get_document_files
                              Scenario.store_down (lit "data")) 50%Z)
                 (Scenario.start Scenario.store_down [])) = Ok []) as C
      by (vm_compute; reflexivity).
  split; [exact C|]. rewrite P. exact (I C).
Defined.

(* ===================================================================== *)
(** * Every stored record is submitted twice *)
(* ===================================================================== *)

Lemma add_calls_In req events :
  In (EvAdd req) events -> In (add_ids req) (add_calls events).
Proof.
  intros H. unfold add_calls. apply in_flat_map.
  exists (EvAdd req). split; simpl; auto.
Qed.

Lemma add_calls_sink events :
  Forall (fun ev => is_sink_event ev = true) events -> add_calls events = [].
Proof.
  induction 1 as [|ev events H _ IH]; auto.
  destruct ev; try discriminate; exact IH.
Qed.

(** [process_single_document] in closed form. *)
Lemma process_single_document_closed_form sv file_path w :
  Pipeline.process_single_document sv file_path w
  = if readable sv file_path then
      let cleaned_text :=
        ProcessorUtils.clean_text
          (ProcessorUtils.extract_text_from_image sv file_path) in
      let category := Pipeline._classify_document file_path cleaned_text in
      match Pipeline._extract_entities_with_llm sv cleaned_text category with
      | Raise _ => (Ok None, w)
      | Ok entities =>
          let d := record_of sv file_path entities
                     (datetime_now sv (Pipeline.clock w)) in
          match embedder_encode sv [cleaned_text] with
          | Raise _ =>
              (Ok None,
               after sv w (Pipeline.collection w) [EvEncode [cleaned_text]])
          | Ok embeddings =>
              let req := store_request sv [d] embeddings in
              match collection_add sv (Pipeline.collection w) req with
              | Raise _ =>
                  (Ok None,
                   after sv w (Pipeline.collection w)
                     [EvEncode [cleaned_text]; EvAdd req])
              | Ok c =>
                  (Ok (Some d),
                   after sv w c [EvEncode [cleaned_text]; EvAdd req])
              end
          end
      end
    else (Ok None, w).
Proof.
  unfold Pipeline.process_single_document, Pipeline.try_except, readable.
  set (text := ProcessorUtils.extract_text_from_image sv file_path).
  destruct (match text with [] => true | _ :: _ => false end
            || (length (strip text) <? 10)) eqn:C; [reflexivity|].
  cbn [negb]. cbv zeta.
  set (cleaned_text := ProcessorUtils.clean_text text).
  set (category := Pipeline._classify_document file_path cleaned_text).
  unfold Pipeline.lift, Pipeline.now. cbn [bind Pipeline.io_monad].
  destruct (Pipeline._extract_entities_with_llm sv cleaned_text category)
    as [entities|e]; [|reflexivity].
  unfold Pipeline._store_documents, Pipeline.collection_add_io,
    Pipeline.emit, Pipeline.lift.
  cbn [bind ret Pipeline.io_monad map doc_text
       Pipeline.collection Pipeline.trace Pipeline.clock].
  destruct (embedder_encode sv [cleaned_text]) as [embeddings|e];
    [|reflexivity].
  unfold store_request, record_of, after. fold text. fold cleaned_text.
  fold category.
  cbn [map doc_id doc_text doc_category doc_filename doc_word_count
       doc_entities Pipeline.collection Pipeline.trace Pipeline.clock].
  destruct (collection_add sv (Pipeline.collection w) _) as [c|e];
    cbn [Pipeline.collection Pipeline.trace Pipeline.clock];
    rewrite <- app_assoc; reflexivity.
Qed.

Lemma add_requests_app a b :
  add_requests (a ++ b) = add_requests a ++ add_requests b.
Proof. apply flat_map_app. Qed.

Lemma add_calls_requests events :
  add_calls events = map add_ids (add_requests events).
Proof.
  unfold add_calls, add_requests.
  induction events as [|ev events IH]; auto.
  destruct ev; cbn;
    [exact IH|f_equal; exact IH|exact IH|exact IH].
Qed.

Lemma replay_app sv c a : forall b,
  replay sv c (a ++ b) = replay sv (replay sv c a) b.
Proof.
  revert c. induction a as [|req a IH]; intros c b; auto.
  cbn. destruct (collection_add sv c req); apply IH.
Qed.

Lemma accepted_app sv c a : forall b,
  accepted sv c (a ++ b)
  = accepted sv c a ++ accepted sv (replay sv c a) b.
Proof.
  revert c. induction a as [|req a IH]; intros c b; auto.
  cbn. destruct (collection_add sv c req); [cbn; f_equal|]; apply IH.
Qed.

(** One file: the collection is called for real, and it accepts exactly
    the request of a record that is returned. *)
Lemma process_single_document_replay sv file_path w :
  exists r w' new,
    Pipeline.process_single_document sv file_path w = (Ok r, w')
    /\ Pipeline.trace w' = Pipeline.trace w ++ new
    /\ Pipeline.collection w'
       = replay sv (Pipeline.collection w) (add_requests new)
    /\ map add_ids (accepted sv (Pipeline.collection w) (add_requests new))
       = match r with
         | Some d => [[doc_id d]]
         | None => []
         end
    /\ Forall (fun req => length (add_ids req) = 1) (add_requests new).
Proof.
  rewrite process_single_document_closed_form. cbv zeta.
  destruct (readable sv file_path);
    [|exists None, w, []; rewrite app_nil_r; cbn; auto].
  destruct (Pipeline._extract_entities_with_llm sv _ _) as [entities|e];
    [|exists None, w, []; rewrite app_nil_r; cbn; auto].
  destruct (embedder_encode sv _) as [embeddings|e].
  - destruct (collection_add sv (Pipeline.collection w) _) as [c|e] eqn:A;
      do 3 eexists; (split; [reflexivity|]);
      (split; [reflexivity|]); cbn; rewrite A; cbn; auto.
  - do 3 eexists. split; [reflexivity|]. split; [reflexivity|]. cbn. auto.
Qed.

(** The loop over the files: the collection ends as the requests made
    leave it, and the requests it accepted are those of the records
    collected, one id each, in order. *)
Lemma collect_replay sv files : forall acc w,
  exists docs w' new,
    for_each files acc (Pipeline.collect_step sv) w = (Ok (acc ++ docs), w')
    /\ Pipeline.trace w' = Pipeline.trace w ++ new
    /\ Pipeline.collection w'
       = replay sv (Pipeline.collection w) (add_requests new)
    /\ map add_ids (accepted sv (Pipeline.collection w) (add_requests new))
       = map (fun d => [doc_id d]) docs
    /\ Forall (fun req => length (add_ids req) = 1) (add_requests new).
Proof.
  induction files as [|f files IH]; intros acc w.
  - exists [], w, []. cbn. rewrite !app_nil_r. auto.
  - destruct (process_single_document_replay sv f w)
      as [r [w1 [new1 [P [T1 [C1 [A1 S1]]]]]]].
    cbn [for_each bind Pipeline.io_monad]. unfold Pipeline.collect_step at 1.
    cbn [bind Pipeline.io_monad]. rewrite P.
    destruct r as [d|]; cbn [ret Pipeline.io_monad].
    + destruct (IH (acc ++ [d]) w1) as [docs [w2 [new2 [E [T2 [C2 [A2 S2]]]]]]].
      exists (d :: docs), w2, (new1 ++ new2).
      rewrite E, <- app_assoc. cbn [app].
      split; [reflexivity|]. split; [now rewrite T2, T1, app_assoc|].
      rewrite add_requests_app, replay_app, accepted_app, map_app.
      rewrite <- C1, C2, A1, A2.
      split; [reflexivity|]. split; [reflexivity|].
      apply Forall_app. auto.
    + destruct (IH acc w1) as [docs [w2 [new2 [E [T2 [C2 [A2 S2]]]]]]].
      exists docs, w2, (new1 ++ new2). rewrite E.
      split; [reflexivity|]. split; [now rewrite T2, T1, app_assoc|].
      rewrite add_requests_app, replay_app, accepted_app, map_app.
      rewrite <- C1, C2, A1, A2.
      split; [reflexivity|]. split; [reflexivity|].
      apply Forall_app. auto.
Qed.

(** The batch pass after the loop. *)
Lemma process_documents_store sv data_path limit w docs wm :
  Pipeline.collect sv
    (slice_to (ProcessorUtils.get_document_files sv data_path) limit) w
  = (Ok docs, wm) ->
  exists r w' batch,
    Pipeline.process_documents sv data_path limit w = (r, w')
    /\ Pipeline.trace w' = Pipeline.trace wm ++ batch
    /\ Pipeline.collection w'
       = replay sv (Pipeline.collection wm) (add_requests batch)
    /\ match docs with
       | [] => r = Ok [] /\ batch = []
       | _ =>
           match embedder_encode sv (map doc_text docs) with
           | Raise e => r = Raise e /\ add_requests batch = []
           | Ok embeddings =>
               let req := store_request sv docs embeddings in
               add_requests batch = [req]
               /\ match collection_add sv (Pipeline.collection wm) req with
                  | Raise e => r = Raise e
                  | Ok c => r = Ok docs \/ exists e, r = Raise e
                  end
           end
       end.
Proof.
  intros C. unfold Pipeline.process_documents. cbv zeta.
  cbn [bind Pipeline.io_monad]. rewrite C.
  destruct docs as [|d ds].
  { exists (Ok []), wm, []. cbn. rewrite app_nil_r. auto. }
  destruct (store_documents_spec sv d ds wm) as [r1 [w1 [S [_ O]]]].
  cbv zeta in S, O. rewrite S.
  destruct (embedder_encode sv (map doc_text (d :: ds))) as [embeddings|e].
  - destruct O as [Ht O].
    destruct (collection_add sv (Pipeline.collection wm)
                (store_request sv (d :: ds) embeddings)) as [c|e] eqn:A;
      destruct O as [-> Hc].
    + unfold Pipeline._save_results, Pipeline.emit, Pipeline.lift.
      cbn [bind ret Pipeline.io_monad
           Pipeline.collection Pipeline.trace Pipeline.clock].
      destruct (write_json sv (d :: ds)) as [[]|e];
        [destruct (write_csv sv _) as [[]|e]|];
        (do 3 eexists; split; [reflexivity|];
         cbn [Pipeline.collection Pipeline.trace Pipeline.clock];
         split; [rewrite Ht, <- !app_assoc; reflexivity|];
         cbn; rewrite A; cbn; eauto).
    + exists (Raise e), w1, [EvEncode (map doc_text (d :: ds));
                             EvAdd (store_request sv (d :: ds) embeddings)].
      split; [reflexivity|]. split; [exact Ht|].
      cbn. rewrite A. cbn. auto.
  - destruct O as [-> [Hc Ht]].
    exists (Raise e), w1, [EvEncode (map doc_text (d :: ds))].
    split; [reflexivity|]. split; [exact Ht|]. cbn. auto.
Qed.

(** C10, as stated, fails: when the embedder raises on the batch, the
    run raises after the loop, and the records of the files that succeeded
    have each been submitted once. *)
Lemma batch_encode_failure_adds_once :
  ~ (forall (sv : services) data_path limit (w wm : Pipeline.world sv) docs,
        Pipeline.collect sv
          (slice_to (ProcessorUtils.get_document_files sv data_path) limit) w
        = (Ok docs, wm) ->
        forall d,
          In d docs ->
          2 <= count_occ (list_eq_dec ascii_dec)
                 (concat
                    (add_calls
                       (Pipeline.trace
                          (snd (Pipeline.process_documents
                                  sv data_path limit w)))))
                 (doc_id d)).
Proof.
  intros H.
  destruct (Pipeline.collect Scenario.batch_encoder_down
              (slice_to (ProcessorUtils.get_document_files
                           Scenario.batch_encoder_down (lit "data")) 50%Z)
              (Scenario.start Scenario.batch_encoder_down []))
    as [r wm] eqn:C.
  pose proof (f_equal fst C) as Cf. vm_compute in Cf. subst r.
  specialize (H Scenario.batch_encoder_down (lit "data") 50%Z
                (Scenario.start Scenario.batch_encoder_down []) wm _ C
                _ (or_introl eq_refl)).
  vm_compute in H. lia.
Qed.

(** C10 (amended): in a batch run of the Django pipeline let [docs] be
    the records of the files that succeeded.  While the files were
    processed the collection was called with requests of one id each, and
    the requests it accepted are exactly those of [docs], in order.  If
    [docs] is not empty and the embedder answers for all their texts, the
    batch pass then calls the collection once more, with the ids of all
    of [docs], so that the id of every record is submitted twice; if the
    embedder raises there, the run raises and nothing more is submitted.
    In a run that returns records, the collection has accepted the id of
    each of them twice.  The collection is in the end what these calls
    made of it. *)
Theorem batch_documents_added_twice :
  forall (sv : services) (data_path : str) (limit : Z)
         (w : Pipeline.world sv),
    let files :=
      slice_to (ProcessorUtils.get_document_files sv data_path) limit in
    exists docs wm per_file r w' batch,
      Pipeline.collect sv files w = (Ok docs, wm)
      /\ Pipeline.trace wm = Pipeline.trace w ++ per_file
      /\ Pipeline.process_documents sv data_path limit w = (r, w')
      /\ Pipeline.trace w' = Pipeline.trace w ++ per_file ++ batch
      /\ (forall docs', r = Ok docs' -> docs' = docs)
      /\ Pipeline.collection wm
         = replay sv (Pipeline.collection w) (add_requests per_file)
      /\ Pipeline.collection w'
         = replay sv (Pipeline.collection w) (add_requests (per_file ++ batch))
      /\ map add_ids
           (accepted sv (Pipeline.collection w) (add_requests per_file))
         = map (fun d => [doc_id d]) docs
      /\ Forall (fun req => length (add_ids req) = 1) (add_requests per_file)
      /\ (docs = [] -> batch = [])
      /\ (docs <> [] ->
          match embedder_encode sv (map doc_text docs) with
          | Raise e => r = Raise e /\ add_requests batch = []
          | Ok embeddings =>
              add_requests batch = [store_request sv docs embeddings]
              /\ add_ids (store_request sv docs embeddings) = map doc_id docs
              /\ forall d,
                   In d docs ->
                   2 <= count_occ (list_eq_dec ascii_dec)
                          (concat
                             (map add_ids
                                (add_requests (per_file ++ batch))))
                          (doc_id d)
          end)
      /\ (forall docs',
             r = Ok docs' -> docs' <> [] ->
             forall d,
               In d docs' ->
               2 <= count_occ (list_eq_dec ascii_dec)
                      (concat
                         (map add_ids
                            (accepted sv (Pipeline.collection w)
                               (add_requests (per_file ++ batch)))))
                      (doc_id d)).
Proof.
  intros sv data_path limit w files.
  destruct (collect_replay sv files [] w)
    as [docs [wm [per_file [C [T1 [C1 [A1 S1]]]]]]].
  fold (Pipeline.collect sv files) in C. cbn [app] in C.
  destruct (process_documents_store sv data_path limit w docs wm C)
    as [r [w' [batch [P [T2 [C2 B]]]]]].
  exists docs, wm, per_file, r, w', batch.
  split; [exact C|]. split; [exact T1|]. split; [exact P|].
  split; [now rewrite T2, T1, app_assoc|].
  assert (forall docs', r = Ok docs' -> docs' = docs) as Same.
  { intros docs' R. destruct docs as [|d ds].
    - destruct B as [-> _]. congruence.
    - destruct (embedder_encode sv (map doc_text (d :: ds))) as [emb|e].
      + destruct B as [_ B].
        destruct (collection_add sv _ _); [|congruence].
        destruct B as [->|[e ->]]; congruence.
      + destruct B as [-> _]. congruence. }
  split; [exact Same|]. split; [exact C1|].
  split; [now rewrite add_requests_app, replay_app, <- C1|].
  split; [exact A1|]. split; [exact S1|].
  assert (forall d, In d docs ->
            0 < count_occ (list_eq_dec ascii_dec)
                  (concat (map add_ids
                             (accepted sv (Pipeline.collection w)
                                (add_requests per_file))))
                  (doc_id d)) as Once.
  { intros d Hd. rewrite A1. apply count_occ_In, in_concat.
    exists [doc_id d]. split; [|now left].
    apply in_map_iff. exists d. auto. }
  assert (forall reqs : list add_request,
            incl (accepted sv (Pipeline.collection w) reqs) reqs) as Sub.
  { intros reqs. generalize (Pipeline.collection w).
    induction reqs as [|req reqs IH]; intros c x Hx; [destruct Hx|].
    cbn in Hx. destruct (collection_add sv c req).
    - destruct Hx as [<-|Hx]; [now left|right; eapply IH; eauto].
    - right. eapply IH; eauto. }
  split.
  { intros ->. now destruct B. }
  split.
  { intros N. destruct docs as [|d0 ds]; [congruence|].
    destruct (embedder_encode sv (map doc_text (d0 :: ds)))
      as [embeddings|e]; [|exact B].
    cbv zeta in B. destruct B as [Hb _].
    split; [exact Hb|]. split; [reflexivity|].
    intros d Hd.
    rewrite add_requests_app, map_app, concat_app, count_occ_app, Hb.
    assert (0 < count_occ (list_eq_dec ascii_dec)
                  (concat (map add_ids (add_requests per_file))) (doc_id d))
      as H1.
    { apply count_occ_In, in_concat. exists [doc_id d]. split; [|now left].
      assert (In [doc_id d]
                (map add_ids
                   (accepted sv (Pipeline.collection w)
                      (add_requests per_file)))) as Hin
          by (rewrite A1; apply in_map_iff; exists d; auto).
      apply in_map_iff in Hin as [req [E Hin]].
      apply in_map_iff. exists req. split; [exact E|]. now apply Sub. }
    assert (0 < count_occ (list_eq_dec ascii_dec)
                  (concat (map add_ids
                             [store_request sv (d0 :: ds) embeddings]))
                  (doc_id d)) as H2.
    { apply count_occ_In. cbn [map concat store_request add_ids].
      rewrite app_nil_r. exact (in_map doc_id _ _ Hd). }
    exact (Nat.add_le_mono 1 _ 1 _ H1 H2). }
  intros docs' R N d Hd. rewrite (Same docs' R) in *.
  destruct docs as [|d0 ds]; [congruence|].
  rewrite add_requests_app, accepted_app, map_app, concat_app, count_occ_app.
  rewrite <- C1.
  destruct (embedder_encode sv (map doc_text (d0 :: ds)))
    as [embeddings|e]; [|destruct B; congruence].
  cbv zeta in B. destruct B as [Hb B]. rewrite Hb.
  destruct (collection_add sv (Pipeline.collection wm)
              (store_request sv (d0 :: ds) embeddings)) as [c|e] eqn:A;
    [|congruence].
  cbn [accepted]. rewrite A.
  assert (0 < count_occ (list_eq_dec ascii_dec)
                (concat (map add_ids
                           [store_request sv (d0 :: ds) embeddings]))
                (doc_id d)) as H2.
  { apply count_occ_In. cbn [map concat store_request add_ids].
    rewrite app_nil_r. exact (in_map doc_id _ _ Hd). }
  exact (Nat.add_le_mono 1 _ 1 _ (Once d Hd) H2).
Qed.

Lemma batch_documents_added_twice_witness :
  exists docs w',
    Pipeline.process_documents Scenario.all_up (lit "data") 50%Z
      (Scenario.start Scenario.all_up []) = (Ok docs, w')
    /\ map doc_id docs = [lit "invoice_a.jpg"]
    /\ map add_ids (Pipeline.collection w')
       = [[lit "invoice_a.jpg"]; [lit "invoice_a.jpg"]]
    /\ forall d,
         In d docs ->
         2 <= count_occ (list_eq_dec ascii_dec)
                (concat
                   (map add_ids
                      (accepted Scenario.all_up []
                         (add_requests (Pipeline.trace w')))))
                (doc_id d).
Proof.
  destruct (batch_documents_added_twice Scenario.all_up (lit "data") 50%Z
              (Scenario.start Scenario.all_up []))
    as [docs [wm [per_file [r [w' [batch
          [C [_ [P [T [_ [_ [_ [_ [_ [_ [_ Twice]]]]]]]]]]]]]]]]].
  pose proof (f_equal fst C) as Cf. vm_compute in Cf. injection Cf as <-.
  pose proof (f_equal fst P) as Pf. vm_compute in Pf. subst r.
  eexists _, w'. split; [exact P|]. split; [reflexivity|].
  split.
  - pose proof (f_equal snd P) as Pw. cbn [snd] in Pw. rewrite <- Pw.
    vm_compute. reflexivity.
  - intros d Hin. rewrite T. cbn [Scenario.start Pipeline.trace app].
    exact (Twice _ eq_refl ltac:(discriminate) d Hin).
Defined.

(* ===================================================================== *)
(** * More on the text helpers *)
(* ===================================================================== *)

Lemma dropwhile_length {A} (p : A -> bool) l :
  length (dropwhile p l) <= length l.
Proof.
  induction l as [|x l IH]; simpl; auto. destruct (p x); simpl; lia.
Qed.

Lemma strip_length s : length (strip s) <= length s.
Proof.
  unfold strip, rstrip, lstrip. rewrite length_rev.
  etransitivity; [apply dropwhile_length|]. rewrite length_rev.
  apply dropwhile_length.
Qed.

Lemma sub_spaces_length s b : length (sub_spaces_from b s) <= length s.
Proof.
  revert b. induction s as [|c s IH]; intros b; simpl; auto.
  destruct (isspace c); [destruct b|]; simpl.
  - etransitivity; [apply IH|]. apply Nat.le_succ_diag_r.
  - apply le_n_S, IH.
  - apply le_n_S, IH.
Qed.

Lemma rstrip_ends_clean s : ends_clean (rstrip s).
Proof.
  unfold ends_clean, rstrip. rewrite rev_involutive.
  apply (lstrip_starts_clean (rev s)).
Qed.

(** X1: the Django [clean_text] returns a string made of allow-listed
    characters whose only whitespace is the plain space, without
    whitespace at either end, never longer than its input, and never of
    one or two characters: it is empty or has at least three. *)
Theorem clean_text_shape :
  forall t : str,
    forallb ProcessorUtils.kept (ProcessorUtils.clean_text t) = true
    /\ (forall c, In c (ProcessorUtils.clean_text t) ->
                  isspace c = true -> c = " "%char)
    /\ starts_clean (ProcessorUtils.clean_text t)
    /\ ends_clean (ProcessorUtils.clean_text t)
    /\ (ProcessorUtils.clean_text t = []
        \/ 3 <= length (ProcessorUtils.clean_text t))
    /\ length (ProcessorUtils.clean_text t) <= length t.
Proof.
  intros t. split; [apply kept_clean_text|].
  rewrite clean_text_closed_form. cbv zeta.
  destruct (2 <? length (strip (ProcessorUtils.sub_special (sub_spaces t))))
    eqn:L.
  - split; [|split; [|split; [|split]]].
    + intros c Hc Hs. apply strip_incl in Hc.
      unfold ProcessorUtils.sub_special in Hc. apply filter_In in Hc as [Hc _].
      exact (single_spaced_space false (sub_spaces t) c
               (sub_spaces_single_spaced t false) Hc Hs).
    + apply rstrip_starts_clean, lstrip_starts_clean.
    + apply rstrip_ends_clean.
    + right. apply Nat.ltb_lt in L. exact L.
    + etransitivity; [apply strip_length|].
      etransitivity; [apply filter_length_le|]. apply sub_spaces_length.
  - repeat split; simpl; auto; try tauto; lia.
Qed.

(** ** The standalone [clean_text] joins the words of its input *)

Lemma forallb_rev {A} (p : A -> bool) l : forallb p (rev l) = forallb p l.
Proof.
  induction l as [|x l IH]; simpl; auto.
  rewrite forallb_app, IH. simpl. rewrite andb_true_r. apply andb_comm.
Qed.

Lemma dropwhile_app {A} (p : A -> bool) a b :
  dropwhile p (a ++ b)
  = if forallb p a then dropwhile p b else dropwhile p a ++ b.
Proof.
  induction a as [|x a IH]; simpl; auto.
  destruct (p x); simpl; auto.
Qed.

Lemma rstrip_app w x :
  rstrip (w ++ x) = if forallb isspace x then rstrip w else w ++ rstrip x.
Proof.
  unfold rstrip. rewrite rev_app_distr, dropwhile_app, forallb_rev.
  destruct (forallb isspace x); auto.
  now rewrite rev_app_distr, rev_involutive.
Qed.

Lemma rstrip_word c cur :
  isspace c = false -> rstrip (rev (c :: cur)) = rev (c :: cur).
Proof.
  intros H. unfold rstrip. rewrite rev_involutive. simpl. now rewrite H.
Qed.

Lemma sub_spaces_all_space s b :
  forallb isspace (sub_spaces_from b s) = forallb isspace s.
Proof.
  revert b. induction s as [|c s IH]; intros b; simpl; auto.
  destruct (isspace c) eqn:Hc; [destruct b|]; simpl; rewrite ?Hc, IH; auto.
Qed.

Lemma split_ws_blank s :
  forallb isspace s = true -> split_ws_acc [] s = [].
Proof.
  induction s as [|c s IH]; simpl; auto.
  destruct (isspace c); simpl; auto. discriminate.
Qed.

Lemma split_ws_nonempty s : forall cur,
  cur <> [] \/ forallb isspace s = false -> split_ws_acc cur s <> [].
Proof.
  induction s as [|c s IH]; intros cur H; simpl.
  - destruct cur; [|discriminate]. destruct H; [congruence|discriminate].
  - destruct (isspace c) eqn:Hc.
    + destruct cur; [|discriminate]. apply IH. right.
      destruct H as [H|H]; [congruence|]. simpl in H. now rewrite Hc in H.
    + apply IH. left. discriminate.
Qed.

Lemma lstrip_sub_spaces s b :
  lstrip (sub_spaces_from b s) = sub_spaces_from true s.
Proof.
  unfold lstrip. revert b. induction s as [|c s IH]; intros b; simpl; auto.
  destruct (isspace c) eqn:Hc.
  - destruct b; [apply IH|]. simpl. apply IH.
  - simpl. now rewrite Hc.
Qed.

Lemma join_words s :
  (rstrip (sub_spaces_from true s) = join (lit " ") (split_ws_acc [] s))
  /\ (forall c cur,
         isspace c = false ->
         rstrip (rev (c :: cur) ++ sub_spaces_from false s)
         = join (lit " ") (split_ws_acc (c :: cur) s)).
Proof.
  induction s as [|x s [IHp IHq]]; split.
  - reflexivity.
  - intros c cur Hc. cbn [sub_spaces_from split_ws_acc join].
    rewrite app_nil_r. now apply rstrip_word.
  - cbn [sub_spaces_from split_ws_acc]. destruct (isspace x) eqn:Hx.
    + exact IHp.
    + exact (IHq x [] Hx).
  - intros c cur Hc. cbn [sub_spaces_from split_ws_acc].
    destruct (isspace x) eqn:Hx.
    + rewrite rstrip_app.
      change (forallb isspace (" "%char :: sub_spaces_from true s))
        with (forallb isspace (sub_spaces_from true s)).
      rewrite sub_spaces_all_space.
      destruct (forallb isspace s) eqn:B.
      * rewrite (split_ws_blank s B). cbn [join]. now apply rstrip_word.
      * change (" "%char :: sub_spaces_from true s)
          with ([" "%char] ++ sub_spaces_from true s).
        rewrite rstrip_app, sub_spaces_all_space, B, IHp.
        pose proof (split_ws_nonempty s [] (or_intror B)) as N.
        destruct (split_ws_acc [] s) as [|t ts]; [congruence|].
        reflexivity.
    + change (rev (c :: cur) ++ x :: sub_spaces_from false s)
        with (rev (c :: cur) ++ [x] ++ sub_spaces_from false s).
      rewrite app_assoc.
      change (rev (c :: cur) ++ [x]) with (rev (x :: c :: cur)).
      exact (IHq x (c :: cur) Hx).
Qed.

Lemma split_ws_trailing ws : forall cur,
  forallb isspace ws = true ->
  split_ws_acc cur ws = match cur with [] => [] | _ => [rev cur] end.
Proof.
  induction ws as [|c ws IH]; intros cur H; simpl; auto.
  simpl in H. destruct (isspace c); [|discriminate].
  destruct cur; rewrite IH; auto.
Qed.

Lemma split_ws_app_blank x ws : forall cur,
  forallb isspace ws = true ->
  split_ws_acc cur (x ++ ws) = split_ws_acc cur x.
Proof.
  induction x as [|c x IH]; intros cur H.
  - simpl. now apply split_ws_trailing.
  - simpl. destruct (isspace c); [destruct cur|]; rewrite ?IH; auto.
Qed.

Lemma split_ws_lstrip s : split_ws_acc [] (lstrip s) = split_ws_acc [] s.
Proof.
  unfold lstrip. induction s as [|c s IH]; simpl; auto.
  destruct (isspace c) eqn:Hc; auto. simpl. now rewrite Hc.
Qed.

Lemma split_ws_strip s : split_ws (strip s) = split_ws s.
Proof.
  unfold split_ws, strip. rewrite <- (split_ws_lstrip s).
  unfold rstrip.
  destruct (dropwhile_split isspace (rev (lstrip s))) as [ws [E F]].
  assert (lstrip s = rev (dropwhile isspace (rev (lstrip s))) ++ rev ws) as D.
  { rewrite <- rev_app_distr, <- E. symmetry. apply rev_involutive. }
  rewrite D at 2. rewrite split_ws_app_blank; auto.
  now rewrite forallb_rev.
Qed.

Lemma split_ws_sub_spaces s : forall b cur,
  (b = true -> cur = []) ->
  split_ws_acc cur (sub_spaces_from b s) = split_ws_acc cur s.
Proof.
  induction s as [|c s IH]; intros b cur H; simpl; auto.
  destruct (isspace c) eqn:Hc.
  - destruct b.
    + rewrite (H eq_refl). now apply IH.
    + simpl. destruct cur; now rewrite IH.
  - simpl. rewrite Hc. apply IH. discriminate.
Qed.

(** X2: the standalone [clean_text] is [' '.join(text.split())]: it
    returns the whitespace-separated words of its input joined by single
    spaces, so the words of the cleaned text are those of the input. *)
Theorem utils_clean_text_joins_words :
  forall t : str,
    Utils.clean_text t = join (lit " ") (split_ws t)
    /\ split_ws (Utils.clean_text t) = split_ws t.
Proof.
  intros t. rewrite utils_clean_text_closed_form. split.
  - unfold strip, sub_spaces. rewrite lstrip_sub_spaces.
    apply (proj1 (join_words t)).
  - rewrite split_ws_strip. unfold split_ws, sub_spaces.
    apply split_ws_sub_spaces. discriminate.
Qed.

(* ===================================================================== *)
(** * The outcome of [process_single_document] *)
(* ===================================================================== *)

(** X3: [process_single_document] never raises.  It returns a record
    exactly when the OCR text passes the gate, the entity extractor
    returns, the embedder answers and the collection accepts the request
    for this one record; in every other case it returns [None] and the
    collection is as before. *)
Theorem process_single_document_outcome :
  forall (sv : services) (file_path : str) (w : Pipeline.world sv),
    exists r w',
      Pipeline.process_single_document sv file_path w = (Ok r, w')
      /\ (r = None -> Pipeline.collection w' = Pipeline.collection w)
      /\ (forall d,
             r = Some d ->
             readable sv file_path = true
             /\ Pipeline._extract_entities_with_llm
                  sv (doc_text d) (doc_category d) = Ok (doc_entities d)
             /\ exists embeddings,
                  embedder_encode sv [doc_text d] = Ok embeddings
                  /\ collection_add sv (Pipeline.collection w)
                       (store_request sv [d] embeddings)
                     = Ok (Pipeline.collection w'))
      /\ (forall entities embeddings c,
             readable sv file_path = true ->
             Pipeline._extract_entities_with_llm sv
               (doc_text (record_of sv file_path entities []))
               (doc_category (record_of sv file_path entities []))
             = Ok entities ->
             embedder_encode sv [doc_text (record_of sv file_path entities [])]
             = Ok embeddings ->
             collection_add sv (Pipeline.collection w)
               (store_request sv
                  [record_of sv file_path entities
                     (datetime_now sv (Pipeline.clock w))] embeddings)
             = Ok c ->
             r = Some (record_of sv file_path entities
                         (datetime_now sv (Pipeline.clock w)))
             /\ Pipeline.collection w' = c).
Proof.
  intros sv file_path w. rewrite process_single_document_closed_form.
  cbv zeta.
  destruct (readable sv file_path) eqn:R.
  2:{ exists None, w. split; [reflexivity|]. split; [reflexivity|].
      split; [discriminate|]. intros ? ? ? F. discriminate F. }
  destruct (Pipeline._extract_entities_with_llm sv _ _) as [entities|e] eqn:X.
  2:{ exists None, w. split; [reflexivity|]. split; [reflexivity|].
      split; [discriminate|]. intros ents embs c _ X'.
      cbn [doc_text doc_category record_of] in X'.
      rewrite X in X'. discriminate X'. }
  destruct (embedder_encode sv _) as [embeddings|e] eqn:E.
  2:{ eexists None, _. split; [reflexivity|]. split; [reflexivity|].
      split; [discriminate|]. intros ents embs c _ X' E'.
      cbn [doc_text record_of] in E'.
      rewrite E in E'. discriminate E'. }
  destruct (collection_add sv _ _) as [c|e] eqn:A.
  - eexists (Some _), _. split; [reflexivity|].
    split; [discriminate|]. split.
    + intros d [= <-]. repeat split; auto. exists embeddings. split; auto.
    + intros ents embs c' _ X' E' A'.
      cbn [doc_text doc_category record_of] in X', E'.
      rewrite X in X'. injection X' as <-.
      rewrite E in E'. injection E' as <-.
      rewrite A in A'. injection A' as <-. auto.
  - eexists None, _. split; [reflexivity|]. split; [reflexivity|].
    split; [discriminate|].
    intros ents embs c' _ X' E' A'.
    cbn [doc_text doc_category record_of] in X', E'.
    rewrite X in X'. injection X' as <-.
    rewrite E in E'. injection E' as <-.
    rewrite A in A'. discriminate A'.
Qed.

Lemma process_single_document_outcome_witness :
  exists d w',
    Pipeline.process_single_document Scenario.all_up
      (lit "data/invoice/a.jpg") (Scenario.start Scenario.all_up [])
    = (Ok (Some d), w')
    /\ Pipeline.collection w' = [store_request Scenario.all_up [d] [[]]].
Proof.
  destruct (process_single_document_outcome Scenario.all_up
              (lit "data/invoice/a.jpg") (Scenario.start Scenario.all_up []))
    as [r [w' [P [_ [_ Complete]]]]].
  destruct (Complete Pipeline.empty_entities [[]]
              [store_request Scenario.all_up
                 [record_of Scenario.all_up (lit "data/invoice/a.jpg")
                    Pipeline.empty_entities (lit "2024-01-01T00:00:00")]
                 [[]]]
              eq_refl eq_refl eq_refl eq_refl) as [-> C].
  eexists _, w'. split; [exact P|exact C].
Defined.

Lemma classify_document_label file_path text :
  In (Pipeline._classify_document file_path text) labels.
Proof.
  unfold Pipeline._classify_document, labels. cbv zeta.
  destruct (find _ _) as [part|] eqn:F.
  - apply find_some in F as [_ F]. apply mem_In in F.
    apply in_or_app. now left.
  - repeat match goal with
           | |- context [if ?c then _ else _] => destruct c
           end; vm_compute; tauto.
Qed.

(** X4: the identity of a record does not depend on the run.  Two
    pipelines that return a record for the same path from the same OCR
    text give it the same id, category, file name, text and word count,
    whatever their models, collections and clocks; the id is the
    category, an underscore and the base name of the path, and the
    category is a known category or ['unknown']. *)
Theorem record_identity_stable :
  forall (sv1 sv2 : services) (file_path : str)
         (w1 w1' : Pipeline.world sv1) (w2 w2' : Pipeline.world sv2)
         (d1 d2 : doc),
    Pipeline.process_single_document sv1 file_path w1 = (Ok (Some d1), w1') ->
    Pipeline.process_single_document sv2 file_path w2 = (Ok (Some d2), w2') ->
    ProcessorUtils.extract_text_from_image sv1 file_path
    = ProcessorUtils.extract_text_from_image sv2 file_path ->
    doc_id d1 = doc_id d2
    /\ doc_category d1 = doc_category d2
    /\ doc_filename d1 = doc_filename d2
    /\ doc_file_path d1 = doc_file_path d2
    /\ doc_text d1 = doc_text d2
    /\ doc_word_count d1 = doc_word_count d2
    /\ doc_id d1 = doc_category d1 ++ lit "_" ++ doc_filename d1
    /\ doc_filename d1 = Pipeline.basename file_path
    /\ In (doc_category d1) labels.
Proof.
  intros sv1 sv2 file_path w1 w1' w2 w2' d1 d2 P1 P2 T.
  rewrite process_single_document_closed_form in P1, P2. cbv zeta in P1, P2.
  destruct (readable sv1 file_path); [|discriminate].
  destruct (readable sv2 file_path); [|discriminate].
  destruct (Pipeline._extract_entities_with_llm sv1 _ _); [|discriminate].
  destruct (Pipeline._extract_entities_with_llm sv2 _ _); [|discriminate].
  destruct (embedder_encode sv1 _); [|discriminate].
  destruct (embedder_encode sv2 _); [|discriminate].
  destruct (collection_add sv1 _ _); [|discriminate].
  destruct (collection_add sv2 _ _); [|discriminate].
  injection P1 as <- _. injection P2 as <- _.
  unfold record_of. cbn [doc_id doc_category doc_filename doc_file_path
                         doc_text doc_word_count].
  rewrite T. repeat split. apply classify_document_label.
Qed.

Lemma record_identity_stable_witness :
  exists d1 d2,
    fst (Pipeline.process_single_document Scenario.all_up
           (lit "data/invoice/a.jpg") (Scenario.start Scenario.all_up []))
    = Ok (Some d1)
    /\ fst (Pipeline.process_single_document busy_elsewhere
              (lit "data/invoice/a.jpg")
              (Scenario.start busy_elsewhere
                 [store_request busy_elsewhere [] []]))
       = Ok (Some d2)
    /\ doc_id d1 = doc_id d2
    /\ doc_entities d1 <> doc_entities d2.
Proof.
  destruct (Pipeline.process_single_document Scenario.all_up
              (lit "data/invoice/a.jpg") (Scenario.start Scenario.all_up []))
    as [r1 w1'] eqn:P1.
  destruct (Pipeline.process_single_document busy_elsewhere
              (lit "data/invoice/a.jpg")
              (Scenario.start busy_elsewhere
                 [store_request busy_elsewhere [] []]))
    as [r2 w2'] eqn:P2.
  assert (exists d1, r1 = Ok (Some d1)) as [d1 ->]
      by (pose proof (f_equal fst P1) as F; vm_compute in F; subst r1; eauto).
  assert (exists d2, r2 = Ok (Some d2)) as [d2 ->]
      by (pose proof (f_equal fst P2) as F; vm_compute in F; subst r2; eauto).
  exists d1, d2. split; [reflexivity|]. split; [reflexivity|].
  split.
  - exact (proj1 (record_identity_stable _ _ _ _ _ _ _ _ _ P1 P2 eq_refl)).
  - pose proof (f_equal fst P1) as F1. pose proof (f_equal fst P2) as F2.
    vm_compute in F1, F2. injection F1 as <-. injection F2 as <-.
    vm_compute. discriminate.
Defined.

(** X5: a model that raises costs the document.  When the NER call
    raises on the cleaned, non-blank text of a file,
    [process_single_document] returns [None] and touches nothing: no
    embedding, no request to the collection, no reading of the clock. *)
Theorem model_failure_drops_document :
  forall (sv : services) (ner : str -> result (list ner_entity))
         (file_path : str) (w : Pipeline.world sv) (e : exn),
    ner_pipeline sv = Some ner ->
    strip (ProcessorUtils.clean_text
             (ProcessorUtils.extract_text_from_image sv file_path)) <> [] ->
    ner (prefix 512 (ProcessorUtils.clean_text
                       (ProcessorUtils.extract_text_from_image sv file_path)))
    = Raise e ->
    Pipeline.process_single_document sv file_path w = (Ok None, w).
Proof.
  intros sv ner file_path w e Hn Hs He.
  rewrite process_single_document_closed_form. cbv zeta.
  destruct (readable sv file_path); [|reflexivity].
  now rewrite (extract_entities_with_llm_model_failure
                 sv ner _ _ e Hn Hs He).
Qed.

Lemma model_failure_drops_document_witness :
  Pipeline.process_single_document Scenario.ner_down
    (lit "data/invoice/a.jpg") (Scenario.start Scenario.ner_down [])
  = (Ok None, Scenario.start Scenario.ner_down []).
Proof.
  apply (model_failure_drops_document Scenario.ner_down
           (fun _ => Raise TimeoutError) _ _ TimeoutError).
  - reflexivity.
  - vm_compute. discriminate.
  - reflexivity.
Defined.

(* ===================================================================== *)
(** * The limit of a batch *)
(* ===================================================================== *)

Lemma slice_to_prefix {A} (xs : list A) limit :
  exists rest, xs = slice_to xs limit ++ rest.
Proof.
  unfold slice_to. destruct (0 <=? limit)%Z; eexists;
    symmetry; apply firstn_skipn.
Qed.

(** X6: [process_documents] works on [files[:limit]], a prefix of the
    sorted file list.  With limit 0 it returns the empty list and touches
    nothing; with a positive limit it returns at most that many records;
    a negative limit is not refused but leaves out that many files at the
    end of the list.  Every record returned comes from a file of the
    prefix. *)
Theorem process_documents_limit :
  forall (sv : services) (data_path : str) (limit : Z)
         (w : Pipeline.world sv),
    let all_files := ProcessorUtils.get_document_files sv data_path in
    let files := slice_to all_files limit in
    exists r w',
      Pipeline.process_documents sv data_path limit w = (r, w')
      /\ (limit = 0%Z -> r = Ok [] /\ w' = w)
      /\ (exists rest, all_files = files ++ rest)
      /\ ((0 <= limit)%Z ->
          length files = Nat.min (Z.to_nat limit) (length all_files))
      /\ ((limit < 0)%Z ->
          length files = length all_files - Z.to_nat (- limit))
      /\ (forall docs,
             r = Ok docs ->
             length docs <= length files
             /\ ((0 <= limit)%Z -> length docs <= Z.to_nat limit)
             /\ forall d, In d docs -> In (doc_file_path d) files).
Proof.
  intros sv data_path limit w all_files files.
  destruct (process_documents_cases sv data_path limit w)
    as [docs [wm [r [w' [batch [C [P [T [He Hn]]]]]]]]].
  fold all_files in C, P. fold files in C, P.
  destruct (collect_from sv files [] w)
    as [docs0 [wm0 [new0 [C0 [_ [L0 [_ [F0 [_ [_ U0]]]]]]]]]].
  fold (Pipeline.collect sv files) in C0. cbn [app] in C0.
  rewrite C in C0. injection C0 as <- <-.
  assert (length files = if (0 <=? limit)%Z
                         then Nat.min (Z.to_nat limit) (length all_files)
                         else length all_files - Z.to_nat (- limit)) as Len.
  { unfold files, slice_to. destruct (0 <=? limit)%Z eqn:Z0;
      rewrite length_firstn; [reflexivity|]. apply Nat.min_l. lia. }
  exists r, w'. split; [exact P|]. split.
  { intros ->. assert (files = []) as F by reflexivity.
    assert (docs = [] /\ wm = w) as [D ->].
    { apply U0. rewrite F. intros f []. }
    destruct (He D) as [R [W _]]. auto. }
  split; [apply slice_to_prefix|].
  split.
  { intros Hl. rewrite Len. apply Z.leb_le in Hl. now rewrite Hl. }
  split.
  { intros Hl. rewrite Len. apply Z.leb_gt in Hl. now rewrite Hl. }
  intros docs' R.
  assert (docs' = docs) as ->.
  { destruct docs as [|d ds].
    - destruct (He eq_refl) as [R' _]. congruence.
    - destruct (Hn ltac:(discriminate)) as [_ [Hs _]]. now apply Hs. }
  assert (length docs <= length files) as Ld.
  { etransitivity; [exact L0|]. apply filter_length_le. }
  split; [exact Ld|]. split.
  - intros Hl. etransitivity; [exact Ld|]. rewrite Len.
    apply Z.leb_le in Hl. rewrite Hl. apply Nat.le_min_l.
  - intros d Hd. rewrite Forall_forall in F0. now apply F0.
Qed.

Lemma process_documents_limit_witness :
  Pipeline.process_documents Scenario.all_up (lit "data") 0%Z
    (Scenario.start Scenario.all_up [])
  = (Ok [], Scenario.start Scenario.all_up []).
Proof.
  destruct (process_documents_limit Scenario.all_up (lit "data") 0%Z
              (Scenario.start Scenario.all_up []))
    as [r [w' [P [Z0 _]]]].
  destruct (Z0 eq_refl) as [-> ->]. exact P.
Defined.

(* ===================================================================== *)
(** * The files of a data directory *)
(* ===================================================================== *)

Lemma prefixb_iff p s : prefixb p s = true <-> exists t, s = p ++ t.
Proof.
  revert s. induction p as [|a p IH]; intros s; simpl.
  - split; eauto.
  - destruct s as [|b s].
    + split; [discriminate|]. intros [t H]. discriminate H.
    + rewrite andb_true_iff, Ascii.eqb_eq, IH. split.
      * intros [-> [t ->]]. eauto.
      * intros [t [= -> ->]]. eauto.
Qed.

Lemma endswith_iff s x : endswith s x = true <-> exists a, s = a ++ x.
Proof.
  unfold endswith. rewrite prefixb_iff. split.
  - intros [t H]. exists (rev t).
    rewrite <- (rev_involutive s), H, rev_app_distr, rev_involutive.
    reflexivity.
  - intros [a ->]. exists (rev a). apply rev_app_distr.
Qed.

Lemma path_join_suffix a b : exists a', ProcessorUtils.path_join a b = a' ++ b.
Proof.
  unfold ProcessorUtils.path_join.
  destruct (prefixb (lit "/") b); [exists []; reflexivity|].
  destruct (match a with [] => true | _ => endswith a (lit "/") end).
  - exists a. reflexivity.
  - exists (a ++ lit "/"). now rewrite <- app_assoc.
Qed.

Lemma str_leb_total a b :
  ProcessorUtils.str_leb a b = false -> ProcessorUtils.str_leb b a = true.
Proof.
  revert b. induction a as [|x a IH]; intros [|y b]; simpl; auto;
    try discriminate.
  intros H. apply orb_false_iff in H as [H1 H2].
  apply Nat.ltb_ge in H1.
  destruct (code x =? code y) eqn:E.
  - simpl in H2. apply Nat.eqb_eq in E. rewrite E, Nat.eqb_refl.
    rewrite (IH b H2). simpl. apply orb_true_r.
  - apply Nat.eqb_neq in E.
    assert (code y < code x) as L by lia.
    apply Nat.ltb_lt in L. now rewrite L.
Qed.

Lemma insert_sorted_perm x xs :
  Permutation (ProcessorUtils.insert_sorted x xs) (x :: xs).
Proof.
  induction xs as [|y ys IH]; simpl; auto.
  destruct (ProcessorUtils.str_leb x y); auto.
  etransitivity; [apply perm_skip, IH|]. apply perm_swap.
Qed.

Lemma sorted_perm xs : Permutation (ProcessorUtils.sorted xs) xs.
Proof.
  unfold ProcessorUtils.sorted. induction xs as [|x xs IH]; simpl; auto.
  etransitivity; [apply insert_sorted_perm|]. now apply perm_skip.
Qed.

Lemma insert_sorted_sorted x xs :
  Sorted str_le xs -> Sorted str_le (ProcessorUtils.insert_sorted x xs).
Proof.
  induction 1 as [|y ys S IH H]; simpl.
  - repeat constructor.
  - destruct (ProcessorUtils.str_leb x y) eqn:L.
    + constructor; [now constructor|]. constructor. exact L.
    + constructor; auto.
      destruct ys as [|z zs]; simpl.
      * constructor. now apply str_leb_total.
      * destruct (ProcessorUtils.str_leb x z); constructor.
        -- now apply str_leb_total.
        -- now inversion H.
Qed.

Lemma sorted_sorted xs : Sorted str_le (ProcessorUtils.sorted xs).
Proof.
  unfold ProcessorUtils.sorted. induction xs as [|x xs IH]; simpl.
  - constructor.
  - now apply insert_sorted_sorted.
Qed.

Lemma lower_app a b : lower (a ++ b) = lower a ++ lower b.
Proof. apply map_app. Qed.

(** X7: [get_document_files] returns, in ascending order of code
    points, one path per file name found by [os.walk] whose lower-cased
    form ends in [.jpg] or [.jpeg], the path being the directory joined
    with the name; every path returned ends in one of the two extensions
    up to case. *)
Theorem get_document_files_spec :
  forall (sv : services) (data_path : str),
    let files := ProcessorUtils.get_document_files sv data_path in
    Sorted str_le files
    /\ Permutation files
         (flat_map
            (fun entry =>
               map (ProcessorUtils.path_join (fst entry))
                   (filter
                      (fun filename =>
                         existsb (endswith (lower filename)) jpeg_extensions)
                      (snd entry)))
            (os_walk sv data_path))
    /\ (forall p,
           In p files <->
           exists root filenames filename,
             In (root, filenames) (os_walk sv data_path)
             /\ In filename filenames
             /\ existsb (endswith (lower filename)) jpeg_extensions = true
             /\ p = ProcessorUtils.path_join root filename)
    /\ (forall p,
           In p files ->
           existsb (endswith (lower p)) jpeg_extensions = true).
Proof.
  intros sv data_path files.
  assert (forall p,
           In p files <->
           exists root filenames filename,
             In (root, filenames) (os_walk sv data_path)
             /\ In filename filenames
             /\ existsb (endswith (lower filename)) jpeg_extensions = true
             /\ p = ProcessorUtils.path_join root filename) as Mem.
  { intros p. unfold files, ProcessorUtils.get_document_files. cbv zeta.
    split.
    - intros H. apply (Permutation_in _ (sorted_perm _)) in H.
      apply in_flat_map in H as [[root filenames] [Hw H]].
      apply in_map_iff in H as [filename [<- H]].
      apply filter_In in H as [Hf He].
      exists root, filenames, filename. auto.
    - intros [root [filenames [filename [Hw [Hf [He ->]]]]]].
      apply (Permutation_in _ (Permutation_sym (sorted_perm _))).
      apply in_flat_map. exists (root, filenames). split; auto.
      apply in_map. apply filter_In. auto. }
  split; [apply sorted_sorted|]. split.
  { unfold files, ProcessorUtils.get_document_files. cbv zeta.
    etransitivity; [apply sorted_perm|].
    apply Permutation_refl'. apply flat_map_ext. intros [root filenames].
    reflexivity. }
  split; [exact Mem|].
  intros p Hp. apply Mem in Hp as [root [_ [filename [_ [_ [He ->]]]]]].
  apply existsb_exists in He as [ext [Hext He]].
  apply existsb_exists. exists ext. split; auto.
  apply endswith_iff in He as [a Ha]. apply endswith_iff.
  destruct (path_join_suffix root filename) as [a' ->].
  exists (lower a' ++ a). now rewrite lower_app, Ha, app_assoc.
Qed.

Lemma get_document_files_spec_witness :
  ProcessorUtils.get_document_files Scenario.all_up (lit "data")
  = [lit "data/invoice/a.jpg"]
  /\ existsb (endswith (lower (lit "data/invoice/a.jpg"))) jpeg_extensions
     = true.
Proof.
  split; [reflexivity|].
  apply (proj2 (proj2 (proj2 (get_document_files_spec
                                Scenario.all_up (lit "data"))))).
  vm_compute. auto.
Defined.

(* ===================================================================== *)
(** * What the model-assisted extractor can return *)
(* ===================================================================== *)

Lemma clean_items_ok items : forall kept kept',
  for_each items kept
    (fun kept item =>
       b <- Pipeline.keep_item item ;;
       ret (if b : bool then kept ++ [item] else kept))
  = Ok kept' ->
  forallb is_str items = true.
Proof.
  induction items as [|item items IH]; intros kept kept' H; auto.
  simpl in H. destruct item as [s|t]; [|discriminate]. simpl in H.
  simpl. eauto.
Qed.

Lemma set_list_str_inv sv items :
  forallb is_str (set_list sv items) = true -> forallb is_str items = true.
Proof.
  rewrite !forallb_forall. intros H v Hv. apply H.
  now apply set_list_In.
Qed.

(** When the final loop returns, every list it met held strings only. *)
Lemma dedupe_loop_ok sv ks : forall entities entities',
  for_each ks entities (Pipeline.dedupe sv) = Ok entities' ->
  NoDup ks ->
  forall k l, In k ks -> dict_get k entities = Some l ->
              forallb is_str l = true.
Proof.
  induction ks as [|key ks IH]; intros entities entities' H N k l Hk G;
    [destruct Hk|].
  inversion N as [|? ? Nk Nks]; subst.
  simpl in H.
  destruct (Pipeline.dedupe sv entities key) as [e1|e] eqn:D; [|discriminate].
  unfold Pipeline.dedupe in D.
  destruct (dict_get key entities) as [items|] eqn:G0; [|discriminate].
  simpl in D.
  destruct (Pipeline.clean_items (set_list sv items)) as [kept|e] eqn:C;
    [|discriminate].
  injection D as <-.
  destruct Hk as [<-|Hk].
  - rewrite G0 in G. injection G as <-.
    apply (set_list_str_inv sv). eapply clean_items_ok. exact C.
  - apply (IH _ _ H Nks k l Hk). rewrite dict_get_set.
    destruct (String.eqb k key) eqn:E; auto.
    apply String.eqb_eq in E. subst. tauto.
Qed.

Lemma model_values_In k spans v :
  In v (model_values k spans) ->
  exists entity,
    In entity spans
    /\ PrimFloat.ltb 0.8%float (score entity) = true
    /\ kind_of entity = Some k
    /\ v = VStr (strip (word entity)).
Proof.
  unfold model_values. intros H.
  apply in_flat_map in H as [entity [Hin H]].
  destruct (PrimFloat.ltb _ _) eqn:L; [|destruct H].
  destruct (kind_of entity) as [k'|] eqn:K; [|destruct H].
  destruct (String.eqb k' k) eqn:E; [|destruct H].
  apply String.eqb_eq in E. subst k'. destruct H as [<-|[]].
  exists entity. auto.
Qed.

Lemma kind_of_range entity k :
  kind_of entity = Some k ->
  In k ["persons"; "organizations"; "locations"; "emails"; "dates"]%string.
Proof.
  unfold kind_of. cbv zeta.
  repeat match goal with
         | |- context [if ?c then _ else _] => destruct c
         end; intros [= <-] || discriminate; simpl; tauto.
Qed.

Lemma no_member_nil {A} (l : list A) : (forall x, ~ In x l) -> l = [].
Proof. destruct l as [|a l]; auto. intros H. destruct (H a). now left. Qed.

(** The [try] block, when it returns, in closed form and without any
    assumption on the shape of the regex matches. *)
Lemma llm_body_inv sv ner text d :
  Pipeline.llm_body sv ner text Pipeline.empty_entities = Ok d ->
  exists spans emails phones amounts,
    ner (prefix 512 text) = Ok spans
    /\ re_findall sv Pipeline.email_pattern false text = Ok emails
    /\ re_findall sv Pipeline.phone_pattern false text = Ok phones
    /\ re_findall sv Pipeline.money_pattern false text = Ok amounts
    /\ forall k,
         In k kinds ->
         dict_get k d
         = Some (filter long_enough
                   (set_list sv (model_values k spans
                                 ++ regex_values k emails phones amounts))).
Proof.
  intros H. pose proof H as H0. unfold Pipeline.llm_body in H.
  destruct (ner (prefix 512 text)) as [spans|?] eqn:Hn; [|discriminate].
  cbn [bind result_monad] in H.
  destruct (route_loop spans Pipeline.empty_entities eq_refl)
    as [e1 [R1 [K1 G1]]].
  rewrite R1 in H.
  destruct (re_findall sv Pipeline.email_pattern false text)
    as [emails|?] eqn:He; [|discriminate].
  cbn [bind result_monad] in H.
  destruct (Pipeline.extend_to "emails" emails e1)
    as [e2|?] eqn:E2; [|discriminate].
  destruct (re_findall sv Pipeline.phone_pattern false text)
    as [phones|?] eqn:Hp; [|discriminate].
  cbn [bind result_monad] in H.
  destruct (Pipeline.extend_to "phones" _ e2) as [e3|?] eqn:E3; [|discriminate].
  destruct (re_findall sv Pipeline.money_pattern false text)
    as [amounts|?] eqn:Hm; [|discriminate].
  cbn [bind result_monad] in H.
  destruct (Pipeline.extend_to "amounts" amounts e3)
    as [e4|?] eqn:E4; [|discriminate].
  exists spans, emails, phones, amounts. repeat (split; [reflexivity|]).
  apply extend_to_spec in E2 as [K2 G2].
  apply extend_to_spec in E3 as [K3 G3].
  apply extend_to_spec in E4 as [K4 G4].
  assert (keys e4 = kinds) as K by congruence.
  assert (forallb is_str (emails ++ amounts) = true) as Hs.
  { assert (NoDup (keys e4)) as N
        by (rewrite K; repeat constructor; simpl; intuition discriminate).
    rewrite forallb_app. apply andb_true_iff. split.
    - assert (forallb is_str (model_values "emails" spans ++ emails) = true)
        as S.
      { apply (dedupe_loop_ok sv (keys e4) e4 d H N "emails"%string).
        - rewrite K. simpl. tauto.
        - rewrite G4, G3, G2.
          cbn [String.eqb Ascii.eqb Bool.eqb option_map].
          now rewrite (G1 "emails"%string [] eq_refl). }
      rewrite forallb_app in S. now apply andb_true_iff in S.
    - assert (forallb is_str (model_values "amounts" spans ++ amounts) = true)
        as S.
      { apply (dedupe_loop_ok sv (keys e4) e4 d H N "amounts"%string).
        - rewrite K. simpl. tauto.
        - rewrite G4, G3, G2.
          cbn [String.eqb Ascii.eqb Bool.eqb option_map].
          now rewrite (G1 "amounts"%string [] eq_refl). }
      rewrite forallb_app in S. now apply andb_true_iff in S. }
  destruct (llm_body_spec sv ner text spans emails phones amounts
              Hn He Hp Hm Hs) as [d' [B [_ G]]].
  rewrite H0 in B. injection B as <-. exact G.
Qed.

(** X8: whenever the model path of [_extract_entities_with_llm]
    completes, every entry of every kind is a string whose trimmed length
    is at least two; [addresses] is empty; [phones] holds only the groups
    of a phone match joined by dashes and [amounts] only amount matches,
    the model contributing to neither; and [persons], [organizations],
    [locations] and [dates] hold only trimmed words of model spans that
    scored above 0.8. *)
Theorem llm_result_shape :
  forall (sv : services) (ner : str -> result (list ner_entity))
         (text : str) (d : dict (list pyval)),
    Pipeline.llm_body sv ner text Pipeline.empty_entities = Ok d ->
    dict_get "addresses" d = Some []
    /\ (forall k l v,
           In k kinds -> dict_get k d = Some l -> In v l ->
           exists s, v = VStr s /\ 2 <= length (strip s))
    /\ (forall l v,
           dict_get "phones" d = Some l -> In v l ->
           exists phones phone,
             re_findall sv Pipeline.phone_pattern false text = Ok phones
             /\ In phone phones
             /\ v = VStr (Pipeline.join_value (lit "-") phone))
    /\ (forall l v,
           dict_get "amounts" d = Some l -> In v l ->
           exists amounts,
             re_findall sv Pipeline.money_pattern false text = Ok amounts
             /\ In v amounts)
    /\ (forall k l v,
           In k ["persons"; "organizations"; "locations"; "dates"]%string ->
           dict_get k d = Some l -> In v l ->
           exists spans entity,
             ner (prefix 512 text) = Ok spans
             /\ In entity spans
             /\ PrimFloat.ltb 0.8%float (score entity) = true
             /\ v = VStr (strip (word entity))).
Proof.
  intros sv ner text d H.
  destruct (llm_body_inv sv ner text d H)
    as [spans [emails [phones [amounts [Hn [He [Hp [Hm G]]]]]]]].
  assert (forall k, ~ In k ["persons"; "organizations"; "locations";
                            "emails"; "dates"]%string ->
                    model_values k spans = []) as NoModel.
  { intros k Hk. apply no_member_nil. intros v Hv.
    apply model_values_In in Hv as [entity [_ [_ [Kd _]]]].
    apply kind_of_range in Kd. tauto. }
  split; [|split; [|split; [|split]]].
  - rewrite (G "addresses"%string) by (simpl; tauto).
    rewrite NoModel by (simpl; intuition discriminate).
    cbn [regex_values String.eqb Ascii.eqb Bool.eqb app].
    rewrite (no_member_nil (set_list sv []));
      [reflexivity|]. intros x Hx. now apply set_list_In in Hx.
  - intros k l v Hk Gk Hv. rewrite (G k Hk) in Gk. injection Gk as <-.
    apply filter_In in Hv as [_ Hv].
    destruct v as [s|t]; [|discriminate]. exists s. split; auto.
    simpl in Hv. now apply Nat.ltb_lt in Hv.
  - intros l v Gk Hv. rewrite (G "phones"%string) in Gk by (simpl; tauto).
    injection Gk as <-. apply filter_In in Hv as [Hv _].
    apply set_list_In in Hv.
    rewrite NoModel in Hv by (simpl; intuition discriminate).
    cbn [regex_values String.eqb Ascii.eqb Bool.eqb app] in Hv.
    apply in_map_iff in Hv as [phone [<- Hin]].
    exists phones, phone. auto.
  - intros l v Gk Hv. rewrite (G "amounts"%string) in Gk by (simpl; tauto).
    injection Gk as <-. apply filter_In in Hv as [Hv _].
    apply set_list_In in Hv.
    rewrite NoModel in Hv by (simpl; intuition discriminate).
    cbn [regex_values String.eqb Ascii.eqb Bool.eqb app] in Hv.
    exists amounts. auto.
  - intros k l v Hk Gk Hv.
    assert (In k kinds) as Hkk by (simpl in Hk |- *; tauto).
    rewrite (G k Hkk) in Gk. injection Gk as <-.
    apply filter_In in Hv as [Hv _]. apply set_list_In in Hv.
    assert (regex_values k emails phones amounts = []) as R.
    { simpl in Hk. destruct Hk as [<-|[<-|[<-|[<-|[]]]]]; reflexivity. }
    rewrite R, app_nil_r in Hv.
    apply model_values_In in Hv as [entity [Hin [L [_ ->]]]].
    exists spans, entity. auto.
Qed.

Lemma llm_result_shape_witness :
  exists d,
    Pipeline.llm_body Scenario.model_up (fun _ => Ok Scenario.sample_spans)
      Scenario.contact_text Pipeline.empty_entities = Ok d
    /\ dict_get "addresses" d = Some [].
Proof.
  eexists. split; [vm_compute; reflexivity|].
  apply (llm_result_shape Scenario.model_up
           (fun _ => Ok Scenario.sample_spans) Scenario.contact_text).
  vm_compute. reflexivity.
Defined.

(* ===================================================================== *)
(** * The summary written for a batch *)
(* ===================================================================== *)

Lemma extract_entities_with_llm_keys sv text document_type d :
  Pipeline._extract_entities_with_llm sv text document_type = Ok d ->
  keys d = kinds.
Proof.
  unfold Pipeline._extract_entities_with_llm. cbv zeta.
  destruct (ner_pipeline sv) as [ner|]; [|intros [= <-]; reflexivity].
  destruct (strip text) eqn:S; [intros [= <-]; reflexivity|].
  unfold try_result.
  destruct (Pipeline.llm_body sv ner text Pipeline.empty_entities)
    as [d'|e] eqn:B.
  - intros [= <-]. eapply llm_body_keys. exact B.
  - rewrite llm_fallback_raises. discriminate.
Qed.

Lemma process_single_document_record sv file_path w d w' :
  Pipeline.process_single_document sv file_path w = (Ok (Some d), w') ->
  keys (doc_entities d) = kinds.
Proof.
  rewrite process_single_document_closed_form. cbv zeta.
  destruct (readable sv file_path); [|discriminate].
  destruct (Pipeline._extract_entities_with_llm sv _ _) as [entities|e] eqn:X;
    [|discriminate].
  destruct (embedder_encode sv _) as [embeddings|e]; [|discriminate].
  destruct (collection_add sv _ _) as [c|e]; [|discriminate].
  intros [= <- _]. cbn [record_of doc_entities].
  eapply extract_entities_with_llm_keys. exact X.
Qed.

Lemma collect_records sv (P : doc -> Prop) :
  (forall f w d w',
      Pipeline.process_single_document sv f w = (Ok (Some d), w') -> P d) ->
  forall files acc w docs w',
    for_each files acc (Pipeline.collect_step sv) w = (Ok docs, w') ->
    Forall P acc -> Forall P docs.
Proof.
  intros HP. induction files as [|f files IH]; intros acc w docs w' H Ha.
  - cbn in H. injection H as <- _. exact Ha.
  - cbn [for_each bind Pipeline.io_monad] in H.
    unfold Pipeline.collect_step at 1 in H.
    cbn [bind Pipeline.io_monad] in H.
    destruct (Pipeline.process_single_document sv f w) as [[[d|]|e] w1] eqn:E;
      cbn [ret Pipeline.io_monad] in H.
    + apply (IH _ _ _ _ H). apply Forall_app. split; auto.
      constructor; [|constructor]. eapply HP. exact E.
    + apply (IH _ _ _ _ H Ha).
    + discriminate.
Qed.

(** X9: when [process_documents] returns a non-empty list, the last two
    things it did were to write that list as JSON and then a CSV summary
    with one row per record, in order; and every row's [entity_count] is
    8, the number of entity kinds, however many entities were found,
    because every record carries exactly the eight kinds. *)
Theorem summary_counts_kinds :
  forall (sv : services) (data_path : str) (limit : Z)
         (w w' : Pipeline.world sv) (docs : list doc),
    Pipeline.process_documents sv data_path limit w = (Ok docs, w') ->
    docs <> [] ->
    Forall (fun d => keys (doc_entities d) = kinds) docs
    /\ exists before rows,
         Pipeline.trace w' = before ++ [EvWriteJson docs; EvWriteCsv rows]
         /\ map row_filename rows = map doc_filename docs
         /\ map row_category rows = map doc_category docs
         /\ Forall (fun row => row_entity_count row = 8) rows.
Proof.
  intros sv data_path limit w w' docs H Hne.
  unfold Pipeline.process_documents in H. cbv zeta in H.
  cbn [bind Pipeline.io_monad] in H.
  destruct (Pipeline.collect sv _ w) as [[docs0|e] wm] eqn:C; [|discriminate].
  assert (Forall (fun d => keys (doc_entities d) = kinds) docs0) as K.
  { apply (collect_records sv _ (process_single_document_record sv)
             _ [] w docs0 wm C). constructor. }
  destruct docs0 as [|d ds].
  { cbn in H. injection H as <- _. congruence. }
  destruct (store_documents_spec sv d ds wm) as [r1 [w1 [S _]]].
  cbv zeta in S. rewrite S in H.
  destruct r1 as [[]|e]; [|discriminate].
  remember (d :: ds) as docs0 eqn:D0. clear D0 S.
  unfold Pipeline._save_results, Pipeline.emit, Pipeline.lift in H.
  cbn [bind ret Pipeline.io_monad
       Pipeline.collection Pipeline.trace Pipeline.clock] in H.
  destruct (write_json sv docs0) as [[]|e]; [|discriminate].
  destruct (write_csv sv _) as [[]|e]; [|discriminate].
  injection H as <- <-. split; [exact K|].
  cbn [Pipeline.trace]. eexists _, _. rewrite <- app_assoc.
  split; [reflexivity|].
  rewrite !map_map. cbn [row_filename row_category].
  split; [reflexivity|]. split; [reflexivity|].
  apply Forall_map. eapply Forall_impl; [|exact K].
  intros x Hx. cbn [row_entity_count].
  unfold keys in Hx. rewrite <- (length_map fst), Hx. reflexivity.
Qed.

Lemma summary_counts_kinds_witness :
  exists docs w',
    Pipeline.process_documents Scenario.all_up (lit "data") 50%Z
      (Scenario.start Scenario.all_up []) = (Ok docs, w')
    /\ Forall (fun d => keys (doc_entities d) = kinds) docs.
Proof.
  destruct (Pipeline.process_documents Scenario.all_up (lit "data") 50%Z
              (Scenario.start Scenario.all_up [])) as [r w'] eqn:P.
  pose proof (f_equal fst P) as Pf. vm_compute in Pf. subst r.
  eexists _, w'. split; [reflexivity|].
  apply (summary_counts_kinds Scenario.all_up (lit "data") 50%Z
           (Scenario.start Scenario.all_up []) w' _ P).
  discriminate.
Defined.

(* ===================================================================== *)
(** * How the confidence score moves *)
(* ===================================================================== *)

(** X10: the score of [_calculate_confidence] is monotone: of two
    records of the same category, the one with at least as long a text
    and at least as many entities in total never scores lower. *)
Theorem calculate_confidence_monotone :
  forall a b : doc,
    doc_category a = doc_category b ->
    length (doc_text a) <= length (doc_text b) ->
    list_sum (map (fun key => length (match dict_get key (doc_entities a) with
                                      | Some l => l
                                      | None => []
                                      end))
                  (keys (doc_entities a)))
    <= list_sum (map (fun key => length (match dict_get key (doc_entities b)
                                         with
                                         | Some l => l
                                         | None => []
                                         end))
                     (keys (doc_entities b))) ->
    PrimFloat.leb (Views._calculate_confidence a)
                  (Views._calculate_confidence b) = true.
Proof.
  intros a b Hc Hl He. unfold Views._calculate_confidence. cbv zeta.
  rewrite Hc.
  remember (list_sum (map _ (keys (doc_entities a)))) as ea eqn:Ea.
  remember (list_sum (map _ (keys (doc_entities b)))) as eb eqn:Eb.
  clear Ea Eb.
  destruct (negb _);
    destruct (100 <? length (doc_text a)) eqn:A1;
    destruct (500 <? length (doc_text a)) eqn:A2;
    destruct (100 <? length (doc_text b)) eqn:B1;
    destruct (500 <? length (doc_text b)) eqn:B2;
    destruct (0 <? ea) eqn:A3; destruct (3 <? ea) eqn:A4;
    destruct (0 <? eb) eqn:B3; destruct (3 <? eb) eqn:B4;
    try (vm_compute; reflexivity);
    exfalso;
    repeat match goal with
           | H : (_ <? _) = true |- _ => apply Nat.ltb_lt in H
           | H : (_ <? _) = false |- _ => apply Nat.ltb_ge in H
           end; lia.
Qed.

Lemma calculate_confidence_monotone_witness :
  PrimFloat.leb
    (Views._calculate_confidence
       (record_of Scenario.all_up (lit "scan.jpg") Pipeline.empty_entities []))
    (Views._calculate_confidence
       (record_of Scenario.all_up (lit "scan.jpg")
          [("emails"%string, [VStr (lit "amy@example.com")])] []))
  = true.
Proof.
  apply calculate_confidence_monotone.
  - reflexivity.
  - apply Nat.le_refl.
  - vm_compute. apply le_S, le_n.
Defined.

(* ===================================================================== *)
(** * Searching the collection *)
(* ===================================================================== *)


Lemma preview_length doc : length (preview doc) <= 203.
Proof.
  unfold preview. destruct (200 <? length doc) eqn:L.
  - unfold prefix. rewrite length_app, length_firstn.
    change (length (lit "...")) with 3. lia.
  - apply Nat.ltb_ge in L. lia.
Qed.

(** The loop of [search], when it completes, has appended one hit per
    document, each read at the document's own index. *)
Lemma search_loop results docs : forall k acc hits,
  for_each (enumerate_from k docs) acc (search_step results) = inr hits ->
  exists new,
    hits = acc ++ new
    /\ length new = length docs
    /\ (docs <> [] ->
        exists ids dists mds,
          hd_error (qr_ids results) = Some ids
          /\ first_list (qr_distances results) = Some dists
          /\ first_list (qr_metadatas results) = Some mds
          /\ forall j h,
               nth_error new j = Some h ->
               exists doc dist,
                 nth_error docs j = Some doc
                 /\ nth_error ids (k + j) = Some (hit_id h)
                 /\ nth_error dists (k + j) = Some dist
                 /\ nth_error mds (k + j) = Some (hit_metadata h)
                 /\ hit_text h = preview doc
                 /\ hit_similarity h = (1 - dist)%float).
Proof.
  induction docs as [|doc docs IH]; intros k acc hits H.
  - cbn in H. injection H as <-. exists []. rewrite app_nil_r.
    repeat split; auto. congruence.
  - unfold enumerate_from in H. cbn [length seq combine for_each] in H.
    cbn [bind outcome_monad] in H.
    destruct (search_step results acc (k, doc)) as [e|acc1] eqn:St;
      [discriminate|].
    fold (enumerate_from (S k) docs) in H.
    destruct (IH _ _ _ H) as [new [-> [Ln Rest]]].
    unfold search_step in St. cbn [fst snd bind ret outcome_monad] in St.
    unfold subscript_opt, subscript in St.
    destruct (qr_ids results) as [|ids ids_rest] eqn:Qi; [discriminate|].
    cbn [nth_error] in St.
    destruct (nth_error ids k) as [id|] eqn:Ni; [|discriminate].
    destruct (qr_distances results) as [[|dists drest]|] eqn:Qd;
      try discriminate.
    cbn [nth_error] in St.
    destruct (nth_error dists k) as [dist|] eqn:Nd; [|discriminate].
    destruct (qr_metadatas results) as [[|mds mrest]|] eqn:Qm;
      try discriminate.
    cbn [nth_error] in St.
    destruct (nth_error mds k) as [md|] eqn:Nm; [|discriminate].
    injection St as <-.
    eexists (_ :: new). rewrite <- app_assoc. split; [reflexivity|].
    split; [simpl; now rewrite Ln|].
    intros _. exists ids, dists, mds. repeat (split; [reflexivity|]).
    intros [|j] h Hj.
    + injection Hj as <-. exists doc, dist. rewrite Nat.add_0_r.
      cbn [hit_id hit_metadata hit_text hit_similarity nth_error].
      repeat split; assumption || reflexivity.
    + cbn [nth_error] in Hj. destruct docs as [|d2 docs'].
      * destruct new; [|discriminate]. destruct j; discriminate.
      * destruct (Rest ltac:(discriminate))
          as [ids' [dists' [mds' [Hi [Hd [Hm Hr]]]]]].
        cbn in Hi, Hd, Hm. injection Hi as <-. injection Hd as <-.
        injection Hm as <-.
        destruct (Hr j h Hj) as [doc' [dist' R]].
        exists doc', dist'. rewrite Nat.add_succ_r. exact R.
Qed.

(** The loop completes when the three parallel lists are long enough. *)
Lemma search_loop_completes results ids dists mds docs : forall k acc,
  hd_error (qr_ids results) = Some ids ->
  first_list (qr_distances results) = Some dists ->
  first_list (qr_metadatas results) = Some mds ->
  k + length docs <= length ids ->
  k + length docs <= length dists ->
  k + length docs <= length mds ->
  exists hits,
    for_each (enumerate_from k docs) acc (search_step results) = inr hits.
Proof.
  induction docs as [|doc docs IH]; intros k acc Hi Hd Hm Li Ld Lm.
  - eexists. reflexivity.
  - unfold enumerate_from. cbn [length seq combine for_each].
    cbn [bind outcome_monad].
    simpl in Li, Ld, Lm.
    unfold search_step at 1. cbn [fst snd bind ret outcome_monad].
    unfold subscript_opt, subscript.
    destruct (qr_ids results) as [|ids0 ?]; [discriminate|].
    injection Hi as ->.
    destruct (qr_distances results) as [[|dists0 ?]|]; try discriminate.
    injection Hd as ->.
    destruct (qr_metadatas results) as [[|mds0 ?]|]; try discriminate.
    injection Hm as ->.
    cbn [nth_error].
    destruct (nth_error ids k) eqn:Ni;
      [|apply nth_error_None in Ni; lia].
    destruct (nth_error dists k) eqn:Nd;
      [|apply nth_error_None in Nd; lia].
    destruct (nth_error mds k) eqn:Nm;
      [|apply nth_error_None in Nm; lia].
    fold (enumerate_from (S k) docs).
    apply IH; cbn; auto; lia.
Qed.

(** X11: [search] never raises, and its answer is all or nothing.
    Every preview it returns has at most 203 characters.  A non-empty
    answer has one hit per document of the first inner list of the
    query result, in order, the hit at an index carrying the id, the
    metadata and one minus the distance found at that index, and the
    document itself when it has at most 200 characters, otherwise its
    first 200 followed by three dots.  When the lists of ids, distances
    and metadata are at least as long as the list of documents, the
    answer is complete. *)
Theorem search_spec :
  forall (sv : services) (q : queries sv) (c : coll sv)
         (query : str) (n_results : Z),
    let hits := search q c query n_results in
    (forall h, In h hits -> length (hit_text h) <= 203)
    /\ (hits <> [] ->
        exists results docs ids dists mds,
          collection_query q c [query] n_results = Ok results
          /\ first_list (qr_documents results) = Some docs
          /\ hd_error (qr_ids results) = Some ids
          /\ first_list (qr_distances results) = Some dists
          /\ first_list (qr_metadatas results) = Some mds
          /\ length hits = length docs
          /\ forall i h,
               nth_error hits i = Some h ->
               exists doc dist,
                 nth_error docs i = Some doc
                 /\ nth_error ids i = Some (hit_id h)
                 /\ nth_error dists i = Some dist
                 /\ nth_error mds i = Some (hit_metadata h)
                 /\ hit_text h = preview doc
                 /\ hit_similarity h = (1 - dist)%float)
    /\ (forall results docs ids dists mds,
          collection_query q c [query] n_results = Ok results ->
          first_list (qr_documents results) = Some docs ->
          hd_error (qr_ids results) = Some ids ->
          first_list (qr_distances results) = Some dists ->
          first_list (qr_metadatas results) = Some mds ->
          length docs <= length ids ->
          length docs <= length dists ->
          length docs <= length mds ->
          length hits = length docs).
Proof.
  intros sv q c query n_results hits.
  assert (hits <> [] ->
          exists results docs ids dists mds,
            collection_query q c [query] n_results = Ok results
            /\ first_list (qr_documents results) = Some docs
            /\ hd_error (qr_ids results) = Some ids
            /\ first_list (qr_distances results) = Some dists
            /\ first_list (qr_metadatas results) = Some mds
            /\ length hits = length docs
            /\ forall i h,
                 nth_error hits i = Some h ->
                 exists doc dist,
                   nth_error docs i = Some doc
                   /\ nth_error ids i = Some (hit_id h)
                   /\ nth_error dists i = Some dist
                   /\ nth_error mds i = Some (hit_metadata h)
                   /\ hit_text h = preview doc
                   /\ hit_similarity h = (1 - dist)%float) as Sound.
  { subst hits. unfold search, search_body.
    destruct (collection_query q c [query] n_results) as [results|e] eqn:Q;
      cbn [called bind outcome_monad]; [|congruence].
    destruct (qr_documents results) as [[|docs rest]|] eqn:Qd;
      cbn [ret outcome_monad]; try congruence.
    destruct (for_each _ _ _) as [e|found] eqn:L; [congruence|].
    intros Hne.
    destruct (search_loop _ _ _ _ _ L) as [new [-> [Ln Rest]]].
    cbn [app] in *.
    destruct docs as [|d ds]; [destruct new; [congruence|discriminate]|].
    destruct (Rest ltac:(discriminate)) as [ids [dists [mds [Hi [Hd [Hm Hr]]]]]].
    exists results, (d :: ds), ids, dists, mds.
    split; [reflexivity|]. split; [now rewrite Qd|].
    repeat (split; [assumption|]).
    exact Hr. }
  split; [|split; [exact Sound|]].
  - intros h Hh.
    destruct (Sound ltac:(intros E; rewrite E in Hh; destruct Hh))
      as [results [docs [ids [dists [mds [_ [_ [_ [_ [_ [_ Hr]]]]]]]]]]].
    apply In_nth_error in Hh as [i Hi].
    destruct (Hr i h Hi) as [doc [dist [_ [_ [_ [_ [-> _]]]]]]].
    apply preview_length.
  - intros results docs ids dists mds Q Hdoc Hi Hd Hm Li Ld Lm.
    subst hits. unfold search, search_body. rewrite Q.
    cbn [called bind outcome_monad].
    destruct (qr_documents results) as [[|docs0 rest]|]; try discriminate.
    injection Hdoc as ->.
    destruct (search_loop_completes results ids dists mds docs 0 []
                Hi Hd Hm Li Ld Lm) as [found L].
    rewrite L.
    destruct (search_loop _ _ _ _ _ L) as [new [-> [Ln _]]]. exact Ln.
Qed.

(* ===================================================================== *)
(** * The statistics of the collection *)
(* ===================================================================== *)

Lemma scalar_eqb_eq a b : scalar_eqb a b = true <-> a = b.
Proof.
  unfold scalar_eqb. destruct (scalar_eq_dec a b); split; congruence.
Qed.

Lemma scalar_eqb_refl a : scalar_eqb a a = true.
Proof. now apply scalar_eqb_eq. Qed.

Lemma hist_get_absent k h : ~ In k (map fst h) -> hist_get k h = 0.
Proof.
  induction h as [|[k' n] h IH]; intros H; auto. simpl in *.
  destruct (scalar_eqb k k') eqn:E.
  - apply scalar_eqb_eq in E. subst. tauto.
  - apply IH. tauto.
Qed.

Lemma hist_get_set k k' n h :
  hist_get k (hist_set k' n h)
  = if scalar_eqb k k' then n else hist_get k h.
Proof.
  induction h as [|[k2 n2] h IH]; simpl.
  - destruct (scalar_eqb k k'); reflexivity.
  - destruct (scalar_eqb k' k2) eqn:E2; simpl.
    + apply scalar_eqb_eq in E2. subst k2.
      destruct (scalar_eqb k k'); reflexivity.
    + destruct (scalar_eqb k k2) eqn:E; [|exact IH].
      apply scalar_eqb_eq in E. subst k2.
      destruct (scalar_eqb k k') eqn:E3; auto.
      apply scalar_eqb_eq in E3. subst k'.
      rewrite scalar_eqb_refl in E2. discriminate.
Qed.

Lemma hist_set_keys k n h x :
  In x (map fst (hist_set k n h)) <-> x = k \/ In x (map fst h).
Proof.
  induction h as [|[k2 n2] h IH]; simpl.
  - intuition.
  - destruct (scalar_eqb k k2) eqn:E; simpl.
    + apply scalar_eqb_eq in E. subst. intuition.
    + rewrite IH. intuition.
Qed.

Lemma hist_set_NoDup k n h :
  NoDup (map fst h) -> NoDup (map fst (hist_set k n h)).
Proof.
  induction h as [|[k2 n2] h IH]; simpl; intros N.
  - repeat constructor. intros [].
  - inversion N as [|? ? Nk Nh]; subst.
    destruct (scalar_eqb k k2) eqn:E; simpl.
    + now constructor.
    + constructor; auto. rewrite hist_set_keys. intros [->|H]; auto.
      rewrite scalar_eqb_refl in E. discriminate.
Qed.

Lemma hist_set_sum k h :
  list_sum (map snd (hist_set k (hist_get k h + 1) h))
  = S (list_sum (map snd h)).
Proof.
  induction h as [|[k2 n2] h IH]; simpl; auto.
  destruct (scalar_eqb k k2); simpl; lia.
Qed.

(** The loop of [get_stats]: a histogram of the categories, each key
    once. *)
Lemma count_loop first : forall acc h,
  for_each first acc count_step = inr h ->
  exists cats,
    Forall2 (fun metadata category => category_of metadata = inr category)
            first cats
    /\ (forall k,
          hist_get k h = hist_get k acc + count_occ scalar_eq_dec cats k)
    /\ list_sum (map snd h) = list_sum (map snd acc) + length first
    /\ (NoDup (map fst acc) -> NoDup (map fst h))
    /\ (forall k, In k (map fst h) <-> In k (map fst acc) \/ In k cats).
Proof.
  induction first as [|metadata first IH]; intros acc h H.
  - cbn in H. injection H as <-. exists []. simpl.
    split; [constructor|]. repeat split; auto; tauto.
  - cbn [for_each bind outcome_monad] in H.
    unfold count_step at 1 in H. cbn [bind outcome_monad] in H.
    destruct (category_of metadata) as [e|category] eqn:C; [discriminate|].
    cbn [ret outcome_monad] in H.
    destruct (IH _ _ H) as [cats [F [G [S [N K]]]]].
    exists (category :: cats). split; [now constructor|].
    split; [|split; [|split]].
    + intros k. rewrite G, hist_get_set. cbn [count_occ].
      destruct (scalar_eq_dec category k) as [->|D].
      * rewrite scalar_eqb_refl. lia.
      * destruct (scalar_eqb k category) eqn:E; [|reflexivity].
        apply scalar_eqb_eq in E. congruence.
    + rewrite S, hist_set_sum. simpl. lia.
    + intros Na. apply N. now apply hist_set_NoDup.
    + intros k. rewrite K, hist_set_keys. simpl. intuition.
Qed.

Lemma count_loop_completes first cats : forall acc,
  Forall2 (fun metadata category => category_of metadata = inr category)
          first cats ->
  exists h, for_each first acc count_step = inr h.
Proof.
  intros acc F. revert acc.
  induction F as [|metadata category first cats C F IH]; intros acc.
  - eexists. reflexivity.
  - cbn [for_each bind outcome_monad]. unfold count_step at 1.
    rewrite C. cbn [bind ret outcome_monad]. apply IH.
Qed.

Lemma get_stats_cases sv (q : queries sv) c :
  (get_stats q c
   = [("total_documents"%string, Total 0); ("categories"%string, Categories [])]
   /\ exists n, collection_count q c = Ok n /\ (n <= 0)%Z)
  \/ (exists e,
        get_stats q c
        = [("total_documents"%string, Total 0);
           ("categories"%string, Categories []);
           ("error"%string, Error e)]
        /\ get_stats_body q c = inl e)
  \/ (exists n sample h,
        get_stats q c
        = [("total_documents"%string, Total n);
           ("categories"%string, Categories h)]
        /\ collection_count q c = Ok n /\ (0 < n)%Z
        /\ collection_query q c [lit "sample"] (Z.min n 100) = Ok sample
        /\ match first_list (qr_metadatas sample) with
           | None => h = []
           | Some first => for_each first [] count_step = inr h
           end).
Proof.
  unfold get_stats, get_stats_body.
  destruct (collection_count q c) as [n|e] eqn:Cn;
    cbn [called bind outcome_monad];
    [|right; left; eexists; split; reflexivity].
  destruct (0 <? n)%Z eqn:P.
  - apply Z.ltb_lt in P.
    destruct (collection_query q c _ _) as [sample|e] eqn:Q;
      cbn [called bind outcome_monad];
      [|right; left; eexists; split; reflexivity].
    destruct (qr_metadatas sample) as [[|first rest]|] eqn:M;
      cbn [bind ret outcome_monad].
    + right; right. exists n, sample, []. rewrite M. cbn [first_list].
      auto 6.
    + destruct (for_each first [] count_step) as [e|h] eqn:L.
      * right; left. eexists; split; reflexivity.
      * right; right. exists n, sample, h. rewrite M. cbn [first_list].
        auto 6.
    + right; right. exists n, sample, []. rewrite M. cbn [first_list].
      auto 6.
  - apply Z.ltb_ge in P. left. split; [reflexivity|]. eauto.
Qed.

(** X12: [get_stats] never raises and always reports a total and a
    histogram whose keys are distinct and whose counts are positive.
    Whenever it reports an error, and whenever the count of the
    collection is not positive, the total is 0 and the histogram empty.
    A non-empty histogram comes from a positive count, which is the
    total reported, and from the first inner list of the metadata of one
    query for ["sample"] asking for the smaller of the count and 100:
    every metadata of that list is a dict, each category (['unknown']
    where the dict has none) is counted as often as it occurs, and the
    counts add up to the length of the list. *)
Theorem get_stats_spec :
  forall (sv : services) (q : queries sv) (c : coll sv),
    let stats := get_stats q c in
    exists n h,
      dict_get "total_documents" stats = Some (Total n)
      /\ dict_get "categories" stats = Some (Categories h)
      /\ (0 <= n)%Z
      /\ NoDup (map fst h)
      /\ (forall k, In k (map fst h) -> 0 < hist_get k h)
      /\ (dict_get "error" stats <> None -> n = 0%Z /\ h = [])
      /\ (forall n0, collection_count q c = Ok n0 -> (n0 <= 0)%Z ->
                     n = 0%Z /\ h = [] /\ dict_get "error" stats = None)
      /\ (h <> [] ->
          exists sample first cats,
            collection_count q c = Ok n
            /\ (0 < n)%Z
            /\ collection_query q c [lit "sample"] (Z.min n 100) = Ok sample
            /\ first_list (qr_metadatas sample) = Some first
            /\ Forall2 (fun metadata category =>
                          category_of metadata = inr category) first cats
            /\ (forall k, hist_get k h = count_occ scalar_eq_dec cats k)
            /\ list_sum (map snd h) = length first)
      /\ (forall n0 sample first cats,
            collection_count q c = Ok n0 -> (0 < n0)%Z ->
            collection_query q c [lit "sample"] (Z.min n0 100) = Ok sample ->
            first_list (qr_metadatas sample) = Some first ->
            Forall2 (fun metadata category =>
                       category_of metadata = inr category) first cats ->
            n = n0
            /\ dict_get "error" stats = None
            /\ list_sum (map snd h) = length first).
Proof.
  intros sv q c stats. subst stats.
  destruct (get_stats_cases sv q c)
    as [[-> [n [Cn Pn]]]|[[e [-> B]]|[n [sample [h [-> [Cn [Pn [Q L]]]]]]]]].
  - exists 0%Z, []. cbn [dict_get String.eqb Ascii.eqb Bool.eqb map].
    split; [reflexivity|]. split; [reflexivity|]. split; [lia|].
    split; [constructor|]. split; [intros k []|].
    split; [auto|]. split; [auto|]. split; [congruence|].
    intros n0 sample first cats Cn0. rewrite Cn in Cn0.
    injection Cn0 as <-. lia.
  - exists 0%Z, []. cbn [dict_get String.eqb Ascii.eqb Bool.eqb map].
    assert (forall n0, collection_count q c = Ok n0 -> (0 < n0)%Z) as Pos.
    { intros n0 Cn. unfold get_stats_body in B. rewrite Cn in B.
      cbn [called bind outcome_monad] in B.
      destruct (0 <? n0)%Z eqn:P; [now apply Z.ltb_lt in P|discriminate]. }
    assert (forall n0 sample first cats,
               collection_count q c = Ok n0 -> (0 < n0)%Z ->
               collection_query q c [lit "sample"] (Z.min n0 100)
               = Ok sample ->
               first_list (qr_metadatas sample) = Some first ->
               Forall2 (fun metadata category =>
                          category_of metadata = inr category) first cats ->
               False) as Never.
    { intros n0 sample first cats Cn Pn Q M F.
      unfold get_stats_body in B. rewrite Cn in B.
      cbn [called bind outcome_monad] in B.
      apply Z.ltb_lt in Pn. rewrite Pn, Q in B.
      cbn [called bind outcome_monad] in B.
      destruct (qr_metadatas sample) as [[|first0 rest]|]; try discriminate.
      injection M as ->.
      destruct (count_loop_completes first cats [] F) as [h L].
      rewrite L in B. discriminate. }
    split; [reflexivity|]. split; [reflexivity|]. split; [lia|].
    split; [constructor|]. split; [intros k []|].
    split; [auto|].
    split; [intros n0 Cn Pn; apply Pos in Cn; lia|].
    split; [congruence|].
    intros n0 sample first cats Cn Pn Q M F.
    destruct (Never _ _ _ _ Cn Pn Q M F).
  - exists n, h. cbn [dict_get String.eqb Ascii.eqb Bool.eqb].
    split; [reflexivity|]. split; [reflexivity|]. split; [lia|].
    assert (h = [] \/ exists first,
               first_list (qr_metadatas sample) = Some first
               /\ for_each first [] count_step = inr h) as Hh.
    { destruct (first_list (qr_metadatas sample)) as [first|]; eauto. }
    assert (forall first,
               first_list (qr_metadatas sample) = Some first ->
               exists cats,
                 Forall2 (fun metadata category =>
                            category_of metadata = inr category) first cats
                 /\ (forall k, hist_get k h = count_occ scalar_eq_dec cats k)
                 /\ list_sum (map snd h) = length first
                 /\ NoDup (map fst h)
                 /\ (forall k, In k (map fst h) <-> In k cats)) as Hist.
    { intros first M. rewrite M in L.
      destruct (count_loop _ _ _ L) as [cats [F [G [S [N K]]]]].
      exists cats. split; [exact F|]. split; [exact G|].
      split; [exact S|]. split; [apply N; constructor|].
      intros k. rewrite K. simpl. tauto. }
    split; [|split; [|split; [|split; [|split]]]].
    + destruct Hh as [->|[first [M _]]]; [constructor|].
      destruct (Hist first M) as [cats [_ [_ [_ [N _]]]]]. exact N.
    + intros k Hk. destruct Hh as [->|[first [M _]]]; [destruct Hk|].
      destruct (Hist first M) as [cats [_ [G [_ [_ K]]]]].
      rewrite G. apply count_occ_In. now apply K.
    + intros E. congruence.
    + intros n0 Cn0 Pn0. rewrite Cn in Cn0. injection Cn0 as <-. lia.
    + intros Hne. destruct Hh as [->|[first [M _]]]; [congruence|].
      destruct (Hist first M) as [cats [F [G [S _]]]].
      exists sample, first, cats. auto 10.
    + intros n0 sample0 first cats Cn0 Pn0 Q0 M F.
      rewrite Cn in Cn0. injection Cn0 as <-.
      rewrite Q in Q0. injection Q0 as <-.
      split; [reflexivity|]. split; [reflexivity|].
      destruct (Hist first M) as [cats' [_ [_ [S _]]]]. exact S.
Qed.

(** X13: [get_stats] never asks the collection for more than 100
    results, and only for the text ["sample"]: two collections that
    report the same count and answer every such query alike have the
    same statistics, whatever they answer to other queries. *)
Theorem get_stats_sample_bound :
  forall (sv : services) (q1 q2 : queries sv) (c : coll sv),
    collection_count q1 c = collection_count q2 c ->
    (forall n, (0 < n <= 100)%Z ->
               collection_query q1 c [lit "sample"] n
               = collection_query q2 c [lit "sample"] n) ->
    get_stats q1 c = get_stats q2 c.
Proof.
  intros sv q1 q2 c Hc Hq. unfold get_stats, get_stats_body.
  rewrite Hc. destruct (collection_count q2 c) as [n|e]; [|reflexivity].
  cbn [called bind outcome_monad].
  destruct (0 <? n)%Z eqn:P; [|reflexivity].
  apply Z.ltb_lt in P. rewrite Hq by lia. reflexivity.
Qed.

Lemma get_stats_sample_bound_witness :
  get_stats generous [] = get_stats capped [].
Proof.
  apply get_stats_sample_bound.
  - reflexivity.
  - intros n Hn. cbn [collection_query capped generous].
    destruct (n <=? 100)%Z eqn:L; [reflexivity|].
    apply Z.leb_gt in L. lia.
Defined.

Example search_two_hits :
  map hit_id (search generous [] (lit "invoice") 5)
  = [lit "invoice_a.jpg"; lit "invoice_b.jpg"]
  /\ map (fun h => length (hit_text h)) (search generous [] (lit "invoice") 5)
     = [30; 203]
  /\ map hit_similarity (search generous [] (lit "invoice") 5)
     = [0.75%float; 0.5%float].
Proof. repeat split; vm_compute; reflexivity. Qed.

Example get_stats_two_hits :
  get_stats generous []
  = [("total_documents"%string, Total 2);
     ("categories"%string,
      Categories [(SStr (lit "invoice"), 1); (SStr (lit "unknown"), 1)])].
Proof. vm_compute. reflexivity. Qed.

(* ===================================================================== *)
(** * The management command *)
(* ===================================================================== *)

Lemma document_exists_false sv (q : queries sv) c file_path :
  Command._document_exists q c file_path = false.
Proof. reflexivity. Qed.

Lemma handle_step_closed_form sv (q : queries sv) skip counts info w :
  Command.handle_step q skip counts info w
  = match Pipeline.process_single_document sv (Command.info_path info) w with
    | (Ok (Some _), w') =>
        (Ok {| Command.processed_count := Command.processed_count counts + 1;
               Command.error_count := Command.error_count counts |}, w')
    | (_, w') =>
        (Ok {| Command.processed_count := Command.processed_count counts;
               Command.error_count := Command.error_count counts + 1 |}, w')
    end.
Proof.
  unfold Command.handle_step, Pipeline.try_except, Command.to_skip.
  cbn [bind Pipeline.io_monad].
  rewrite document_exists_false, andb_false_r.
  destruct (Pipeline.process_single_document sv _ w) as [[[d|]|e] w'];
    reflexivity.
Qed.

Lemma handle_loop_from sv (q : queries sv) skip documents :
  forall counts acc w,
  exists new w',
    for_each documents counts (Command.handle_step q skip) w
    = (Ok {| Command.processed_count :=
               Command.processed_count counts + length new;
             Command.error_count :=
               Command.error_count counts + (length documents - length new) |},
       w')
    /\ for_each (map Command.info_path documents) acc
         (Pipeline.collect_step sv) w
       = (Ok (acc ++ new), w')
    /\ length new <= length documents.
Proof.
  induction documents as [|info documents IH]; intros counts acc w.
  - exists [], w. cbn. rewrite app_nil_r, !Nat.add_0_r.
    destruct counts. auto.
  - cbn [for_each map bind Pipeline.io_monad].
    rewrite handle_step_closed_form.
    unfold Pipeline.collect_step at 1. cbn [bind Pipeline.io_monad].
    destruct (process_single_document_cases sv (Command.info_path info) w)
      as [r [w1 [ev [P _]]]].
    rewrite P. destruct r as [d|]; cbn [ret Pipeline.io_monad].
    + destruct (IH {| Command.processed_count :=
                        Command.processed_count counts + 1;
                      Command.error_count := Command.error_count counts |}
                   (acc ++ [d]) w1) as [new [w' [H [C L]]]].
      exists (d :: new), w'. rewrite H, C.
      cbn [Command.processed_count Command.error_count length].
      rewrite <- app_assoc. cbn [app].
      split; [|split; [reflexivity|lia]].
      do 3 f_equal; lia.
    + destruct (IH {| Command.processed_count :=
                        Command.processed_count counts;
                      Command.error_count := Command.error_count counts + 1 |}
                   acc w1) as [new [w' [H [C L]]]].
      exists new, w'. rewrite H, C.
      cbn [Command.processed_count Command.error_count length].
      split; [|split; [reflexivity|lia]].
      do 3 f_equal; lia.
Qed.

(** X14: the option [--skip-existing] of the management command has
    no effect.  [_document_exists] answers [False] for every path and
    every collection, because it calls [search] with a keyword that
    [search] does not have, so with or without the option the loop of
    [handle] passes every document to [process_single_document], in
    order.  The loop never raises, it leaves the world
    exactly as the per-file loop of [process_documents] does on the same
    paths, its two counters add up to the number of documents, and
    [processed_count] is the number of records that loop collects.  The
    statistics printed afterwards always show an empty dict of document
    types. *)
Theorem skip_existing_has_no_effect :
  forall (sv : services) (q : queries sv) (skip_existing : bool)
         (documents : list Command.doc_info) (w : Pipeline.world sv),
    (forall c file_path, Command._document_exists q c file_path = false)
    /\ Command.handle_loop q skip_existing documents w
       = Command.handle_loop q false documents w
    /\ (exists counts docs w',
          Command.handle_loop q skip_existing documents w = (Ok counts, w')
          /\ Pipeline.collect sv (map Command.info_path documents) w
             = (Ok docs, w')
          /\ Command.processed_count counts = length docs
          /\ Command.processed_count counts + Command.error_count counts
             = length documents)
    /\ (forall c, snd (Command.shown_stats q c) = Categories []).
Proof.
  intros sv q skip documents w.
  split; [intros c f; apply document_exists_false|].
  split; [|split].
  - unfold Command.handle_loop.
    generalize {| Command.processed_count := 0; Command.error_count := 0 |}.
    revert w. induction documents as [|info documents IH]; intros w counts;
      [reflexivity|].
    cbn [for_each bind Pipeline.io_monad].
    rewrite !handle_step_closed_form.
    destruct (Pipeline.process_single_document sv _ w) as [[[d|]|e] w'];
      apply IH.
  - destruct (handle_loop_from sv q skip documents
                {| Command.processed_count := 0; Command.error_count := 0 |}
                [] w) as [new [w' [H [C L]]]].
    eexists _, new, w'. split; [exact H|]. split; [exact C|].
    cbn [Command.processed_count Command.error_count]. lia.
  - intros c. unfold Command.shown_stats. cbv zeta. cbn [snd].
    destruct (get_stats_cases sv q c)
      as [[-> _]|[[e [-> _]]|[n [sample [h [-> _]]]]]]; reflexivity.
Qed.

(* ===================================================================== *)
(** * The upload endpoint's file check *)
(* ===================================================================== *)

Lemma split_on_nonempty sep s : split_on sep s <> [].
Proof.
  destruct s as [|c s]; simpl; [discriminate|].
  destruct (Ascii.eqb c sep); [discriminate|].
  destruct (split_on sep s); discriminate.
Qed.

Lemma split_on_single sep s w :
  split_on sep s = [w] ->
  w = s /\ forall c, In c s -> Ascii.eqb c sep = false.
Proof.
  revert w. induction s as [|c s IH]; simpl; intros w H.
  - injection H as <-. split; auto. intros c [].
  - destruct (Ascii.eqb c sep) eqn:E.
    + injection H as _ H. destruct (split_on_nonempty _ _ H).
    + destruct (split_on sep s) as [|w' ws] eqn:S;
        [destruct (split_on_nonempty _ _ S)|].
      injection H as <- ->. destruct (IH w' eq_refl) as [-> Hn].
      split; auto. intros x [<-|Hx]; auto.
Qed.

Lemma last_cons_nonempty {A} (x : A) xs d :
  xs <> [] -> last (x :: xs) d = last xs d.
Proof. destruct xs; [congruence|reflexivity]. Qed.

Lemma basename_cons p c :
  Pipeline.basename (c :: p)
  = if Ascii.eqb c Pipeline.os_sep then Pipeline.basename p
    else match split_on Pipeline.os_sep p with
         | [_] => c :: Pipeline.basename p
         | _ => Pipeline.basename p
         end.
Proof.
  unfold Pipeline.basename. cbn [split_on].
  destruct (Ascii.eqb c Pipeline.os_sep).
  - apply last_cons_nonempty, split_on_nonempty.
  - destruct (split_on Pipeline.os_sep p) as [|w [|w2 ws]] eqn:S.
    + destruct (split_on_nonempty _ _ S).
    + reflexivity.
    + reflexivity.
Qed.

Lemma basename_no_sep p c :
  In c (Pipeline.basename p) -> Ascii.eqb c Pipeline.os_sep = false.
Proof.
  revert c. induction p as [|x p IH]; intros c H.
  - destruct H.
  - rewrite basename_cons in H.
    destruct (Ascii.eqb x Pipeline.os_sep) eqn:E; auto.
    destruct (split_on Pipeline.os_sep p) as [|w [|w2 ws]]; auto.
    destruct H as [<-|H]; auto.
Qed.

Lemma basename_app a x :
  (forall c, In c x -> Ascii.eqb c Pipeline.os_sep = false) ->
  Pipeline.basename (a ++ x) = Pipeline.basename a ++ x.
Proof.
  intros Hx. induction a as [|c a IH].
  - unfold Pipeline.basename. now rewrite split_on_absent.
  - cbn [app]. rewrite !basename_cons.
    destruct (Ascii.eqb c Pipeline.os_sep); auto.
    destruct (split_on Pipeline.os_sep a) as [|w [|w2 ws]] eqn:S.
    + destruct (split_on_nonempty _ _ S).
    + apply split_on_single in S as [-> Ha].
      rewrite (split_on_absent _ (a ++ x)).
      * rewrite IH. reflexivity.
      * intros y Hy. apply in_app_or in Hy as [Hy|Hy]; auto.
    + destruct (split_on Pipeline.os_sep (a ++ x)) as [|v [|v2 vs]] eqn:T;
        auto.
      apply split_on_single in T as [_ T].
      assert (split_on Pipeline.os_sep a = [a]) as Sa.
      { apply split_on_absent. intros y Hy. apply T, in_or_app. now left. }
      rewrite Sa in S. discriminate.
Qed.

(** A path is a directory part, empty or ending with the separator,
    followed by its last component. *)
Lemma basename_split p :
  exists dir, p = dir ++ Pipeline.basename p /\ Pipeline.basename dir = [].
Proof.
  induction p as [|c p [dir [Hp Hd]]].
  - exists []. split; reflexivity.
  - rewrite basename_cons. destruct (Ascii.eqb c Pipeline.os_sep) eqn:E.
    + exists (c :: dir). split; [cbn; congruence|].
      rewrite basename_cons, E. exact Hd.
    + destruct (split_on Pipeline.os_sep p) as [|w [|w2 ws]] eqn:S.
      * destruct (split_on_nonempty _ _ S).
      * exists []. split; [|reflexivity].
        unfold Pipeline.basename. rewrite S. cbn.
        apply split_on_single in S as [-> _]. reflexivity.
      * exists (c :: dir). split; [cbn; congruence|].
        rewrite basename_cons, E.
        destruct (split_on Pipeline.os_sep dir) as [|v [|v2 vs]] eqn:T; auto.
        exfalso. pose proof T as T'. apply split_on_single in T' as [-> _].
        unfold Pipeline.basename in Hd. rewrite T in Hd. cbn in Hd. subst dir.
        cbn [app] in Hp. unfold Pipeline.basename in Hp. rewrite S in Hp.
        assert (split_on Pipeline.os_sep p = [p]) as Sp.
        { apply split_on_absent. intros y Hy. rewrite Hp in Hy.
          change (last (w :: w2 :: ws) []) with
            (last (w :: w2 :: ws) ([] : str)) in Hy.
          rewrite <- S in Hy. fold (Pipeline.basename p) in Hy.
          now apply basename_no_sep in Hy. }
        rewrite Sp in S. discriminate.
Qed.

Lemma split_last_dot_spec s stem ext :
  UploadView.split_last_dot s = Some (stem, ext) ->
  s = stem ++ ext
  /\ exists rest,
       ext = "."%char :: rest
       /\ forall c, In c rest -> UploadView.not_dot c = true.
Proof.
  revert stem ext. induction s as [|c s IH]; intros stem ext H;
    [discriminate|].
  cbn [UploadView.split_last_dot] in H.
  destruct (UploadView.split_last_dot s) as [[a b]|] eqn:S.
  - injection H as <- <-. destruct (IH a b eq_refl) as [-> R].
    split; [reflexivity|exact R].
  - destruct (Ascii.eqb c ".") eqn:E; [|discriminate].
    injection H as <- <-. apply Ascii.eqb_eq in E. subst c.
    split; [reflexivity|]. exists s. split; [reflexivity|].
    clear IH. induction s as [|x s IHs]; intros c Hc; [destruct Hc|].
    cbn [UploadView.split_last_dot] in S.
    destruct (UploadView.split_last_dot s) as [[a b]|]; [discriminate|].
    destruct (Ascii.eqb x ".") eqn:Ex; [discriminate|].
    destruct Hc as [<-|Hc]; [unfold UploadView.not_dot; now rewrite Ex|].
    now apply IHs.
Qed.

Lemma split_last_dot_none s :
  (forall c, In c s -> UploadView.not_dot c = true) ->
  UploadView.split_last_dot s = None.
Proof.
  induction s as [|c s IH]; intros H; auto.
  cbn [UploadView.split_last_dot]. rewrite IH by (intros; apply H; now right).
  specialize (H c (or_introl eq_refl)). unfold UploadView.not_dot in H.
  destruct (Ascii.eqb c "."); [discriminate|reflexivity].
Qed.

Lemma split_last_dot_app stem rest :
  (forall c, In c rest -> UploadView.not_dot c = true) ->
  UploadView.split_last_dot (stem ++ "."%char :: rest)
  = Some (stem, "."%char :: rest).
Proof.
  intros H. induction stem as [|c stem IH].
  - cbn [app UploadView.split_last_dot].
    now rewrite split_last_dot_none.
  - cbn [app UploadView.split_last_dot]. now rewrite IH.
Qed.

Lemma lower_char_dot c : lower_char c = "."%char -> c = "."%char.
Proof.
  destruct c as [[] [] [] [] [] [] [] []]; vm_compute; congruence.
Qed.

Lemma lower_char_sep c : c = Pipeline.os_sep -> lower_char c = c.
Proof. intros ->. reflexivity. Qed.

(** An extension that reads .jpg or .jpeg in lower case is a dot
    followed by letters. *)
Lemma jpeg_extension_shape ext :
  In (lower ext) jpeg_extensions ->
  (exists rest,
      ext = "."%char :: rest
      /\ forall c, In c rest -> UploadView.not_dot c = true)
  /\ forall c, In c ext -> Ascii.eqb c Pipeline.os_sep = false.
Proof.
  intros H.
  assert (forall c, In c ext -> In (lower_char c) (lit ".jpeg")) as Hc.
  { intros c Hc. apply (in_map lower_char) in Hc. fold (lower ext) in Hc.
    destruct H as [H|[H|[]]]; rewrite <- H in Hc; vm_compute in Hc |- *;
      tauto. }
  split.
  - destruct ext as [|c0 rest];
      [destruct H as [H|[H|[]]]; discriminate|].
    assert (c0 = "."%char) as ->.
    { apply lower_char_dot.
      destruct H as [H|[H|[]]]; cbn in H; congruence. }
    exists rest. split; [reflexivity|].
    intros c Hin. unfold UploadView.not_dot.
    destruct (Ascii.eqb c ".") eqn:E; [|reflexivity].
    apply Ascii.eqb_eq in E. subst c. exfalso.
    apply (in_map lower_char) in Hin. fold (lower rest) in Hin.
    destruct H as [H|[H|[]]]; apply (f_equal (@tl ascii)) in H;
      cbn [lower map tl] in H; fold (lower rest) in H; rewrite <- H in Hin;
      vm_compute in Hin; intuition discriminate.
  - intros c Hin. destruct (Ascii.eqb c Pipeline.os_sep) eqn:E; auto.
    apply Ascii.eqb_eq in E. subst c. specialize (Hc _ Hin).
    vm_compute in Hc. intuition discriminate.
Qed.

(** X15: [_validate_file] accepts an upload exactly when its size is at
    most 10 MiB and its name is a stem followed by an extension that
    reads .jpg or .jpeg in lower case, the last path component of the
    stem having a character other than a dot.  Every name it accepts
    also passes the filter of [get_document_files]. *)
Theorem validate_file_spec :
  forall uploaded : UploadView.uploaded_file,
    (UploadView._validate_file uploaded = true
     <-> (UploadView.size uploaded <= 10485760)%Z
         /\ exists stem ext,
              UploadView.name uploaded = stem ++ ext
              /\ In (lower ext) jpeg_extensions
              /\ existsb UploadView.not_dot (Pipeline.basename stem) = true)
    /\ (UploadView._validate_file uploaded = true ->
        existsb (endswith (lower (UploadView.name uploaded))) jpeg_extensions
        = true).
Proof.
  intros [name size].
  assert (UploadView._validate_file
            {| UploadView.name := name; UploadView.size := size |} = true
          <-> (size <= 10485760)%Z
              /\ exists stem ext,
                   name = stem ++ ext
                   /\ In (lower ext) jpeg_extensions
                   /\ existsb UploadView.not_dot (Pipeline.basename stem)
                      = true) as Spec.
  { unfold UploadView._validate_file.
    cbn [UploadView.name UploadView.size]. cbv zeta.
    change (10 * 1024 * 1024)%Z with 10485760%Z.
    fold jpeg_extensions.
    destruct (10485760 <? size)%Z eqn:Sz.
    { apply Z.ltb_lt in Sz. split; [discriminate|]. intros [H _]. lia. }
    apply Z.ltb_ge in Sz.
    destruct (mem (lower (UploadView.splitext_ext name)) jpeg_extensions)
      eqn:M; cbn [negb].
    - split; [intros _|reflexivity]. split; [exact Sz|].
      apply mem_In in M. unfold UploadView.splitext_ext in M.
      destruct (basename_split name) as [dir [Hn Hd]].
      destruct (UploadView.split_last_dot (Pipeline.basename name))
        as [[stem ext]|] eqn:S;
        [|destruct M as [M|[M|[]]]; discriminate].
      destruct (existsb UploadView.not_dot stem) eqn:Ex;
        [|destruct M as [M|[M|[]]]; discriminate].
      apply split_last_dot_spec in S as [B _].
      exists (dir ++ stem), ext. split; [|split; [exact M|]].
      + rewrite Hn at 1. rewrite B. apply app_assoc.
      + rewrite basename_app, Hd; [exact Ex|].
        intros c Hc. apply (basename_no_sep name). rewrite B.
        apply in_or_app. now left.
    - split; [discriminate|]. intros [_ [stem [ext [Hn [He Hs]]]]].
      exfalso.
      destruct (jpeg_extension_shape ext He) as [[rest [-> Hr]] Hsep].
      assert (UploadView.splitext_ext name = "."%char :: rest) as E.
      { unfold UploadView.splitext_ext. rewrite Hn.
        rewrite basename_app by exact Hsep.
        rewrite split_last_dot_app by exact Hr. now rewrite Hs. }
      rewrite E in M. apply mem_In in He. congruence. }
  split; [exact Spec|].
  intros H. apply Spec in H as [_ [stem [ext [Hn [He _]]]]].
  cbn [UploadView.name]. rewrite Hn, lower_app.
  apply existsb_exists. exists (lower ext). split; [exact He|].
  apply endswith_iff. eauto.
Qed.

(** The filter of [get_document_files] is the weaker of the two: it
    keeps a file named .jpg, which the upload endpoint refuses. *)
Example hidden_jpg_is_listed_but_not_uploaded :
  existsb (endswith (lower (lit ".jpg"))) jpeg_extensions = true
  /\ UploadView._validate_file
       {| UploadView.name := lit ".jpg"; UploadView.size := 1 |} = false
  /\ UploadView._validate_file
       {| UploadView.name := lit "scan.v2.JPG"; UploadView.size := 10485760 |}
     = true.
Proof. repeat split; vm_compute; reflexivity. Qed.

(* ===================================================================== *)
(** * The search endpoint *)
(* ===================================================================== *)

(** X16: [DocumentSearchView.get] converts [limit] before it looks at
    [q].  Its status is 500 exactly when the request carries a [limit]
    that [int] refuses, whether or not [q] is given; 400 exactly when
    the limit is acceptable and [q] is missing or empty; otherwise it is
    200 with the results of [search] for that query and that limit (5
    when none is given) and their number.  A query the collection fails
    on is answered with 200 and no results. *)
Theorem search_view_spec :
  forall (sv : services) (q : queries sv) (int_of_str : str -> option Z)
         (GET : dict str) (c : coll sv),
    let r := SearchView.get q int_of_str GET c in
    (SearchView.status r = 500 <-> unreadable_limit int_of_str GET)
    /\ (SearchView.status r = 400
        <-> ~ unreadable_limit int_of_str GET
            /\ (dict_get "q" GET = None \/ dict_get "q" GET = Some []))
    /\ (forall query results count,
          r = SearchView.Found query results count ->
          dict_get "q" GET = Some query
          /\ query <> []
          /\ count = length results
          /\ exists limit,
               results = search q c query limit
               /\ match dict_get "limit" GET with
                  | None => limit = 5%Z
                  | Some v => int_of_str v = Some limit
                  end)
    /\ (forall query limit e,
          dict_get "q" GET = Some query ->
          query <> [] ->
          match dict_get "limit" GET with
          | None => limit = 5%Z
          | Some v => int_of_str v = Some limit
          end ->
          collection_query q c [query] limit = Raise e ->
          r = SearchView.Found query [] 0).
Proof.
  intros sv q int_of_str GET c r. subst r.
  unfold SearchView.get, SearchView.get_body, unreadable_limit. cbv zeta.
  destruct (dict_get "limit" GET) as [v|] eqn:L.
  - destruct (int_of_str v) as [n|] eqn:I; cbn [bind ret result_monad].
    + destruct (dict_get "q" GET) as [[|ch query]|] eqn:Q;
        cbn [SearchView.status].
      * split; [split; [discriminate|intros [v' [[= <-] E]]; congruence]|].
        split; [split; [intros _; split; [intros [v' [[= <-] E]]; congruence
                                         |now right]|reflexivity]|].
        split; [discriminate|]. intros query limit e [= <-]. congruence.
      * split; [split; [discriminate|intros [v' [[= <-] E]]; congruence]|].
        split; [split; [discriminate|intros [_ [H|H]]; discriminate]|].
        split.
        -- intros query' results count [= <- <- <-].
           split; [reflexivity|]. split; [discriminate|].
           split; [reflexivity|]. exists n. auto.
        -- intros query' limit e [= <-] _ Hl Hq.
           injection Hl as <-.
           unfold search, search_body. rewrite Hq. reflexivity.
      * split; [split; [discriminate|intros [v' [[= <-] E]]; congruence]|].
        split; [split; [intros _; split; [intros [v' [[= <-] E]]; congruence
                                         |now left]|reflexivity]|].
        split; [discriminate|]. discriminate.
    + cbn [SearchView.status].
      split; [split; [intros _; eauto|reflexivity]|].
      split; [split; [discriminate|intros [H _]; destruct H; eauto]|].
      split; [discriminate|]. intros query limit e _ _ Hl. congruence.
  - cbn [bind ret result_monad].
    destruct (dict_get "q" GET) as [[|ch query]|] eqn:Q;
      cbn [SearchView.status].
    + split; [split; [discriminate|intros [v' [E _]]; discriminate]|].
      split; [split; [intros _; split; [intros [v' [E _]]; discriminate
                                       |now right]|reflexivity]|].
      split; [discriminate|]. intros query limit e [= <-]. congruence.
    + split; [split; [discriminate|intros [v' [E _]]; discriminate]|].
      split; [split; [discriminate|intros [_ [H|H]]; discriminate]|].
      split.
      * intros query' results count [= <- <- <-].
        split; [reflexivity|]. split; [discriminate|].
        split; [reflexivity|]. exists 5%Z. auto.
      * intros query' limit e [= <-] _ -> Hq.
        unfold search, search_body. rewrite Hq. reflexivity.
    + split; [split; [discriminate|intros [v' [E _]]; discriminate]|].
      split; [split; [intros _; split; [intros [v' [E _]]; discriminate
                                       |now left]|reflexivity]|].
      split; [discriminate|]. discriminate.
Qed.

(* ===================================================================== *)
(** * The files of the standalone script *)
(* ===================================================================== *)

Lemma add_files_unlimited limit category image_files : forall files,
  limit = None \/ limit = Some 0%Z ->
  Standalone.add_files limit category image_files files
  = inr (files
         ++ map (fun p => {| Standalone.path := p;
                             Standalone.category := category;
                             Standalone.filename := Standalone.path_name p |})
                image_files).
Proof.
  intros files H.
  revert files. induction image_files as [|p ps IH]; intros files; cbn.
  - now rewrite app_nil_r.
  - assert (Standalone.reached limit
              (files ++ [{| Standalone.path := p;
                            Standalone.category := category;
                            Standalone.filename := Standalone.path_name p |}])
            = false) as ->
        by (destruct H as [->| ->]; reflexivity).
    rewrite IH, <- app_assoc. reflexivity.
Qed.

Lemma add_files_positive n category image_files : forall files,
  (0 < n)%Z -> length files < Z.to_nat n ->
  let found :=
    files
    ++ map (fun p => {| Standalone.path := p;
                        Standalone.category := category;
                        Standalone.filename := Standalone.path_name p |})
           image_files in
  Standalone.add_files (Some n) category image_files files
  = if length found <? Z.to_nat n then inr found
    else inl (firstn (Z.to_nat n) found).
Proof.
  intros files Hn. revert files.
  induction image_files as [|p ps IH]; intros files Hf found; subst found.
  - cbn [Standalone.add_files map]. rewrite app_nil_r.
    apply Nat.ltb_lt in Hf. now rewrite Hf.
  - cbn [Standalone.add_files map]. cbv zeta.
    set (file := {| Standalone.path := p;
                    Standalone.category := category;
                    Standalone.filename := Standalone.path_name p |}).
    unfold Standalone.reached.
    assert ((n =? 0)%Z = false) as -> by (apply Z.eqb_neq; lia).
    cbn [negb andb].
    destruct (n <=? Z.of_nat (length (files ++ [file])))%Z eqn:R.
    + apply Z.leb_le in R. rewrite length_app in R. cbn [length] in R.
      assert (length files + 1 = Z.to_nat n) as E by lia.
      assert ((length (files ++ file :: map _ ps) <? Z.to_nat n) = false)
        as -> by (apply Nat.ltb_ge; rewrite length_app; cbn; lia).
      change (files ++ file :: map _ ps)
        with (files ++ [file] ++ map
                (fun p => {| Standalone.path := p;
                             Standalone.category := category;
                             Standalone.filename := Standalone.path_name p |})
                ps).
      rewrite app_assoc, firstn_app.
      rewrite firstn_all2 by (rewrite length_app; cbn; lia).
      replace (Z.to_nat n - length (files ++ [file])) with 0
        by (rewrite length_app; cbn; lia).
      cbn. now rewrite app_nil_r.
    + apply Z.leb_gt in R. rewrite length_app in R. cbn [length] in R.
      rewrite IH by (rewrite length_app; cbn; lia).
      rewrite <- app_assoc. reflexivity.
Qed.

Lemma add_files_negative n category image_files files :
  (n < 0)%Z ->
  Standalone.add_files (Some n) category image_files files
  = match image_files with
    | [] => inr files
    | p :: _ =>
        inl (files ++ [{| Standalone.path := p;
                          Standalone.category := category;
                          Standalone.filename := Standalone.path_name p |}])
    end.
Proof.
  intros Hn. destruct image_files as [|p ps]; [reflexivity|].
  cbn [Standalone.add_files]. cbv zeta. unfold Standalone.reached.
  assert ((n =? 0)%Z = false) as -> by (apply Z.eqb_neq; lia).
  assert ((n <=? Z.of_nat (length (files ++ [{|
             Standalone.path := p;
             Standalone.category := category;
             Standalone.filename := Standalone.path_name p |}])))%Z = true)
    as -> by (apply Z.leb_le; lia).
  reflexivity.
Qed.

Lemma scan_unlimited limit entries : forall files,
  limit = None \/ limit = Some 0%Z ->
  Standalone.scan limit entries files = files ++ images_of entries.
Proof.
  intros files H. revert files.
  induction entries as [|e entries IH]; intros files; cbn.
  - now rewrite app_nil_r.
  - destruct (Standalone.entry_is_dir e); cbn [negb].
    + rewrite add_files_unlimited by exact H.
      rewrite IH, <- app_assoc. reflexivity.
    + apply IH.
Qed.

Lemma scan_positive n entries : forall files,
  (0 < n)%Z -> length files < Z.to_nat n ->
  Standalone.scan (Some n) entries files
  = firstn (Z.to_nat n) (files ++ images_of entries).
Proof.
  intros files Hn. revert files.
  induction entries as [|e entries IH]; intros files Hf; cbn.
  - rewrite app_nil_r. symmetry. apply firstn_all2. lia.
  - destruct (Standalone.entry_is_dir e); cbn [negb]; [|now apply IH].
    rewrite add_files_positive by assumption. cbv zeta.
    destruct (_ <? _) eqn:L.
    + apply Nat.ltb_lt in L. rewrite IH by exact L.
      now rewrite <- app_assoc.
    + apply Nat.ltb_ge in L.
      set (here := map _ (Standalone.glob_jpg e ++ Standalone.glob_png e))
        in *.
      rewrite (app_assoc files here).
      rewrite (firstn_app (Z.to_nat n) (files ++ here)).
      replace (Z.to_nat n - length (files ++ here)) with 0 by lia.
      rewrite firstn_O, app_nil_r. reflexivity.
Qed.

Lemma scan_negative n entries files :
  (n < 0)%Z ->
  Standalone.scan (Some n) entries files
  = files ++ firstn 1 (images_of entries).
Proof.
  intros Hn. induction entries as [|e entries IH]; cbn.
  - now rewrite app_nil_r.
  - destruct (Standalone.entry_is_dir e); cbn [negb]; [|exact IH].
    rewrite add_files_negative by exact Hn.
    destruct (Standalone.glob_jpg e ++ Standalone.glob_png e) as [|p ps];
      [exact IH|reflexivity].
Qed.

(** X17: the standalone [get_document_files] lists, directory by
    directory, the .jpg matches and then the .png matches of every
    directory entry, skipping entries that are no directory.  A limit of
    [None] or 0 returns them all, a positive limit the first [limit] of
    them, and a negative limit only the first one. *)
Theorem standalone_files_limit :
  forall (iterdir : str -> list Standalone.dir_entry) (data_dir : str),
    let found := images_of (iterdir data_dir) in
    Standalone.get_document_files iterdir data_dir None = found
    /\ Standalone.get_document_files iterdir data_dir (Some 0%Z) = found
    /\ (forall n, (0 < n)%Z ->
          Standalone.get_document_files iterdir data_dir (Some n)
          = firstn (Z.to_nat n) found)
    /\ (forall n, (n < 0)%Z ->
          Standalone.get_document_files iterdir data_dir (Some n)
          = firstn 1 found).
Proof.
  intros iterdir data_dir found. subst found.
  unfold Standalone.get_document_files.
  split; [apply (scan_unlimited None _ []); now left|].
  split; [apply (scan_unlimited (Some 0%Z) _ []); now right|].
  split.
  - intros n Hn. apply (scan_positive n _ [] Hn). cbn. lia.
  - intros n Hn. apply (scan_negative n _ [] Hn).
Qed.
